(** * Post lifecycle, scheduler and background publisher

    A shallow embedding of [modules/post_manager.py], [modules/scheduler.py],
    [background_publisher.py] and [utils/datetime_helper.py], with the
    properties of the post store, of the time distribution and of the
    publish loop stated and proved over it.

    Modelling conventions.
    - A status directory ([drafts/], [scheduled/], [published/]) is a finite
      map from post id to the record stored in [<id>.json].
    - A naive [datetime] is a day number (Python's [toordinal]) with the
      clock fields; a [timedelta] is a number of microseconds.
    - A Python float is the rational it denotes. In the scheduler, whose
      times depend on it, every float operation rounds its exact result to
      the nearest binary64 value, ties to even ([fl]), and
      [timedelta(minutes=x)] splits a float [x] the way CPython's [datetime]
      does. The publish loop, the limits and the rate limiter compare a
      number of seconds or minutes with a constant; there
      [total_seconds()] is the exact quotient.
    - Every [datetime.now()] is an explicit argument of the function that
      reads the clock.
    - A Python string is the byte string of its UTF-8 encoding; [lower] and
      the digit class of the regular expression are taken on the ASCII
      range. *)

From Stdlib Require Import ZArith QArith Qround Qabs Qpower Lia Lqa List Ascii
  String.
From Stdlib Require OrdersEx.
From stdpp Require Import base option list strings gmap fin_maps sorting.
Import ListNotations.

Local Open Scope Z_scope.

(** ** Python's naive datetime and timedelta *)

Module Datetime.

Record datetime : Type := mk_datetime {
  ordinal : Z;       (* date(): proleptic Gregorian day number *)
  hour : Z;
  minute : Z;
  second : Z;
  microsecond : Z
}.

(** [timedelta]: microseconds. *)
Definition timedelta : Type := Z.

Definition US_PER_SECOND : Z := 1000000.
Definition US_PER_MINUTE : Z := 60 * US_PER_SECOND.
Definition US_PER_HOUR : Z := 60 * US_PER_MINUTE.
Definition US_PER_DAY : Z := 24 * US_PER_HOUR.

Definition time_us (d : datetime) : Z :=
  hour d * US_PER_HOUR + minute d * US_PER_MINUTE
  + second d * US_PER_SECOND + microsecond d.

(** Position on the time line, in microseconds. *)
Definition to_us (d : datetime) : Z := ordinal d * US_PER_DAY + time_us d.

Definition of_us (t : Z) : datetime :=
  let r := t mod US_PER_DAY in
  {| ordinal := t / US_PER_DAY;
     hour := r / US_PER_HOUR;
     minute := (r / US_PER_MINUTE) mod 60;
     second := (r / US_PER_SECOND) mod 60;
     microsecond := r mod US_PER_SECOND |}.

(** [d.date()] *)
Definition date (d : datetime) : Z := ordinal d.

(** [d.replace(hour=h, minute=m)] *)
Definition replace_hour_minute (d : datetime) (h m : Z) : datetime :=
  {| ordinal := ordinal d; hour := h; minute := m;
     second := second d; microsecond := microsecond d |}.

(** [d.replace(minute=m)] *)
Definition replace_minute (d : datetime) (m : Z) : datetime :=
  {| ordinal := ordinal d; hour := hour d; minute := m;
     second := second d; microsecond := microsecond d |}.

(** [d.replace(second=0, microsecond=0)] *)
Definition replace_second_microsecond (d : datetime) (s u : Z) : datetime :=
  {| ordinal := ordinal d; hour := hour d; minute := minute d;
     second := s; microsecond := u |}.

(** [d.replace(minute=0, second=0, microsecond=0)] *)
Definition replace_minute_second_microsecond (d : datetime) (m s u : Z)
  : datetime :=
  {| ordinal := ordinal d; hour := hour d; minute := m;
     second := s; microsecond := u |}.

(** [d + delta] *)
Definition add (d : datetime) (delta : timedelta) : datetime :=
  of_us (to_us d + delta).

(** [a - b] *)
Definition sub (a b : datetime) : timedelta := to_us a - to_us b.

(** [a < b] and [a <= b]. Python compares the fields in order; on the
    values the constructor accepts that is the order of the positions. *)
Definition ltb (a b : datetime) : bool := to_us a <? to_us b.
Definition leb (a b : datetime) : bool := to_us a <=? to_us b.

(** [delta.total_seconds()] *)
Definition total_seconds (delta : timedelta) : Q :=
  inject_Z delta / inject_Z US_PER_SECOND.

(** Nearest integer, ties to even. *)
Definition round_half_even (q : Q) : Z :=
  let f := Qfloor q in
  match Qcompare (q - inject_Z f) (1 # 2) with
  | Lt => f
  | Gt => f + 1
  | Eq => if Z.even f then f else f + 1
  end.

(** [timedelta(minutes=m)] for an int [m], given as a rational. *)
Definition timedelta_minutes (m : Q) : timedelta :=
  round_half_even (m * inject_Z US_PER_MINUTE).

(** [timedelta(days=n)] *)
Definition timedelta_days (n : Z) : timedelta := n * US_PER_DAY.

End Datetime.

Import Datetime.

(** Python's [a < b] and [a <= b] on numbers that may be floats. *)
Definition Qltb (a b : Q) : bool := negb (Qle_bool b a).
Definition Qleb (a b : Q) : bool := Qle_bool a b.

(** ** Python's float

    The binary64 format: 53 bits of significand, exponents down to the
    subnormal range. The numbers of this program stay far below the
    overflow threshold [2 ^ 1024], so the infinities are left out. *)

Definition pow2 (e : Z) : Q := (2 ^ e)%Q.

(** The binary exponent of [x], for [x] other than zero:
    [2 ^ ilog2 x <= |x| < 2 ^ (ilog2 x + 1)]. *)
Definition ilog2 (x : Q) : Z :=
  let c := Z.log2 (Z.abs (Qnum x)) - Z.log2 (Zpos (Qden x)) in
  if Qle_bool (pow2 c) (Qabs x) then c else c - 1.

(** The float nearest to [x], ties to the even significand: what an
    operation on floats returns for the exact result [x]. *)
Definition fl (x : Q) : Q :=
  if Qeq_bool x 0 then 0%Q
  else
    let e := Z.max (ilog2 x - 52) (-1074) in
    (inject_Z (round_half_even (x / pow2 e)) * pow2 e)%Q.

(** A number that is an [int] or a [float]. *)
Inductive number : Type :=
  | Int (n : Z)
  | Float (x : Q).

(** [math.trunc]: the integer part, towards zero. *)
Definition trunc (x : Q) : Z :=
  if Qle_bool 0 x then Qfloor x else Qceiling x.

(** [timedelta(minutes=x)] for a float [x], as CPython's [datetime] has it:
    the integer part of [x] is turned to microseconds exactly, the
    fractional part is multiplied by [60 * 10**6] in floats, and the sum is
    rounded to the nearest microsecond, ties to even. *)
Definition timedelta_minutes_float (x : Q) : timedelta :=
  let intpart := trunc x in
  let fracpart := (x - inject_Z intpart)%Q in
  round_half_even
    (inject_Z (intpart * US_PER_MINUTE)
     + fl (inject_Z US_PER_MINUTE * fracpart))%Q.

(** [delta.total_seconds() / 60]: the true division of the microseconds by
    [10**6], then the division by 60, each one rounded. *)
Definition float_minutes (delta : timedelta) : Q :=
  fl (fl (total_seconds delta) / inject_Z 60).

(** [timedelta(minutes=interval * i)] for an int [i]: the product of two
    ints is exact, the product of a float and an int is rounded. *)
Definition timedelta_minutes_times (interval : number) (i : Z) : timedelta :=
  match interval with
  | Int m => timedelta_minutes (inject_Z (m * i))
  | Float x => timedelta_minutes_float (fl (x * fl (inject_Z i)))
  end.

(** ** config.py *)

Definition POST_STATUS_DRAFT : string := "draft".
Definition POST_STATUS_SCHEDULED : string := "scheduled".
Definition POST_STATUS_PUBLISHED : string := "published".
Definition POST_STATUS_ERROR : string := "error".

Definition POSTING_START_HOUR : Z := 8.
Definition POSTING_END_HOUR : Z := 23.
(* DEFAULT_SETTINGS['min_post_interval'], minutes *)
Definition min_post_interval : Z := 30.

(** ** Python string operations used by the sources *)

Local Open Scope string_scope.
Local Open Scope Z_scope.

(** [s.endswith(suffix)] *)
Fixpoint endswith (s suffix : string) : bool :=
  String.eqb s suffix
  || match s with
     | EmptyString => false
     | String _ rest => endswith rest suffix
     end.

(** [s[:-1]] *)
Fixpoint drop_last (s : string) : string :=
  match s with
  | EmptyString => EmptyString
  | String _ EmptyString => EmptyString
  | String c rest => String c (drop_last rest)
  end.

(** [needle in s] *)
Fixpoint contains (needle s : string) : bool :=
  String.prefix needle s
  || match s with
     | EmptyString => false
     | String _ rest => contains needle rest
     end.

(** [s.lower()], on the ASCII letters. *)
Definition lower_ascii (c : ascii) : ascii :=
  let n := nat_of_ascii c in
  if (65 <=? n)%nat && (n <=? 90)%nat then ascii_of_nat (n + 32) else c.

Fixpoint lower (s : string) : string :=
  match s with
  | EmptyString => EmptyString
  | String c rest => String (lower_ascii c) (lower rest)
  end.

(** The class [\d], on the ASCII digits. *)
Definition is_digit (c : ascii) : bool :=
  let n := nat_of_ascii c in (48 <=? n)%nat && (n <=? 57)%nat.

Definition newline : string := String (ascii_of_nat 10) EmptyString.

(** [re.sub(r'\.\d{3}$', '', s)]: the pattern is anchored at the end of
    the string, or just before a final newline. *)
Fixpoint re_sub_millis (s : string) : string :=
  match s with
  | EmptyString => EmptyString
  | String c rest =>
      match rest with
      | String d1 (String d2 (String d3 tail)) =>
          if Ascii.eqb c "." && is_digit d1 && is_digit d2 && is_digit d3
             && (String.eqb tail "" || String.eqb tail newline)
          then tail
          else String c (re_sub_millis rest)
      | _ => String c (re_sub_millis rest)
      end
  end.

(** ** utils/datetime_helper.py *)

(** What [datetime.fromisoformat] and [datetime.strptime] can return: a
    naive datetime, or an aware one (with its UTC offset). *)
Inductive pydatetime : Type :=
  | Naive (d : datetime)
  | Aware (d : datetime) (utcoffset : timedelta).

(** The exceptions the modelled code raises. *)
Inductive exception : Type :=
  | ValueError (message : string)
  | ZeroDivisionError.

(** A call that returns a value or raises. *)
Inductive raising (A : Type) : Type :=
  | Returns (a : A)
  | Raises (e : exception).
Arguments Returns {A} a.
Arguments Raises {A} e.

Section DatetimeHelper.

(** The standard library's parsers; [None] is a [ValueError]. *)
Variable fromisoformat : string -> option pydatetime.
Variable strptime : string -> string -> option pydatetime.

Definition formats_to_try : list (option string) :=
  [ None; Some "%Y-%m-%dT%H:%M"; Some "%Y-%m-%dT%H:%M:%S";
    Some "%Y-%m-%dT%H:%M:%S.%f" ].

Fixpoint try_formats (iso_string : string) (fmts : list (option string))
  : option pydatetime :=
  match fmts with
  | [] => None
  | fmt :: rest =>
      let attempt :=
        match fmt with
        | None => fromisoformat iso_string
        | Some f => strptime iso_string f
        end in
      match attempt with
      | Some d => Some d
      | None => try_formats iso_string rest
      end
  end.

Definition parse_iso_datetime (iso_string : string) : raising pydatetime :=
  if String.eqb iso_string ""
  then Raises (ValueError "ISO string is empty")
  else
    let iso_string :=
      if endswith iso_string "Z" then drop_last iso_string else iso_string in
    let iso_string := re_sub_millis iso_string in
    match try_formats iso_string formats_to_try with
    | Some d => Returns d
    | None =>
        Raises (ValueError ("Не удалось распарсить время: " ++ iso_string))
    end.

End DatetimeHelper.

(** ** modules/post_manager.py *)

(** The dictionary written to [<id>.json]. *)
Record Post : Type := mk_post {
  post_id : string;
  post_account_id : string;
  post_text : string;
  post_media : list string;
  post_format : string;
  post_status : string;
  post_scheduled_time : option string;
  post_created_at : string;
  post_published_at : option string;
  post_error : option string
}.

Definition set_status (p : Post) (v : string) : Post :=
  mk_post (post_id p) (post_account_id p) (post_text p) (post_media p)
    (post_format p) v (post_scheduled_time p) (post_created_at p)
    (post_published_at p) (post_error p).

Definition set_scheduled_time (p : Post) (v : option string) : Post :=
  mk_post (post_id p) (post_account_id p) (post_text p) (post_media p)
    (post_format p) (post_status p) v (post_created_at p)
    (post_published_at p) (post_error p).

Definition set_published_at (p : Post) (v : option string) : Post :=
  mk_post (post_id p) (post_account_id p) (post_text p) (post_media p)
    (post_format p) (post_status p) (post_scheduled_time p) (post_created_at p)
    v (post_error p).

Definition set_error (p : Post) (v : option string) : Post :=
  mk_post (post_id p) (post_account_id p) (post_text p) (post_media p)
    (post_format p) (post_status p) (post_scheduled_time p) (post_created_at p)
    (post_published_at p) v.

(** The [updates] dictionary of [update_post]: the keys it holds. *)
Record Updates : Type := mk_updates {
  upd_id : option string;
  upd_account_id : option string;
  upd_text : option string;
  upd_media : option (list string);
  upd_format : option string;
  upd_status : option string;
  upd_scheduled_time : option (option string);
  upd_created_at : option string;
  upd_published_at : option (option string);
  upd_error : option (option string)
}.

(** [post.update(updates)] *)
Definition dict_update (p : Post) (u : Updates) : Post :=
  mk_post (default (post_id p) (upd_id u))
    (default (post_account_id p) (upd_account_id u))
    (default (post_text p) (upd_text u))
    (default (post_media p) (upd_media u))
    (default (post_format p) (upd_format u))
    (default (post_status p) (upd_status u))
    (default (post_scheduled_time p) (upd_scheduled_time u))
    (default (post_created_at p) (upd_created_at u))
    (default (post_published_at p) (upd_published_at u))
    (default (post_error p) (upd_error u)).

Inductive StatusDir : Type := DRAFTS_DIR | SCHEDULED_DIR | PUBLISHED_DIR.

#[global] Instance StatusDir_eq_dec : EqDecision StatusDir.
Proof. solve_decision. Defined.

(** The three status directories. *)
Record Store : Type := mk_store {
  drafts : gmap string Post;
  scheduled : gmap string Post;
  published : gmap string Post
}.

Definition empty_store : Store := mk_store ∅ ∅ ∅.

Definition dir (st : Store) (d : StatusDir) : gmap string Post :=
  match d with
  | DRAFTS_DIR => drafts st
  | SCHEDULED_DIR => scheduled st
  | PUBLISHED_DIR => published st
  end.

Definition with_dir (st : Store) (d : StatusDir) (m : gmap string Post)
  : Store :=
  match d with
  | DRAFTS_DIR => mk_store m (scheduled st) (published st)
  | SCHEDULED_DIR => mk_store (drafts st) m (published st)
  | PUBLISHED_DIR => mk_store (drafts st) (scheduled st) m
  end.

Definition _get_status_dir (status : string) : StatusDir :=
  if String.eqb status POST_STATUS_DRAFT then DRAFTS_DIR
  else if String.eqb status POST_STATUS_SCHEDULED then SCHEDULED_DIR
  else if String.eqb status POST_STATUS_PUBLISHED then PUBLISHED_DIR
  else DRAFTS_DIR.

Definition _save_post (st : Store) (post : Post) : Store :=
  let status_dir := _get_status_dir (post_status post) in
  with_dir st status_dir (<[post_id post := post]> (dir st status_dir)).

Definition _delete_post_file (st : Store) (pid : string) (status : string)
  : Store :=
  let status_dir := _get_status_dir status in
  with_dir st status_dir (delete pid (dir st status_dir)).

(** Searches [drafts/], then [scheduled/], then [published/]. *)
Definition get_post (st : Store) (pid : string) : option Post :=
  match drafts st !! pid with
  | Some p => Some p
  | None =>
      match scheduled st !! pid with
      | Some p => Some p
      | None => published st !! pid
      end
  end.

Section PostManager.

(** [datetime.isoformat] *)
Variable isoformat : datetime -> string.

(** [new_id] is the value of [str(uuid.uuid4())]. *)
Definition create_post (st : Store) (now : datetime) (new_id : string)
    (account_id text : string) (media : list string)
    (post_format status : string) : Store * Post :=
  let post_data :=
    mk_post new_id account_id text media post_format status None
      (isoformat now) None None in
  (_save_post st post_data, post_data).

Definition update_post (st : Store) (pid : string) (updates : Updates)
  : Store * option Post :=
  match get_post st pid with
  | None => (st, None)
  | Some post =>
      let old_status := post_status post in
      let post := dict_update post updates in
      let new_status := post_status post in
      let st :=
        if negb (String.eqb old_status new_status)
        then _delete_post_file st pid old_status else st in
      (_save_post st post, Some post)
  end.

Definition schedule_post (st : Store) (pid : string)
    (scheduled_time : string) : Store * option Post :=
  match get_post st pid with
  | None => (st, None)
  | Some post =>
      let st :=
        if String.eqb (post_status post) POST_STATUS_DRAFT
        then _delete_post_file st pid POST_STATUS_DRAFT else st in
      let post := set_status post POST_STATUS_SCHEDULED in
      let post := set_scheduled_time post (Some scheduled_time) in
      (_save_post st post, Some post)
  end.

Definition publish_post (st : Store) (now : datetime) (pid : string)
  : Store * option Post :=
  match get_post st pid with
  | None => (st, None)
  | Some post =>
      let st :=
        if String.eqb (post_status post) POST_STATUS_SCHEDULED
        then _delete_post_file st pid POST_STATUS_SCHEDULED else st in
      let post := set_status post POST_STATUS_PUBLISHED in
      let post := set_published_at post (Some (isoformat now)) in
      (_save_post st post, Some post)
  end.

Definition mark_post_error (st : Store) (pid : string) (err : string)
  : Store * option Post :=
  match get_post st pid with
  | None => (st, None)
  | Some post =>
      let post := set_status post POST_STATUS_ERROR in
      let post := set_error post (Some err) in
      (_save_post st post, Some post)
  end.

Definition delete_post (st : Store) (pid : string) : Store :=
  match get_post st pid with
  | None => st
  | Some post => _delete_post_file st pid (post_status post)
  end.

End PostManager.

(** [posts.sort(key=lambda x: x.get('created_at', ''), reverse=True)]:
    descending, equal keys keep their order. *)
Fixpoint insert_by_created_at (x : Post) (l : list Post) : list Post :=
  match l with
  | [] => [x]
  | y :: rest =>
      if String.ltb (post_created_at x) (post_created_at y)
      then y :: insert_by_created_at x rest
      else x :: y :: rest
  end.

Definition sort_by_created_at (l : list Post) : list Post :=
  foldr insert_by_created_at [] l.

(** [status_dir.glob('*.json')], each file loaded. *)
Definition glob (m : gmap string Post) : list Post := (map_to_list m).*2.

Definition get_all_posts (st : Store) (status : option string) : list Post :=
  let dirs_to_search :=
    match status with
    | Some s =>
        if String.eqb s "" then [DRAFTS_DIR; SCHEDULED_DIR; PUBLISHED_DIR]
        else [_get_status_dir s]
    | None => [DRAFTS_DIR; SCHEDULED_DIR; PUBLISHED_DIR]
    end in
  sort_by_created_at (flat_map (fun d => glob (dir st d)) dirs_to_search).

Definition get_scheduled_posts (st : Store) : list Post :=
  get_all_posts st (Some POST_STATUS_SCHEDULED).

(** ** modules/scheduler.py *)

Record ScheduleEntry : Type := mk_entry {
  entry_post_id : string;
  entry_scheduled_time : string;
  entry_status : string
}.

(** [PostScheduler.schedule]: account id to its entries. *)
Abbreviation Schedule := (gmap string (list ScheduleEntry)).

(** [range(n)] *)
Definition range (n : Z) : list Z := map Z.of_nat (seq 0 (Z.to_nat n)).

(** The body of [for i in range(posts_count)] in [_distribute_posts_in_day]. *)
Fixpoint collect_times (now start_time : datetime) (interval : number)
    (indices : list Z) : list datetime :=
  match indices with
  | [] => []
  | i :: rest =>
      let scheduled_time :=
        add start_time (timedelta_minutes_times interval i) in
      if POSTING_END_HOUR <=? hour scheduled_time then []
      else if leb scheduled_time now
           then collect_times now start_time interval rest
           else scheduled_time :: collect_times now start_time interval rest
  end.

(** [total_minutes] is a float, [required_minutes] an int, [interval] the
    float [total_minutes / posts_count] or, raised to the minimum, the int
    [min_interval]. *)
Definition _distribute_posts_in_day (now start_date : datetime)
    (posts_count : Z) : raising (list datetime) :=
  let start_time := replace_hour_minute start_date POSTING_START_HOUR 0 in
  let end_time := replace_hour_minute start_date POSTING_END_HOUR 0 in
  let start_time :=
    if (date start_time =? date now) && ltb start_time now then
      let start_time :=
        add now (timedelta_minutes (inject_Z min_post_interval)) in
      let start_time := replace_second_microsecond start_time 0 0 in
      let minute := (minute start_time / 5) * 5 in
      replace_minute start_time minute
    else start_time in
  let total_minutes := float_minutes (sub end_time start_time) in
  let min_interval := min_post_interval in
  let required_minutes := posts_count * min_interval in
  let '(start_time, total_minutes) :=
    if Qltb total_minutes (inject_Z required_minutes) then
      let start_time :=
        replace_hour_minute (add start_time (timedelta_days 1))
          POSTING_START_HOUR 0 in
      let end_time := replace_hour_minute start_time POSTING_END_HOUR 0 in
      (start_time, float_minutes (sub end_time start_time))
    else (start_time, total_minutes) in
  if posts_count =? 0 then Raises ZeroDivisionError
  else
    let interval := fl (total_minutes / fl (inject_Z posts_count)) in
    let interval :=
      if Qltb interval (inject_Z min_interval) then Int min_interval
      else Float interval in
    Returns (collect_times now start_time interval (range posts_count)).

(** What [schedule_posts_for_account] and the publish loop work on: the
    post store and [post_scheduler.schedule]. *)
Record World : Type := mk_world {
  posts : Store;
  schedule : Schedule
}.

(** [remove_from_schedule] *)
Definition remove_from_schedule (sch : Schedule) (pid : string) : Schedule :=
  (fun items =>
     filter (fun item => entry_post_id item ≠ pid) items) <$> sch.

(** [mark_as_published] *)
Definition mark_as_published (sch : Schedule) (pid : string) : Schedule :=
  (fun items =>
     map (fun item =>
            if String.eqb (entry_post_id item) pid
            then mk_entry (entry_post_id item) (entry_scheduled_time item)
                   "published"
            else item) items) <$> sch.

(** The variables of the [while] loop of [schedule_posts_for_account]. *)
Record Assignment : Type := mk_assignment {
  a_world : World;
  a_scheduled_posts : list Post;
  a_post_index : nat
}.

Section PostScheduler.

Variable isoformat : datetime -> string.

(** One round of [for scheduled_time in scheduled_times]. *)
Definition assign_slot (account_id : string) (post_ids : list string)
    (a : Assignment) (scheduled_time : datetime) : Assignment :=
  match post_ids !! a_post_index a with
  | None => a
  | Some pid =>
      let w := a_world a in
      let '(st, post) :=
        schedule_post (posts w) pid (isoformat scheduled_time) in
      match post with
      | Some post =>
          let items := default [] (schedule w !! account_id) in
          let entry := mk_entry pid (isoformat scheduled_time) "scheduled" in
          mk_assignment
            (mk_world st (<[account_id := (items ++ [entry])%list]> (schedule w)))
            (a_scheduled_posts a ++ [post])%list
            (S (a_post_index a))
      | None =>
          mk_assignment (mk_world st (schedule w)) (a_scheduled_posts a)
            (S (a_post_index a))
      end
  end.

(** [for scheduled_time in scheduled_times], with its [break]. *)
Fixpoint assign_slots (account_id : string) (post_ids : list string)
    (a : Assignment) (scheduled_times : list datetime) : Assignment :=
  match scheduled_times with
  | [] => a
  | scheduled_time :: rest =>
      if (length post_ids <=? a_post_index a)%nat then a
      else assign_slots account_id post_ids
             (assign_slot account_id post_ids a scheduled_time) rest
  end.

(** The [while post_index < total_posts] loop; [now_in_day d] is the clock
    read by the call of [_distribute_posts_in_day] for day [d]. [None]
    when the fuel runs out before the loop ends. *)
Fixpoint schedule_loop (fuel : nat) (now_in_day : Z -> datetime)
    (account_id : string) (post_ids : list string) (posts_per_day : Z)
    (start_time : datetime) (current_day : Z) (a : Assignment)
  : option (raising Assignment) :=
  match fuel with
  | O => None
  | S fuel =>
      let total_posts := Z.of_nat (length post_ids) in
      let post_index := Z.of_nat (a_post_index a) in
      if post_index <? total_posts then
        let posts_today := Z.min posts_per_day (total_posts - post_index) in
        match _distribute_posts_in_day (now_in_day current_day)
                (add start_time (timedelta_days current_day)) posts_today
        with
        | Raises e => Some (Raises e)
        | Returns scheduled_times =>
            schedule_loop fuel now_in_day account_id post_ids posts_per_day
              start_time (current_day + 1)
              (assign_slots account_id post_ids a scheduled_times)
        end
      else Some (Returns a)
  end.

(** Where the first day starts: [start_date] rounded to the hour, not
    before [now], then moved into the posting hours. *)
Definition campaign_start (now start_date : datetime) : datetime :=
  let start_time := replace_minute_second_microsecond start_date 0 0 0 in
  let start_time := if ltb start_time now then now else start_time in
  if hour start_time <? POSTING_START_HOUR then
    replace_hour_minute start_time POSTING_START_HOUR 0
  else if POSTING_END_HOUR <=? hour start_time then
    replace_hour_minute (add start_time (timedelta_days 1))
      POSTING_START_HOUR 0
  else add start_time (timedelta_minutes (inject_Z min_post_interval)).

(** [now0] is the clock read for a missing [start_date], [now] the one
    read next. Returns the world and the list [scheduled_posts]. *)
Definition schedule_posts_for_account (fuel : nat)
    (now0 now : datetime) (now_in_day : Z -> datetime) (w : World)
    (account_id : string) (post_ids : list string) (posts_per_day : Z)
    (start_date : option datetime) : option (raising (World * list Post)) :=
  let start_date := default now0 start_date in
  let start_time := campaign_start now start_date in
  (* days_needed = (total_posts + posts_per_day - 1) // posts_per_day *)
  if posts_per_day =? 0 then Some (Raises ZeroDivisionError)
  else
    match schedule_loop fuel now_in_day account_id post_ids posts_per_day
            start_time 0 (mk_assignment w [] O) with
    | None => None
    | Some (Raises e) => Some (Raises e)
    | Some (Returns a) => Some (Returns (a_world a, a_scheduled_posts a))
    end.

End PostScheduler.

(** ** background_publisher.py *)

(** The two lists the first loop of [_check_and_publish] fills. *)
Record Scan : Type := mk_scan {
  posts_to_publish : list (Post * datetime);
  posts_to_move_to_drafts : list string
}.

(** How the [try] block of [_publish_post] ended: the upload went through,
    or an exception [e] was raised before it, with [str(e) = error_msg].
    The account lookup, the limits, the media files and the upload belong to
    the collaborators; their outcome is an input of the model. *)
Inductive attempt : Type :=
  | Uploaded
  | Failed (error_msg : string).

Definition missed_note : string :=
  "Пропущена запланированная публикация (сервер был выключен)".

(** The test of the [except] branch of [_publish_post]. *)
Definition too_early (error_msg : string) : bool :=
  contains "Слишком рано" error_msg || contains "wait" (lower error_msg).

Section BackgroundPublisher.

Variable isoformat : datetime -> string.
Variable fromisoformat : string -> option pydatetime.
Variable strptime : string -> string -> option pydatetime.

(** [(now - scheduled_time).total_seconds()]; an aware [scheduled_time]
    makes the subtraction raise [TypeError]. *)
Definition time_diff_of (now : datetime) (scheduled_time : string)
  : option (datetime * Q) :=
  match parse_iso_datetime fromisoformat strptime scheduled_time with
  | Returns (Naive t) => Some (t, total_seconds (sub now t))
  | Returns (Aware _ _) => None
  | Raises _ => None
  end.

(** The body of [for post in scheduled_posts]. *)
Definition scan_post (now : datetime) (acc : Scan) (post : Post) : Scan :=
  let pid := post_id post in
  match post_scheduled_time post with
  | None => acc
  | Some s =>
      if String.eqb s "" then acc
      else
        match time_diff_of now s with
        | None => acc
        | Some (scheduled_time, time_diff) =>
            if Qltb 3600 time_diff then
              if bool_decide (pid ∈ posts_to_move_to_drafts acc) then acc
              else mk_scan (posts_to_publish acc)
                     (posts_to_move_to_drafts acc ++ [pid])%list
            else if Qleb (-120) time_diff && Qleb time_diff 600 then
              mk_scan (posts_to_publish acc ++ [(post, scheduled_time)])%list
                (posts_to_move_to_drafts acc)
            else if Qltb time_diff (-120) then acc
            else
              mk_scan (posts_to_publish acc ++ [(post, scheduled_time)])%list
                (posts_to_move_to_drafts acc)
        end
  end.

(** The body of [for post_id in posts_to_move_to_drafts]. *)
Definition move_to_drafts (w : World) (pid : string) : World :=
  match get_post (posts w) pid with
  | None => w
  | Some post =>
      let st := _delete_post_file (posts w) pid POST_STATUS_SCHEDULED in
      let post := set_status post POST_STATUS_DRAFT in
      let post := set_scheduled_time post None in
      let post := set_error post (Some missed_note) in
      let st := _save_post st post in
      mk_world st (remove_from_schedule (schedule w) pid)
  end.

Definition _publish_post (w : World) (now : datetime) (post : Post)
    (outcome : attempt) : World :=
  let pid := post_id post in
  match outcome with
  | Uploaded =>
      let st := (publish_post isoformat (posts w) now pid).1 in
      mk_world st (mark_as_published (schedule w) pid)
  | Failed error_msg =>
      if too_early error_msg then w
      else mk_world (mark_post_error (posts w) pid error_msg).1 (schedule w)
  end.

(** One tick. [now] is the clock read at its start, [now_at_publish p] the
    one read when [p] is marked published, [outcome w p] how the attempt
    for [p] ends in world [w]. *)
Definition _check_and_publish (now : datetime)
    (now_at_publish : Post -> datetime) (outcome : World -> Post -> attempt)
    (w : World) : World :=
  let scheduled_posts := get_scheduled_posts (posts w) in
  match scheduled_posts with
  | [] => w
  | _ =>
      let scan := foldl (scan_post now) (mk_scan [] []) scheduled_posts in
      let w := foldl move_to_drafts w (posts_to_move_to_drafts scan) in
      foldl (fun w '(post, _) =>
               _publish_post w (now_at_publish post) post (outcome w post))
        w (posts_to_publish scan)
  end.

End BackgroundPublisher.

(** ** The standard library's calendar, printer and parser

    [isoformat] prints what Python prints. The parsers cover the strings
    the application itself writes and receives: a date, [T], hours and
    minutes, optional seconds, optional six-digit fraction; they return
    naive datetimes. They are the instance the examples are run on; the
    properties below hold for any parser. *)

Module Iso.

Definition is_leap (year : Z) : bool :=
  (year mod 4 =? 0) && (negb (year mod 100 =? 0) || (year mod 400 =? 0)).

Definition days_before_year (year : Z) : Z :=
  let y := year - 1 in y * 365 + y / 4 - y / 100 + y / 400.

Definition days_in_month (year month : Z) : Z :=
  if (month =? 2) && is_leap year then 29
  else nth (Z.to_nat month) [0; 31; 28; 31; 30; 31; 30; 31; 31; 30; 31; 30; 31] 0.

Definition days_before_month (year month : Z) : Z :=
  nth (Z.to_nat month)
    [0; 0; 31; 59; 90; 120; 151; 181; 212; 243; 273; 304; 334] 0
  + (if (2 <? month) && is_leap year then 1 else 0).

Definition ymd2ord (year month day : Z) : Z :=
  days_before_year year + days_before_month year month + day.

Definition ord2ymd (n : Z) : Z * Z * Z :=
  let n := n - 1 in
  let n400 := n / 146097 in
  let n := n mod 146097 in
  let year := n400 * 400 + 1 in
  let n100 := n / 36524 in
  let n := n mod 36524 in
  let n4 := n / 1461 in
  let n := n mod 1461 in
  let n1 := n / 365 in
  let n := n mod 365 in
  let year := year + n100 * 100 + n4 * 4 + n1 in
  if (n1 =? 4) || (n100 =? 4) then (year - 1, 12, 31)
  else
    let leapyear := (n1 =? 3) && (negb (n4 =? 24) || (n100 =? 3)) in
    let month := Z.shiftr (n + 50) 5 in
    let preceding :=
      days_before_month 1 month
      + (if (2 <? month) && leapyear then 1 else 0) in
    let '(month, preceding) :=
      if n <? preceding then
        (month - 1,
         preceding
         - (days_in_month 1 (month - 1)
            + (if (month - 1 =? 2) && leapyear then 1 else 0)))
      else (month, preceding) in
    (year, month, n - preceding + 1).

Definition digit (n : Z) : ascii := ascii_of_nat (48 + Z.to_nat (n mod 10)).

(** [n] in [width] decimal digits, zero padded. *)
Fixpoint zfill (width : nat) (n : Z) : string :=
  match width with
  | O => EmptyString
  | S w => (zfill w (n / 10) ++ String (digit n) EmptyString)%string
  end.

Definition isoformat (d : datetime) : string :=
  let '(y, m, dd) := ord2ymd (ordinal d) in
  let fraction : string :=
    if microsecond d =? 0 then ""
    else ("." ++ zfill 6 (microsecond d))%string in
  (zfill 4 y ++ "-" ++ zfill 2 m ++ "-" ++ zfill 2 dd ++ "T"
   ++ zfill 2 (hour d) ++ ":" ++ zfill 2 (minute d) ++ ":"
   ++ zfill 2 (second d) ++ fraction)%string.

(** Reads exactly [width] digits. *)
Fixpoint digits (width : nat) (acc : Z) (s : string) : option (Z * string) :=
  match width with
  | O => Some (acc, s)
  | S w =>
      match s with
      | String c rest =>
          if is_digit c
          then digits w (acc * 10 + Z.of_nat (nat_of_ascii c) - 48) rest
          else None
      | EmptyString => None
      end
  end.

Definition expect (c : ascii) (s : string) : option string :=
  match s with
  | String c' rest => if Ascii.eqb c c' then Some rest else None
  | EmptyString => None
  end.

Definition make_datetime (y m d hh mm ss us : Z) : option pydatetime :=
  if (1 <=? y) && (1 <=? m) && (m <=? 12) && (1 <=? d)
     && (d <=? days_in_month y m) && (hh <? 24) && (mm <? 60) && (ss <? 60)
  then Some (Naive (mk_datetime (ymd2ord y m d) hh mm ss us))
  else None.

(** The seconds and the fraction, when present. *)
Definition seconds_part (s : string) : option (Z * Z) :=
  match s with
  | EmptyString => Some (0, 0)
  | _ =>
      rest ← expect ":" s;
      '(ss, rest) ← digits 2 0 rest;
      match rest with
      | EmptyString => Some (ss, 0)
      | _ =>
          rest ← expect "." rest;
          '(us, rest) ← digits 6 0 rest;
          if String.eqb rest "" then Some (ss, us) else None
      end
  end.

Definition fromisoformat (s : string) : option pydatetime :=
  '(y, s) ← digits 4 0 s;
  s ← expect "-" s;
  '(m, s) ← digits 2 0 s;
  s ← expect "-" s;
  '(d, s) ← digits 2 0 s;
  s ← expect "T" s;
  '(hh, s) ← digits 2 0 s;
  s ← expect ":" s;
  '(mm, s) ← digits 2 0 s;
  '(ss, us) ← seconds_part s;
  make_datetime y m d hh mm ss us.

(** The same strings, by format. *)
Definition strptime (s fmt : string) : option pydatetime :=
  let n := String.length s in
  if String.eqb fmt "%Y-%m-%dT%H:%M" && (n =? 16)%nat
     || String.eqb fmt "%Y-%m-%dT%H:%M:%S" && (n =? 19)%nat
     || String.eqb fmt "%Y-%m-%dT%H:%M:%S.%f" && (n =? 26)%nat
  then fromisoformat s
  else None.

End Iso.


(** ** modules/post_manager.py: listing by account *)

Definition get_posts_by_account (st : Store) (account_id : string)
    (status : option string) : list Post :=
  let dirs_to_search :=
    match status with
    | Some s =>
        if String.eqb s "" then [DRAFTS_DIR; SCHEDULED_DIR; PUBLISHED_DIR]
        else [_get_status_dir s]
    | None => [DRAFTS_DIR; SCHEDULED_DIR; PUBLISHED_DIR]
    end in
  sort_by_created_at
    (filter (fun post => post_account_id post = account_id)
       (flat_map (fun d => glob (dir st d)) dirs_to_search)).

(** ** modules/scheduler.py: the calendar of an account *)

Definition get_scheduled_posts_for_account (sch : Schedule)
    (account_id : string) : list ScheduleEntry :=
  default [] (sch !! account_id).

(** ** utils/rate_limiter.py *)

Record GeminiRateLimiter : Type := mk_limiter {
  min_interval : Q;                       (* seconds *)
  last_request_time : option datetime;
  request_count : Z;
  reset_time : datetime
}.

(** [GeminiRateLimiter(min_interval)], built when the clock reads [now]. *)
Definition new_limiter (min_interval : Q) (now : datetime)
  : GeminiRateLimiter :=
  mk_limiter min_interval None 0 (add now (timedelta_minutes 1)).

(** The argument of [time.sleep] in [wait_if_needed], when it sleeps. *)
Definition wait_time (l : GeminiRateLimiter) (now : datetime) : option Q :=
  match last_request_time l with
  | Some last =>
      let elapsed := total_seconds (sub now last) in
      if Qltb elapsed (min_interval l)
      then Some (min_interval l - elapsed)%Q
      else None
  | None => None
  end.

(** [wait_if_needed]: [now] is the clock read on entry, [now_after] the one
    read after the sleep, if any. *)
Definition wait_if_needed (l : GeminiRateLimiter) (now now_after : datetime)
  : GeminiRateLimiter :=
  let '(count, reset) :=
    if leb (reset_time l) now
    then (0, add now (timedelta_minutes 1))
    else (request_count l, reset_time l) in
  mk_limiter (min_interval l) (Some now_after) (count + 1) reset.

(** [get_stats] *)
Definition get_stats (isoformat : datetime -> string) (l : GeminiRateLimiter)
  : Z * option string * string :=
  (request_count l, isoformat <$> last_request_time l,
   isoformat (reset_time l)).

(** ** app.py: the routes of a post *)

(** The exceptions a route catches besides those of the store: the body of
    the answer is [str(e)]. *)
Inductive route_exception : Type :=
  | AttributeError (type_name attribute : string)
  | TypeError_None_subscript.

Inductive response_body : Type :=
  | body_post (post : Post)
  | body_message (message : string)
  | body_error (error : string)
  | body_exception (e : route_exception).

(** [jsonify({'success': ..., ...}), code] *)
Record Response : Type := mk_response {
  status_code : Z;
  success : bool;
  body : response_body
}.

(** The truth value of [post.get('scheduled_time')]. *)
Definition truthy (s : option string) : bool :=
  match s with
  | Some s => negb (String.eqb s "")
  | None => false
  end.

(** [PUT /api/posts/<post_id>]. [PostScheduler] has no method
    [schedule_post]: the call raises [AttributeError], which the route
    catches like any exception. *)
Definition update_post_route (w : World) (post_id : string) (data : Updates)
  : World * Response :=
  match get_post (posts w) post_id with
  | None => (w, mk_response 404 false (body_error "Пост не найден"))
  | Some post =>
      if negb (String.eqb (post_status post) POST_STATUS_DRAFT
               || String.eqb (post_status post) POST_STATUS_SCHEDULED)
      then
        (w, mk_response 403 false
              (body_error
                 "Можно редактировать только черновики и запланированные посты"))
      else
        let '(st, updated_post) := update_post (posts w) post_id data in
        match updated_post with
        | None =>
            (mk_world st (schedule w),
             mk_response 400 false (body_exception TypeError_None_subscript))
        | Some updated_post =>
            if String.eqb (post_status updated_post) POST_STATUS_SCHEDULED
               && truthy (post_scheduled_time updated_post)
            then
              (mk_world st (schedule w),
               mk_response 400 false
                 (body_exception
                    (AttributeError "PostScheduler" "schedule_post")))
            else if String.eqb (post_status updated_post) POST_STATUS_DRAFT
            then
              (mk_world st (remove_from_schedule (schedule w) post_id),
               mk_response 200 true (body_post updated_post))
            else
              (mk_world st (schedule w),
               mk_response 200 true (body_post updated_post))
        end
  end.

(** [DELETE /api/posts/<post_id>] *)
Definition delete_post_route (w : World) (post_id : string)
  : World * Response :=
  (mk_world (delete_post (posts w) post_id)
     (remove_from_schedule (schedule w) post_id),
   mk_response 200 true (body_message "Пост удален")).

(** [POST /api/posts/<post_id>/publish-now]; [now] and [outcome] as in
    [_publish_post]. *)
Definition publish_now_route (isoformat : datetime -> string) (w : World)
    (now : datetime) (post_id : string) (outcome : attempt)
  : World * Response :=
  match get_post (posts w) post_id with
  | None => (w, mk_response 404 false (body_error "Пост не найден"))
  | Some post =>
      if String.eqb (post_status post) POST_STATUS_PUBLISHED
      then (w, mk_response 400 false (body_error "Пост уже опубликован"))
      else
        (_publish_post isoformat w now post outcome,
         mk_response 200 true (body_message "Пост успешно опубликован!"))
  end.

(** ** background_publisher.py: the limits and the attempt *)

(* DEFAULT_SETTINGS['max_posts_per_day'] *)
Definition max_posts_per_day : Z := 10.

(** How [_check_instagram_limits] ends: it returns, or raises an exception
    [e] with [str(e) = error_msg]. *)
Inductive check : Type :=
  | Passes
  | Fails (error_msg : string).

(** The key of [max(today_posts, key=...)]: [x.get('published_at', '')]. *)
Definition published_at_key (p : Post) : string :=
  default "" (post_published_at p).

(** [max(l, key=published_at_key)] for [l = best :: rest]: the first of
    the largest. *)
Fixpoint max_by_published_at (best : Post) (rest : list Post) : Post :=
  match rest with
  | [] => best
  | p :: rest =>
      max_by_published_at
        (if String.ltb (published_at_key best) (published_at_key p)
         then p else best) rest
  end.

Section Limits.

Variable fromisoformat : string -> option pydatetime.
(** [str(e)] for the [ValueError] of [fromisoformat] on a string, and for
    the [TypeError]s of comparing and of subtracting a naive and an aware
    datetime. *)
Variable isoformat_error : string -> string.
Variable compare_error : string.
Variable subtract_error : string.
(** [f"{x:.0f}"] *)
Variable format_0f : Q -> string.

(** The list comprehension [today_posts]; [inl] when an element raises. *)
Fixpoint today_posts (today_start : datetime) (published_posts : list Post)
  : string + list Post :=
  match published_posts with
  | [] => inr []
  | p :: rest =>
      if truthy (post_published_at p) then
        match fromisoformat (published_at_key p) with
        | None => inl (isoformat_error (published_at_key p))
        | Some (Aware _ _) => inl compare_error
        | Some (Naive d) =>
            match today_posts today_start rest with
            | inl e => inl e
            | inr l => inr (if leb today_start d then p :: l else l)
            end
        end
      else today_posts today_start rest
  end.

(** [_check_instagram_limits]: [now] is the clock read for [today_start],
    [now_at_interval] the one read for the interval. *)
Definition _check_instagram_limits (st : Store) (now now_at_interval : datetime)
    (account_id : string) : check :=
  let today_start := mk_datetime (ordinal now) 0 0 0 0 in
  let published_posts :=
    get_posts_by_account st account_id (Some POST_STATUS_PUBLISHED) in
  match today_posts today_start published_posts with
  | inl e => Fails e
  | inr today_posts =>
      if max_posts_per_day <=? Z.of_nat (length today_posts) then
        Fails "Превышен лимит: максимум 10 постов в день"
      else
        match today_posts with
        | [] => Passes
        | best :: rest =>
            let last_post := max_by_published_at best rest in
            match fromisoformat (published_at_key last_post) with
            | None => Fails (isoformat_error (published_at_key last_post))
            | Some (Aware _ _) => Fails subtract_error
            | Some (Naive last_time) =>
                let time_diff :=
                  (total_seconds (sub now_at_interval last_time)
                   / inject_Z 60)%Q in
                let min_interval := min_post_interval in
                if Qltb time_diff (inject_Z min_interval) then
                  Fails ("Слишком рано! Нужно подождать еще "
                         ++ format_0f (inject_Z min_interval - time_diff)
                         ++ " минут")
                else Passes
            end
        end
  end.

End Limits.

(** The calls [_publish_post] makes on the Instagram client. *)
Inductive upload_call : Type :=
  | video_upload (path caption : string)
  | photo_upload (path caption : string)
  | album_upload (paths : list string) (caption : string).

(** What [_publish_post] asks of the account manager, of the file system
    and of the client, at one attempt. *)
Record Collaborators : Type := mk_collaborators {
  (* account_manager.get_account(id)['username'], None for an unknown id *)
  get_account : string -> option string;
  (* whether account_manager.get_client(id) gives a client *)
  get_client : string -> bool;
  login_account : string -> bool;
  get_client_after_login : string -> bool;
  (* str(PHOTOS_DIR / filename), str(VIDEOS_DIR / filename), .exists() *)
  photo_path : string -> string;
  video_path : string -> string;
  photo_exists : string -> bool;
  video_exists : string -> bool;
  (* Path(p).suffix.lower() *)
  suffix_lower : string -> string;
  (* the upload: None when it returns, str(e) when it raises *)
  upload : upload_call -> option string
}.

(** The loop over [media_files]; [inl] when a file is not found. *)
Fixpoint find_media (c : Collaborators) (media_files : list string)
  : string + list string :=
  match media_files with
  | [] => inr []
  | filename :: rest =>
      let found :=
        if photo_exists c filename then inr (photo_path c filename)
        else if video_exists c filename then inr (video_path c filename)
        else inl ("Медиафайл не найден: " ++ filename) in
      match found with
      | inl e => inl e
      | inr path =>
          match find_media c rest with
          | inl e => inl e
          | inr paths => inr (path :: paths)
          end
      end
  end.

(** The call chosen for the media paths of a post. *)
Definition choose_upload (c : Collaborators) (post : Post)
    (media_paths : list string) : upload_call :=
  let caption := post_text post in
  match media_paths with
  | [path] =>
      if String.eqb (post_format post) "video" then
        let file_extension := suffix_lower c path in
        if bool_decide (file_extension ∈ [".mp4"; ".mov"; ".avi"])
        then video_upload path caption
        else photo_upload path caption
      else photo_upload path caption
  | _ => album_upload media_paths caption
  end.

Section Attempt.

Variable fromisoformat : string -> option pydatetime.
Variable isoformat_error : string -> string.
Variable compare_error : string.
Variable subtract_error : string.
Variable format_0f : Q -> string.

(** The [try] block of [_publish_post], up to the upload. *)
Definition publish_attempt (c : Collaborators) (st : Store)
    (now now_at_interval : datetime) (post : Post) : attempt :=
  let account_id := post_account_id post in
  match get_account c account_id with
  | None => Failed ("Аккаунт " ++ account_id ++ " не найден")
  | Some username =>
      let client :=
        if get_client c account_id then Passes
        else if login_account c account_id then
          if get_client_after_login c account_id then Passes
          else Fails ("Клиент для аккаунта @" ++ username
                      ++ " не инициализирован")
        else Fails ("Не удалось войти в аккаунт @" ++ username) in
      match client with
      | Fails e => Failed e
      | Passes =>
          match _check_instagram_limits fromisoformat isoformat_error
                  compare_error subtract_error format_0f st now
                  now_at_interval account_id with
          | Fails e => Failed e
          | Passes =>
              match post_media post with
              | [] => Failed "Нет медиафайлов для публикации"
              | media_files =>
                  match find_media c media_files with
                  | inl e => Failed e
                  | inr media_paths =>
                      match upload c (choose_upload c post media_paths) with
                      | None => Uploaded
                      | Some e => Failed e
                      end
                  end
              end
          end
      end
  end.

End Attempt.
(** ** Sample data *)

Local Open Scope list_scope.

(** 25 October 2025, 09:00:00. *)
Definition sample_now : datetime := mk_datetime 739549 9 0 0 0.

Definition sample_draft : Post :=
  mk_post "p1" "acc1" "caption" ["p1.jpg"] "photo" POST_STATUS_DRAFT None
    "2025-10-24T12:00:00" None None.

Definition sample_scheduled : Post :=
  mk_post "p1" "acc1" "caption" ["p1.jpg"] "photo" POST_STATUS_SCHEDULED
    (Some "2025-10-25T09:00:00") "2025-10-24T12:00:00" None None.

Definition store_with_draft : Store :=
  mk_store {[ "p1" := sample_draft ]} ∅ ∅.

Definition store_with_scheduled : Store :=
  mk_store ∅ {[ "p1" := sample_scheduled ]} ∅.

(** The update [{'status': 'error', 'error': 'boom'}]. *)
Definition update_to_error : Updates :=
  mk_updates None None None None None (Some POST_STATUS_ERROR) None None None
    (Some (Some "boom")).

(** The status directories that hold a file for [pid]. *)
Definition partitions_holding (st : Store) (pid : string) : list StatusDir :=
  filter (fun d => is_Some (dir st d !! pid))
    [DRAFTS_DIR; SCHEDULED_DIR; PUBLISHED_DIR].

(** [needle] occurs in [s]. *)
Definition occurs_in (needle s : string) : Prop :=
  ∃ a b : string, s = (a ++ needle ++ b)%string.

(** A failure message holds a timing marker: the text [Слишком рано], or
    [wait] in any letter case. *)
Definition timing_marker (error_msg : string) : Prop :=
  occurs_in "Слишком рано" error_msg ∨ occurs_in "wait" (lower error_msg).

(** Every file [<k>.json] holds a record whose id is [k]. *)
Definition keys_ok (st : Store) : Prop :=
  ∀ d k p, dir st d !! k = Some p → post_id p = k.

(** The classes of the publish loop, in the words of the specification:
    stale beyond one hour, due from two minutes early to one hour late,
    pending before that. *)
Inductive Classification : Type := STALE | DUE | PENDING.

Definition classify (time_diff : Q) : Classification :=
  if Qltb 3600 time_diff then STALE
  else if Qleb (-120) time_diff then DUE
  else PENDING.

(** The class of a scheduled post at [now], with its parsed time; [None]
    when the loop passes over the post (no time, or one it cannot use). *)
Definition verdict (fromisoformat : string -> option pydatetime)
    (strptime : string -> string -> option pydatetime)
    (now : datetime) (post : Post) : option (datetime * Classification) :=
  match post_scheduled_time post with
  | None => None
  | Some s =>
      if String.eqb s "" then None
      else
        match time_diff_of fromisoformat strptime now s with
        | None => None
        | Some (t, time_diff) => Some (t, classify time_diff)
        end
  end.

(** A post as the demotion leaves it. *)
Definition is_demoted (p : Post) : Prop :=
  post_status p = POST_STATUS_DRAFT ∧ post_scheduled_time p = None
  ∧ post_error p = Some missed_note.

(** The files of [pid] are the same in both stores. *)
Definition same_files (pid : string) (st st' : Store) : Prop :=
  ∀ d, dir st' d !! pid = dir st d !! pid.

(** [drafts/] holds the demoted record of [pid], [scheduled/] none. *)
Definition demoted_in (st : Store) (pid : string) : Prop :=
  (∃ p, drafts st !! pid = Some p ∧ is_demoted p)
  ∧ scheduled st !! pid = None.

(** [published/] holds a record of [pid], with status [published]. *)
Definition published_in (st : Store) (pid : string) : Prop :=
  ∃ p, published st !! pid = Some p ∧ post_status p = POST_STATUS_PUBLISHED.

(** [b] is at least the minimum interval after [a]. *)
Definition spaced (a b : datetime) : Prop :=
  timedelta_minutes (inject_Z min_post_interval) <= sub b a.

(** Seven drafts of one account. *)
Definition seven_ids : list string :=
  ["p1"; "p2"; "p3"; "p4"; "p5"; "p6"; "p7"].

Definition draft_of (pid : string) : Post :=
  mk_post pid "acc1" "caption" [(pid ++ ".jpg")%string] "photo"
    POST_STATUS_DRAFT None "2025-10-24T12:00:00" None None.

Definition seven_drafts : World :=
  mk_world
    (mk_store (list_to_map (map (fun pid => (pid, draft_of pid)) seven_ids))
       ∅ ∅)
    ∅.

(** [t] is on day [day], from [from_hour]:00 to before [to_hour]:00. *)
Definition in_window (day from_hour to_hour : Z) (t : datetime) : Prop :=
  ordinal t = day
  ∧ from_hour * US_PER_HOUR <= time_us t < to_hour * US_PER_HOUR.

(** The seven times of the example that starts at 09:00 on [day]: three on
    that day, three on the next, one on the day after. *)
Definition seven_times (day : Z) : list datetime :=
  [ mk_datetime day 9 30 0 0; mk_datetime day 14 0 0 0;
    mk_datetime day 18 30 0 0;
    mk_datetime (day + 1) 8 0 0 0; mk_datetime (day + 1) 13 0 0 0;
    mk_datetime (day + 1) 18 0 0 0;
    mk_datetime (day + 2) 8 0 0 0 ].

(** A draft of the example, once scheduled. *)
Definition scheduled_draft (scheduled_time : string) (pid : string) : Post :=
  set_scheduled_time (set_status (draft_of pid) POST_STATUS_SCHEDULED)
    (Some scheduled_time).

(** The seven drafts scheduled at the seven times, and the world that
    holds them. *)
Definition seven_scheduled (isoformat : datetime -> string) (day : Z)
  : list Post :=
  zip_with (fun pid t => scheduled_draft (isoformat t) pid) seven_ids
    (seven_times day).

Definition seven_scheduled_world (isoformat : datetime -> string) (day : Z)
  : World :=
  mk_world
    (mk_store ∅ (list_to_map (zip seven_ids (seven_scheduled isoformat day))) ∅)
    {[ "acc1" :=
         zip_with (fun pid t => mk_entry pid (isoformat t) "scheduled")
           seven_ids (seven_times day) ]}.

(** The entries of [pid] on the calendar of [account_id]. *)
Definition entries_of (sch : Schedule) (account_id pid : string)
  : list ScheduleEntry :=
  filter (fun e => entry_post_id e = pid) (default [] (sch !! account_id)).

(** During a batch, nothing has been done for [pid] since world [w0]. *)
Definition untouched (pid : string) (w0 : World) (a : Assignment) : Prop :=
  keys_ok (posts (a_world a))
  ∧ get_post (posts (a_world a)) pid = None
  ∧ (pid ∉ map post_id (a_scheduled_posts a))
  ∧ ∀ account_id,
      entries_of (schedule (a_world a)) account_id pid
      = entries_of (schedule w0) account_id pid.

Definition sample_published : Post :=
  mk_post "p1" "acc1" "caption" ["p1.jpg"] "photo" POST_STATUS_PUBLISHED
    (Some "2025-10-24T09:00:00") "2025-10-23T12:00:00"
    (Some "2025-10-24T09:00:03") None.

Definition store_with_published : Store :=
  mk_store ∅ ∅ {[ "p1" := sample_published ]}.

(** The draft of [store_with_draft], scheduled for 16:15. *)
Definition sample_assigned : Post :=
  mk_post "p1" "acc1" "caption" ["p1.jpg"] "photo" POST_STATUS_SCHEDULED
    (Some "2025-10-25T16:15:00") "2025-10-24T12:00:00" None None.

Definition world_after_batch : World :=
  mk_world (mk_store ∅ {[ "p1" := sample_assigned ]} ∅)
    {[ "acc1" := [mk_entry "p1" "2025-10-25T16:15:00" "scheduled"] ]}.

(** A field is set when it holds a value that is not empty: the test
    [if not post.get('scheduled_time')] of the publish loop takes [None]
    and the empty string alike for a missing time. *)
Definition is_set (v : option string) : Prop := truthy v = true.

(** The two equivalences of the specification, for one record. *)
Definition status_iff_times (p : Post) : Prop :=
  (post_status p = POST_STATUS_SCHEDULED ↔ is_set (post_scheduled_time p))
  ∧ (post_status p = POST_STATUS_PUBLISHED ↔ is_set (post_published_at p)).

(** What the code keeps: a scheduled record has its time, a published one
    its publication time. *)
Definition status_has_time (p : Post) : Prop :=
  (post_status p = POST_STATUS_SCHEDULED → is_set (post_scheduled_time p))
  ∧ (post_status p = POST_STATUS_PUBLISHED → is_set (post_published_at p)).

Definition store_has_times (st : Store) : Prop :=
  ∀ d k p, dir st d !! k = Some p → status_has_time p.

Section Operations.

Variable isoformat : datetime -> string.
Variable fromisoformat : string -> option pydatetime.
Variable strptime : string -> string -> option pydatetime.

(** One operation of the store, of the scheduler or of the publisher.
    Three operations of the store write what the caller hands them:
    [create_post] a status beside no time, [update_post] any field,
    [schedule_post] any string as the time. They are taken with a record
    to write that has the times its status asks for: a created post is
    neither scheduled nor published, the updated record has its times, the
    time to schedule at is not empty. *)
Inductive operation : World -> World -> Prop :=
  | op_create_post w now new_id account_id text media post_format status :
      status ≠ POST_STATUS_SCHEDULED ->
      status ≠ POST_STATUS_PUBLISHED ->
      operation w
        (mk_world
           (create_post isoformat (posts w) now new_id account_id text media
              post_format status).1
           (schedule w))
  | op_update_post w pid updates :
      (∀ post, get_post (posts w) pid = Some post ->
               status_has_time (dict_update post updates)) ->
      operation w
        (mk_world (update_post (posts w) pid updates).1 (schedule w))
  | op_schedule_post w pid scheduled_time :
      scheduled_time ≠ "" ->
      operation w
        (mk_world (schedule_post (posts w) pid scheduled_time).1 (schedule w))
  | op_publish_post w now pid :
      operation w
        (mk_world (publish_post isoformat (posts w) now pid).1 (schedule w))
  | op_mark_post_error w pid err :
      operation w
        (mk_world (mark_post_error (posts w) pid err).1 (schedule w))
  | op_delete_post w pid :
      operation w (mk_world (delete_post (posts w) pid) (schedule w))
  | op_schedule_posts_for_account w fuel now0 now now_in_day account_id
      post_ids posts_per_day start_date w' scheduled_posts :
      schedule_posts_for_account isoformat fuel now0 now now_in_day w
        account_id post_ids posts_per_day start_date
      = Some (Returns (w', scheduled_posts)) ->
      operation w w'
  | op_check_and_publish w now now_at_publish outcome :
      operation w
        (_check_and_publish isoformat fromisoformat strptime now
           now_at_publish outcome w)
  | op_publish_now w now post outcome :
      operation w (_publish_post isoformat w now post outcome).

(** The worlds the operations lead to, from the empty store. *)
Inductive reachable : World -> Prop :=
  | reachable_empty : reachable (mk_world empty_store ∅)
  | reachable_step w w' : reachable w -> operation w w' -> reachable w'.

End Operations.

(** A post created, scheduled and published. *)
Definition world_created : World :=
  mk_world
    (create_post Iso.isoformat empty_store sample_now "p1" "acc1" "caption"
       ["p1.jpg"] "photo" POST_STATUS_DRAFT).1 ∅.

Definition world_scheduled : World :=
  mk_world
    (schedule_post (posts world_created) "p1" "2025-10-25T09:30:00").1 ∅.

Definition world_published : World :=
  mk_world
    (publish_post Iso.isoformat (posts world_scheduled)
       (mk_datetime 739549 9 30 2 0) "p1").1 ∅.

(** The published post scheduled once more, as a batch does with any id
    it is given. *)
Definition world_rescheduled : World :=
  mk_world
    (schedule_post (posts world_published) "p1" "2025-10-26T08:00:00").1 ∅.

(** The updates [{'status': 'scheduled'}] and [{'status': 'published'}]. *)
Definition update_status (status : string) : Updates :=
  mk_updates None None None None None (Some status) None None None None.

(** The same clock time, [k] days later. *)
Definition shift (k : Z) (d : datetime) : datetime :=
  mk_datetime (ordinal d + k) (hour d) (minute d) (second d) (microsecond d).

Definition raising_map {A B : Type} (f : A -> B) (r : raising A) : raising B :=
  match r with
  | Returns a => Returns (f a)
  | Raises e => Raises e
  end.


(** ** Further notions *)

(** Every file lies in the directory of the status it records, under the
    id it records, and no id has files in two directories. *)
Definition consistent (st : Store) : Prop :=
  keys_ok st
  ∧ (∀ d k p, dir st d !! k = Some p → _get_status_dir (post_status p) = d)
  ∧ (∀ d d' k, is_Some (dir st d !! k) → is_Some (dir st d' !! k) → d = d').

(** The store holds [p] for [pid], in the directory of its status and in
    no other. *)
Definition held_once (st : Store) (pid : string) (p : Post) : Prop :=
  get_post st pid = Some p
  ∧ partitions_holding st pid = [_get_status_dir (post_status p)].

(** Nothing changed for the ids other than [pid]. *)
Definition others_kept (pid : string) (st st' : Store) : Prop :=
  ∀ k, k ≠ pid → same_files k st st'.

(** The updates of the sibling paths, for the comparisons. *)
Definition sample_error : Post :=
  mk_post "p1" "acc1" "caption" ["p1.jpg"] "photo" POST_STATUS_ERROR
    (Some "2025-10-25T09:00:00") "2025-10-24T12:00:00" None (Some "boom").

Definition store_with_error : Store :=
  mk_store {[ "p1" := sample_error ]} ∅ ∅.

(** The post ids and the times of the entries of an account, in order. *)
Definition entry_ids (items : list ScheduleEntry) : list string :=
  entry_post_id <$> items.

Definition sample_schedule : Schedule :=
  {[ "acc1" := [mk_entry "p1" "2025-10-25T09:00:00" "scheduled";
                mk_entry "p2" "2025-10-25T12:00:00" "scheduled";
                mk_entry "p1" "2025-10-26T09:00:00" "scheduled"] ]}.

(** The order of the listings: [a] is not older than [b]. *)
Definition newest_first (a b : Post) : Prop :=
  String.ltb (post_created_at a) (post_created_at b) = false.

(** [pid] has a file in some directory, holding [p]. *)
Definition has_file (st : Store) (p : Post) : Prop :=
  ∃ d k, dir st d !! k = Some p.

(** The ids of a batch that [get_post] finds in [w], in their order. *)
Definition found_ids (w : World) (post_ids : list string) : list string :=
  filter (fun pid => is_Some (get_post (posts w) pid)) post_ids.

(** What the [while] loop of a batch on world [w] keeps, after the first
    [a_post_index a] ids had their turn. *)
Definition batch_invariant (w : World) (account_id : string)
    (post_ids : list string) (a : Assignment) : Prop :=
  let done_ids := found_ids w (take (a_post_index a) post_ids) in
  keys_ok (posts (a_world a))
  ∧ (∀ pid, is_Some (get_post (posts (a_world a)) pid)
            ↔ is_Some (get_post (posts w) pid))
  ∧ post_id <$> a_scheduled_posts a = done_ids
  ∧ entry_ids (get_scheduled_posts_for_account (schedule (a_world a))
                 account_id)
    = (entry_ids (get_scheduled_posts_for_account (schedule w) account_id)
       ++ done_ids)%list
  ∧ Forall (fun p => post_status p = POST_STATUS_SCHEDULED
                     ∧ is_Some (post_scheduled_time p)) (a_scheduled_posts a)
  ∧ ∀ pid, pid ∈ done_ids →
      ∃ p, scheduled (posts (a_world a)) !! pid = Some p
           ∧ p ∈ a_scheduled_posts a.

(** The fields of a [datetime] are those the constructor accepts. *)
Definition valid (d : datetime) : Prop :=
  0 <= hour d < 24 ∧ 0 <= minute d < 60 ∧ 0 <= second d < 60
  ∧ 0 <= microsecond d < 1000000.

(** [t] is on calendar day [day], within the posting hours. *)
Definition in_posting_hours (day : Z) (t : datetime) : Prop :=
  ordinal t = day ∧ POSTING_START_HOUR <= hour t < POSTING_END_HOUR.

(** The unit roundoff of the floats, [2 ^ -53], and a bound of what a
    result in the subnormal range can lose. *)
Definition unit_roundoff : Q := 1 # 9007199254740992.
Definition tiny : Q := 1 # 1267650600228229401496703205376.

(** A bound of what a float of minutes loses on its way to microseconds in
    [timedelta(minutes=x)], in microseconds. *)
Definition minutes_slack : Q := 1 # 100000000.

(** The steps of [_distribute_posts_in_day], named: the start of the day
    after the test against the clock, the start and the minutes of the day
    after the test against the minutes required, and the interval. *)
Definition day_start (now start_date : datetime) : datetime :=
  let start_time := replace_hour_minute start_date POSTING_START_HOUR 0 in
  if (date start_time =? date now) && ltb start_time now then
    let start_time :=
      add now (timedelta_minutes (inject_Z min_post_interval)) in
    let start_time := replace_second_microsecond start_time 0 0 in
    let minute := (minute start_time / 5) * 5 in
    replace_minute start_time minute
  else start_time.

Definition minutes_between (start_time end_time : datetime) : Q :=
  (total_seconds (sub end_time start_time) / inject_Z 60)%Q.

Definition day_plan (now start_date : datetime) (posts_count : Z)
  : datetime * Q :=
  let start_time := day_start now start_date in
  let end_time := replace_hour_minute start_date POSTING_END_HOUR 0 in
  let total_minutes := float_minutes (sub end_time start_time) in
  if Qltb total_minutes (inject_Z (posts_count * min_post_interval)) then
    let start_time :=
      replace_hour_minute (add start_time (timedelta_days 1))
        POSTING_START_HOUR 0 in
    let end_time := replace_hour_minute start_time POSTING_END_HOUR 0 in
    (start_time, float_minutes (sub end_time start_time))
  else (start_time, total_minutes).

Definition day_interval (total_minutes : Q) (posts_count : Z) : number :=
  let interval := fl (total_minutes / fl (inject_Z posts_count)) in
  if Qltb interval (inject_Z min_post_interval)
  then Int min_post_interval else Float interval.

(** A fraction of three characters, [.abc]. *)
Definition millis (a b c : ascii) : string :=
  String "." (String a (String b (String c EmptyString))).

(** The loop over the formats of [parse_iso_datetime], on a string as it
    is. *)
Definition parse_as_is (fromisoformat : string -> option pydatetime)
    (strptime : string -> string -> option pydatetime) (s : string)
  : raising pydatetime :=
  match try_formats fromisoformat strptime s formats_to_try with
  | Some d => Returns d
  | None => Raises (ValueError ("Не удалось распарсить время: " ++ s))
  end.

(** A limiter that served a request at 09:00:00, asked again a second
    later, with a sleep that ends at 09:00:02.5. *)
Definition sample_limiter : GeminiRateLimiter :=
  mk_limiter (5 # 2) (Some sample_now) 1 (mk_datetime 739549 9 0 30 0).

(** An attempt that does not end in a failure the publisher records: the
    upload went through, or the message holds a too-early marker. *)
Definition soft (outcome : attempt) : Prop :=
  match outcome with
  | Uploaded => True
  | Failed error_msg => too_early error_msg = true
  end.

(** [get_post] finds [pid], with status [scheduled]. *)
Definition ready (st : Store) (pid : string) : Prop :=
  ∃ p, get_post st pid = Some p ∧ post_status p = POST_STATUS_SCHEDULED.

(** An edit of the text of a post. *)
Definition update_text (text : string) : Updates :=
  mk_updates None None (Some text) None None None None None None None.

(** An edit that sends a post back to the drafts. *)
Definition update_to_draft : Updates :=
  mk_updates None None None None None (Some POST_STATUS_DRAFT) (Some None)
    None None None.

(** [p] is counted by [_check_instagram_limits]: its time of publication
    parses to a naive time at or after [today_start]. *)
Definition published_today (fromisoformat : string -> option pydatetime)
    (today_start : datetime) (p : Post) : bool :=
  truthy (post_published_at p)
  && match fromisoformat (published_at_key p) with
     | Some (Naive d) => leb today_start d
     | _ => false
     end.

(** The times of publication that are there can be read, as naive times. *)
Definition readable (fromisoformat : string -> option pydatetime)
    (l : list Post) : Prop :=
  ∀ p, p ∈ l → truthy (post_published_at p) = true →
       ∃ d, fromisoformat (published_at_key p) = Some (Naive d).

(** The account is known and a client is there, at once or after a login. *)
Definition client_ready (c : Collaborators) (account_id : string) : Prop :=
  is_Some (get_account c account_id)
  ∧ (get_client c account_id = true
     ∨ (login_account c account_id = true
        ∧ get_client_after_login c account_id = true)).

(** Ten posts of [acc1] published on the day of [sample_now], from 00:00
    to 04:30, and one post scheduled for 09:00. *)
Definition published_at_slot (i : Z) : Post :=
  mk_post (Iso.zfill 2 i) "acc1" "caption" ["x.jpg"] "photo"
    POST_STATUS_PUBLISHED (Some "2025-10-25T00:00:00") "2025-10-24T12:00:00"
    (Some (Iso.isoformat (mk_datetime 739549 (i / 2) (30 * (i mod 2)) 0 0)))
    None.

Definition store_at_limit : Store :=
  mk_store ∅ {[ "p1" := sample_scheduled ]}
    (list_to_map ((fun i => (Iso.zfill 2 i, published_at_slot i)) <$> range 10)).

(** One post of [acc1] published at 08:45, and one scheduled for 09:00. *)
Definition store_just_published : Store :=
  mk_store ∅ {[ "p1" := sample_scheduled ]}
    {[ "p0" := mk_post "p0" "acc1" "caption" ["x.jpg"] "photo"
                 POST_STATUS_PUBLISHED (Some "2025-10-25T08:45:00")
                 "2025-10-24T12:00:00" (Some "2025-10-25T08:45:03") None ]}.

(** Collaborators that find the account, its client and every photo, and
    whose upload goes through. *)
Definition willing : Collaborators :=
  mk_collaborators (fun _ => Some "user") (fun _ => true) (fun _ => true)
    (fun _ => true) (fun f => ("photos/" ++ f)%string) (fun f => ("videos/" ++ f)%string)
    (fun _ => true) (fun _ => false) (fun _ => ".jpg") (fun _ => None).

(** A scheduled post that was created without media. *)
Definition sample_no_media : Post :=
  mk_post "p1" "acc1" "caption" [] "photo" POST_STATUS_SCHEDULED
    (Some "2025-10-25T09:00:00") "2025-10-24T12:00:00" None None.

Definition store_with_no_media : Store :=
  mk_store ∅ {[ "p1" := sample_no_media ]} ∅.

(** A scheduled post whose media file is named [Await.JPG], and
    collaborators that find no file. *)
Definition sample_await : Post :=
  mk_post "p1" "acc1" "caption" ["Await.JPG"] "photo" POST_STATUS_SCHEDULED
    (Some "2025-10-25T09:00:00") "2025-10-24T12:00:00" None None.

Definition store_with_await : Store :=
  mk_store ∅ {[ "p1" := sample_await ]} ∅.

Definition nothing_found : Collaborators :=
  mk_collaborators (fun _ => Some "user") (fun _ => true) (fun _ => true)
    (fun _ => true) (fun f => ("photos/" ++ f)%string)
    (fun f => ("videos/" ++ f)%string)
    (fun _ => false) (fun _ => false) (fun _ => ".jpg") (fun _ => None).

(** ** The day-buckets of a batch *)

(** One round of the [while] loop of [schedule_posts_for_account]: the day
    counter, the number of posts asked for the day, the times
    [_distribute_posts_in_day] returned, and the posts the round scheduled,
    each with the time it was given. *)
Record Bucket : Type := mk_bucket {
  bucket_day : Z;
  bucket_size : Z;
  bucket_times : list datetime;
  bucket_posts : list (Post * datetime)
}.

Section Buckets.

Variable isoformat : datetime -> string.

(** The posts one run of [for scheduled_time in scheduled_times] appends to
    [scheduled_posts], each with its time. *)
Fixpoint slots_assigned (account_id : string) (post_ids : list string)
    (a : Assignment) (scheduled_times : list datetime)
  : list (Post * datetime) :=
  match scheduled_times with
  | [] => []
  | scheduled_time :: rest =>
      if (length post_ids <=? a_post_index a)%nat then []
      else
        match post_ids !! a_post_index a with
        | Some pid =>
            match (schedule_post (posts (a_world a)) pid
                     (isoformat scheduled_time)).2 with
            | Some post => [(post, scheduled_time)]
            | None => []
            end
        | None => []
        end
        ++ slots_assigned account_id post_ids
             (assign_slot isoformat account_id post_ids a scheduled_time) rest
  end.

(** The rounds of the [while] loop, in order. *)
Fixpoint day_buckets (fuel : nat) (now_in_day : Z -> datetime)
    (account_id : string) (post_ids : list string) (posts_per_day : Z)
    (start_time : datetime) (current_day : Z) (a : Assignment)
  : list Bucket :=
  match fuel with
  | O => []
  | S fuel =>
      let total_posts := Z.of_nat (length post_ids) in
      let post_index := Z.of_nat (a_post_index a) in
      if post_index <? total_posts then
        let posts_today := Z.min posts_per_day (total_posts - post_index) in
        match _distribute_posts_in_day (now_in_day current_day)
                (add start_time (timedelta_days current_day)) posts_today
        with
        | Raises _ => []
        | Returns scheduled_times =>
            mk_bucket current_day posts_today scheduled_times
              (slots_assigned account_id post_ids a scheduled_times)
            :: day_buckets fuel now_in_day account_id post_ids posts_per_day
                 start_time (current_day + 1)
                 (assign_slots isoformat account_id post_ids a
                    scheduled_times)
        end
      else []
  end.

End Buckets.


(** Twenty to eleven in the evening of 25 October 2025. *)
Definition late_evening : datetime := mk_datetime 739549 22 40 0 0.
(** ** The store: lookups after a write or a removal *)

#[local] Arguments _save_post : simpl never.
#[local] Arguments _delete_post_file : simpl never.
#[local] Arguments _get_status_dir : simpl never.
#[local] Arguments get_post : simpl never.
#[local] Arguments schedule_post : simpl never.
#[local] Arguments publish_post : simpl never.
#[local] Arguments mark_post_error : simpl never.

Lemma dir_with_dir_same st d m : dir (with_dir st d m) d = m.
Proof. by destruct d. Qed.

Lemma dir_with_dir_other st d d' m : d ≠ d' → dir (with_dir st d m) d' = dir st d'.
Proof. by destruct d, d'. Qed.

Lemma dir_save_post st post d k :
  dir (_save_post st post) d !! k
  = if decide (d = _get_status_dir (post_status post) ∧ k = post_id post)
    then Some post else dir st d !! k.
Proof.
  unfold _save_post. case_decide as H.
  - destruct H as [-> ->]. by rewrite dir_with_dir_same, lookup_insert_eq.
  - destruct (decide (d = _get_status_dir (post_status post))) as [->|Hd].
    + rewrite dir_with_dir_same, lookup_insert_ne; [done | naive_solver].
    + by rewrite dir_with_dir_other.
Qed.

Lemma dir_delete_post_file st pid status d k :
  dir (_delete_post_file st pid status) d !! k
  = if decide (d = _get_status_dir status ∧ k = pid)
    then None else dir st d !! k.
Proof.
  unfold _delete_post_file. case_decide as H.
  - destruct H as [-> ->]. by rewrite dir_with_dir_same, lookup_delete_eq.
  - destruct (decide (d = _get_status_dir status)) as [->|Hd].
    + rewrite dir_with_dir_same, lookup_delete_ne; [done | naive_solver].
    + by rewrite dir_with_dir_other.
Qed.

Lemma get_post_dirs st pid :
  get_post st pid
  = match dir st DRAFTS_DIR !! pid with
    | Some p => Some p
    | None =>
        match dir st SCHEDULED_DIR !! pid with
        | Some p => Some p
        | None => dir st PUBLISHED_DIR !! pid
        end
    end.
Proof. reflexivity. Qed.

Lemma get_post_in_dir st pid p :
  get_post st pid = Some p → ∃ d, dir st d !! pid = Some p.
Proof.
  rewrite get_post_dirs. intros H.
  destruct (dir st DRAFTS_DIR !! pid) eqn:E1; [exists DRAFTS_DIR; congruence|].
  destruct (dir st SCHEDULED_DIR !! pid) eqn:E2;
    [exists SCHEDULED_DIR; congruence|].
  by exists PUBLISHED_DIR.
Qed.

Lemma status_dir_draft : _get_status_dir POST_STATUS_DRAFT = DRAFTS_DIR.
Proof. reflexivity. Qed.

Lemma status_dir_scheduled : _get_status_dir POST_STATUS_SCHEDULED = SCHEDULED_DIR.
Proof. reflexivity. Qed.

Lemma status_dir_published : _get_status_dir POST_STATUS_PUBLISHED = PUBLISHED_DIR.
Proof. reflexivity. Qed.

Lemma status_dir_error : _get_status_dir POST_STATUS_ERROR = DRAFTS_DIR.
Proof. reflexivity. Qed.

(** ** Status changes and the status directories *)

(** C1. Evaluation at the failing input: [mark_post_error] on a post stored
    in [scheduled/] writes the record with status [error] to [drafts/]
    (the directory [_get_status_dir] gives for [error]) and does not remove
    the file in [scheduled/]: afterwards two directories hold the post, and
    the copy in [scheduled/] still says [scheduled]. [update_post] with the
    same change of status removes the old file and leaves the post in one
    directory. *)
Theorem mark_post_error_two_partitions :
  let st := (mark_post_error store_with_scheduled "p1" "boom").1 in
  partitions_holding store_with_scheduled "p1" = [SCHEDULED_DIR]
  ∧ partitions_holding st "p1" = [DRAFTS_DIR; SCHEDULED_DIR]
  ∧ post_status <$> drafts st !! "p1" = Some POST_STATUS_ERROR
  ∧ post_status <$> scheduled st !! "p1" = Some POST_STATUS_SCHEDULED
  ∧ partitions_holding
      (update_post store_with_scheduled "p1" update_to_error).1 "p1"
    = [DRAFTS_DIR].
Proof. vm_compute. auto 6. Qed.

(** ** [create_post] *)

(** C9, as the code has it. [create_post] validates nothing: for every
    media list, the empty one included, it builds the record with the given
    fields, no scheduled time, no publication time and no error, stores it
    and returns it; with the default status the post is a draft in
    [drafts/]. *)
Theorem create_post_any_media (isoformat : datetime -> string) (st : Store)
    (now : datetime) (new_id account_id text : string) (media : list string)
    (post_format : string) :
  let r := create_post isoformat st now new_id account_id text media
             post_format POST_STATUS_DRAFT in
  r.2 = mk_post new_id account_id text media post_format POST_STATUS_DRAFT
          None (isoformat now) None None
  ∧ drafts r.1 !! new_id = Some r.2
  ∧ get_post r.1 new_id = Some r.2.
Proof.
  cbn. split; [done|].
  change (drafts ?s) with (dir s DRAFTS_DIR).
  rewrite get_post_dirs, dir_save_post. rewrite decide_True; [done|].
  by split.
Qed.

(** C9, counterexample: called with an empty media list, [create_post]
    raises nothing; it stores and returns a draft whose media list is
    empty. *)
Lemma create_post_empty_media :
  let r := create_post Iso.isoformat empty_store sample_now "p1" "acc1"
             "caption" [] "photo" POST_STATUS_DRAFT in
  post_media r.2 = [] ∧ post_status r.2 = POST_STATUS_DRAFT
  ∧ get_post r.1 "p1" = Some r.2.
Proof. vm_compute. auto. Qed.

(** ** [publish_post] *)

(** C7, as the code has it. [publish_post] returns [None] and changes
    nothing when no directory holds the id. Otherwise, whatever the status
    of the post, it sets the status to [published] and [published_at] to the
    clock, leaves every other field, [scheduled_time] included, as it was,
    writes the record to [published/] and returns it. *)
Theorem publish_post_effect (isoformat : datetime -> string) (st : Store)
    (now : datetime) (pid : string) :
  match get_post st pid with
  | None => publish_post isoformat st now pid = (st, None)
  | Some p =>
      let r := publish_post isoformat st now pid in
      let p' := mk_post (post_id p) (post_account_id p) (post_text p)
                  (post_media p) (post_format p) POST_STATUS_PUBLISHED
                  (post_scheduled_time p) (post_created_at p)
                  (Some (isoformat now)) (post_error p) in
      r.2 = Some p' ∧ published r.1 !! post_id p = Some p'
  end.
Proof.
  unfold publish_post. destruct (get_post st pid) as [p|]; [|done].
  split; [done|]. unfold fst.
  change (published ?s) with (dir s PUBLISHED_DIR).
  rewrite dir_save_post. rewrite decide_True; [done|]. by split.
Qed.

(** C7, counterexample: a draft is marked published, with no
    invalid-transition failure; and a scheduled post keeps its
    [scheduled_time] when it is marked published. *)
Lemma publish_post_no_transition_check :
  (post_status <$> (publish_post Iso.isoformat store_with_draft sample_now
                      "p1").2) = Some POST_STATUS_PUBLISHED
  ∧ (post_scheduled_time <$>
       (publish_post Iso.isoformat store_with_scheduled sample_now "p1").2)
    = Some (Some "2025-10-25T09:00:00").
Proof. vm_compute. auto. Qed.

(** ** The [except] branch of [_publish_post] *)

Lemma prefix_spec (p s : string) :
  String.prefix p s = true ↔ ∃ b : string, s = (p ++ b)%string.
Proof.
  revert s. induction p as [|c p IH]; intros s.
  - split; [intros _; by exists s|by destruct s].
  - destruct s as [|c' s]; cbn [String.prefix].
    + split; [done|]. intros [b Hb]. discriminate Hb.
    + destruct (Ascii.ascii_dec c c') as [->|Hne].
      * rewrite IH. split; intros [b Hb]; exists b.
        -- cbn. by rewrite Hb.
        -- by injection Hb.
      * split; [done|]. intros [b Hb]. by injection Hb.
Qed.

(** The test [needle in s] answers whether [needle] occurs in [s]. *)
Lemma contains_spec (needle s : string) :
  contains needle s = true ↔ occurs_in needle s.
Proof.
  induction s as [|c s IH].
  - cbn [contains]. rewrite orb_false_r, prefix_spec. split.
    + intros [b Hb]. by exists EmptyString, b.
    + intros (a & b & H). destruct a as [|x a]; [by exists b|discriminate H].
  - cbn [contains]. rewrite orb_true_iff, prefix_spec, IH. split.
    + intros [[b Hb]|(a & b & H)].
      * by exists EmptyString, b.
      * exists (String c a), b. cbn. by rewrite H.
    + intros (a & b & H). destruct a as [|x a].
      * left. by exists b.
      * right. exists a, b. by injection H.
Qed.

(** The test of the [except] branch answers true exactly on the messages
    that hold a marker. *)
Lemma too_early_spec (error_msg : string) :
  too_early error_msg = true ↔ timing_marker error_msg.
Proof.
  unfold too_early, timing_marker.
  by rewrite orb_true_iff, !contains_spec.
Qed.

Lemma too_early_false (error_msg : string) :
  too_early error_msg = false ↔ ¬ timing_marker error_msg.
Proof. by rewrite <- too_early_spec, not_true_iff_false. Qed.

(** C4. A publish attempt on a post that [get_post] finds fails with the
    message [error_msg]. When the message holds a timing marker (the text
    [Слишком рано], or [wait] in any letter case), [_publish_post] leaves
    the world as it was: [get_post] returns the record it returned before,
    with its status and its error field. When the message holds no marker,
    [get_post] returns that record with status [error] and the message as
    its error; the record is written to [drafts/], and the files of
    [scheduled/] and [published/] and the schedule are as before (so a
    post that was stored in [scheduled/] keeps its old file there, beside
    the record in error that [get_post] reads). *)
Theorem publish_failure_handling (isoformat : datetime -> string)
    (w : World) (now : datetime) (post stored : Post) (error_msg : string)
    (Hget : get_post (posts w) (post_id post) = Some stored)
    (Hid : post_id stored = post_id post) :
  let w' := _publish_post isoformat w now post (Failed error_msg) in
  let failed :=
    set_error (set_status stored POST_STATUS_ERROR) (Some error_msg) in
  (timing_marker error_msg →
   w' = w ∧ get_post (posts w') (post_id post) = Some stored)
  ∧ (¬ timing_marker error_msg →
     get_post (posts w') (post_id post) = Some failed
     ∧ post_status failed = POST_STATUS_ERROR
     ∧ post_error failed = Some error_msg
     ∧ drafts (posts w') !! post_id post = Some failed
     ∧ scheduled (posts w') = scheduled (posts w)
     ∧ published (posts w') = published (posts w)
     ∧ schedule w' = schedule w).
Proof.
  intros w' failed. subst w'. unfold _publish_post. split.
  - intros H%too_early_spec. by rewrite H.
  - intros H%too_early_false. rewrite H.
    unfold mark_post_error. rewrite Hget. cbn [fst posts schedule].
    fold failed.
    assert (Hd : dir (_save_post (posts w) failed) DRAFTS_DIR !! post_id post
                 = Some failed).
    { rewrite dir_save_post. rewrite decide_True; [done|]. by split. }
    split; [by rewrite get_post_dirs, Hd|].
    split; [done|]. split; [done|]. split; [exact Hd|].
    by destruct (posts w).
Qed.

(** A scheduled post whose attempt fails with [login_required], which holds
    no marker: the test answers false and the post is read back with status
    [error] and the message. The same post with a message that holds
    [wait]: the test answers true and the world is as before. *)
Lemma publish_failure_handling_witness :
  let w := mk_world store_with_scheduled ∅ in
  let refused := "login_required" in
  let delayed := "Please wait a few minutes before you try again." in
  too_early refused = false
  ∧ get_post
      (posts (_publish_post Iso.isoformat w sample_now sample_scheduled
                (Failed refused))) "p1"
    = Some (set_error (set_status sample_scheduled POST_STATUS_ERROR)
              (Some refused))
  ∧ too_early delayed = true
  ∧ _publish_post Iso.isoformat w sample_now sample_scheduled
      (Failed delayed)
    = w.
Proof.
  split; [reflexivity|]. split.
  - refine (proj1 (proj2 (publish_failure_handling Iso.isoformat
                            (mk_world store_with_scheduled ∅) sample_now
                            sample_scheduled sample_scheduled
                            "login_required" eq_refl eq_refl) _)).
    intros H%too_early_spec. discriminate H.
  - split; [reflexivity|].
    refine (proj1 (proj1 (publish_failure_handling Iso.isoformat
                            (mk_world store_with_scheduled ∅) sample_now
                            sample_scheduled sample_scheduled
                            "Please wait a few minutes before you try again."
                            eq_refl eq_refl) _)).
    apply too_early_spec. reflexivity.
Defined.

(** ** Rational comparisons *)

Lemma Qltb_lt (a b : Q) : Qltb a b = true ↔ (a < b)%Q.
Proof.
  unfold Qltb. rewrite negb_true_iff, <- not_true_iff_false, Qle_bool_iff.
  split; [apply Qnot_le_lt | apply Qlt_not_le].
Qed.

Lemma Qleb_le (a b : Q) : Qleb a b = true ↔ (a <= b)%Q.
Proof. apply Qle_bool_iff. Qed.

Lemma Qltb_ge (a b : Q) : Qltb a b = false ↔ (b <= a)%Q.
Proof. unfold Qltb. rewrite negb_false_iff. apply Qle_bool_iff. Qed.

Lemma classify_STALE (d : Q) : (3600 < d)%Q → classify d = STALE.
Proof. intros H. unfold classify. by rewrite (proj2 (Qltb_lt _ _) H). Qed.

Lemma classify_DUE (d : Q) : (-120 <= d)%Q → (d <= 3600)%Q → classify d = DUE.
Proof.
  intros H1 H2. unfold classify.
  by rewrite (proj2 (Qltb_ge _ _) H2), (proj2 (Qleb_le _ _) H1).
Qed.

Lemma classify_PENDING (d : Q) : (d < -120)%Q → classify d = PENDING.
Proof.
  intros H. unfold classify.
  assert (Qltb 3600 d = false) as ->.
  { apply Qltb_ge. apply Qlt_le_weak. eapply Qlt_trans; [exact H|]. reflexivity. }
  assert (Qleb (-120) d = false) as ->; [|done].
  apply not_true_iff_false. rewrite Qleb_le. by apply Qlt_not_le.
Qed.

(** ** The first loop of the tick *)

Section ScanLemmas.

Variable fromisoformat : string -> option pydatetime.
Variable strptime : string -> string -> option pydatetime.
Variable now : datetime.

Local Abbreviation scan := (scan_post fromisoformat strptime now).
Local Abbreviation judge := (verdict fromisoformat strptime now).

(** The [if]/[elif] chain of the loop decides as [classify] does. *)
Lemma scan_post_verdict (acc : Scan) (post : Post) :
  scan acc post
  = match judge post with
    | None => acc
    | Some (t, STALE) =>
        if bool_decide (post_id post ∈ posts_to_move_to_drafts acc) then acc
        else mk_scan (posts_to_publish acc)
               (posts_to_move_to_drafts acc ++ [post_id post])
    | Some (t, DUE) =>
        mk_scan (posts_to_publish acc ++ [(post, t)])
          (posts_to_move_to_drafts acc)
    | Some (t, PENDING) => acc
    end.
Proof.
  unfold scan_post, verdict, classify.
  destruct (post_scheduled_time post) as [s|]; [|done].
  destruct (String.eqb s ""); [done|].
  destruct (time_diff_of _ _ _ _) as [[t d]|]; [|done].
  unfold Qltb, Qleb.
  destruct (Qle_bool d 3600), (Qle_bool (-120) d), (Qle_bool d 600); done.
Qed.

Lemma scan_moves (l : list Post) (acc : Scan) (pid : string) :
  pid ∈ posts_to_move_to_drafts (foldl scan acc l)
  ↔ pid ∈ posts_to_move_to_drafts acc
    ∨ ∃ post t, post ∈ l ∧ post_id post = pid
                ∧ judge post = Some (t, STALE).
Proof.
  revert acc. induction l as [|q l IH]; intros acc; cbn [foldl].
  - split; [by left|]. intros [H|(post & t & H & _)]; [done|].
    by apply elem_of_nil in H.
  - rewrite IH, scan_post_verdict. split.
    + intros [H|(post & t & Hin & Hid & Hv)].
      * destruct (judge q) as [[t []]|] eqn:Hq; try by left.
        case_bool_decide; [by left|]. cbn in H.
        apply elem_of_app in H as [H|H]; [by left|].
        apply list_elem_of_singleton in H as ->.
        right. exists q, t. split; [left|]; done.
      * right. exists post, t. split; [by right|done].
    + intros [H|(post & t & Hin & Hid & Hv)].
      * left. destruct (judge q) as [[t []]|]; try done.
        case_bool_decide; [done|]. cbn. apply elem_of_app. by left.
      * apply elem_of_cons in Hin as [->|Hin].
        -- left. rewrite Hv. case_bool_decide; [by subst|].
           cbn. apply elem_of_app. right. subst.
           by apply list_elem_of_singleton.
        -- right. by exists post, t.
Qed.

Lemma scan_publishes (l : list Post) (acc : Scan) (post : Post)
    (t : datetime) :
  (post, t) ∈ posts_to_publish (foldl scan acc l)
  ↔ (post, t) ∈ posts_to_publish acc
    ∨ (post ∈ l ∧ judge post = Some (t, DUE)).
Proof.
  revert acc. induction l as [|q l IH]; intros acc; cbn [foldl].
  - split; [by left|]. intros [H|[H _]]; [done|].
    by apply elem_of_nil in H.
  - rewrite IH, scan_post_verdict. split.
    + intros [H|[Hin Hv]].
      * destruct (judge q) as [[t' []]|] eqn:Hq; try by left.
        -- case_bool_decide; by left.
        -- cbn in H. apply elem_of_app in H as [H|H]; [by left|].
           apply list_elem_of_singleton in H. inversion H; subst.
           right. split; [left|]; done.
      * right. split; [by right|done].
    + intros [H|[Hin Hv]].
      * left. destruct (judge q) as [[t' []]|]; try done.
        -- by case_bool_decide.
        -- cbn. apply elem_of_app. by left.
      * apply elem_of_cons in Hin as [->|Hin].
        -- left. rewrite Hv. cbn. apply elem_of_app. right.
           by apply list_elem_of_singleton.
        -- right. done.
Qed.

End ScanLemmas.

(** ** Listings *)

Lemma elem_of_insert_by_created_at (x y : Post) (l : list Post) :
  y ∈ insert_by_created_at x l ↔ y = x ∨ y ∈ l.
Proof.
  induction l as [|z l IH]; cbn.
  - rewrite list_elem_of_singleton, elem_of_nil. tauto.
  - destruct (String.ltb _ _).
    + rewrite !elem_of_cons, IH. tauto.
    + rewrite !elem_of_cons. tauto.
Qed.

Lemma elem_of_sort_by_created_at (y : Post) (l : list Post) :
  y ∈ sort_by_created_at l ↔ y ∈ l.
Proof.
  unfold sort_by_created_at. induction l as [|x l IH]; cbn; [done|].
  by rewrite elem_of_insert_by_created_at, elem_of_cons, IH.
Qed.

Lemma elem_of_glob (m : gmap string Post) (p : Post) :
  p ∈ glob m ↔ ∃ k, m !! k = Some p.
Proof.
  unfold glob. rewrite list_elem_of_fmap. split.
  - intros ([k q] & -> & H). exists k. by apply elem_of_map_to_list.
  - intros [k H]. exists (k, p). split; [done|]. by apply elem_of_map_to_list.
Qed.

Lemma elem_of_get_scheduled_posts (st : Store) (p : Post) :
  p ∈ get_scheduled_posts st ↔ ∃ k, scheduled st !! k = Some p.
Proof.
  unfold get_scheduled_posts, get_all_posts. cbn.
  rewrite elem_of_sort_by_created_at, app_nil_r. apply elem_of_glob.
Qed.

(** ** Writes keep each record under its own id *)

Lemma keys_ok_save_post st post : keys_ok st → keys_ok (_save_post st post).
Proof.
  intros H d k p. rewrite dir_save_post. case_decide as E.
  - intros [= <-]. by destruct E.
  - apply H.
Qed.

Lemma keys_ok_delete_post_file st pid status :
  keys_ok st → keys_ok (_delete_post_file st pid status).
Proof.
  intros H d k p. rewrite dir_delete_post_file. case_decide; [done|apply H].
Qed.

Lemma keys_ok_get_post st pid p :
  keys_ok st → get_post st pid = Some p → post_id p = pid.
Proof. intros H Hp. apply get_post_in_dir in Hp as [d Hd]. eauto. Qed.

Lemma same_files_refl pid st : same_files pid st st.
Proof. by intros d. Qed.

Lemma same_files_trans pid st1 st2 st3 :
  same_files pid st1 st2 → same_files pid st2 st3 → same_files pid st1 st3.
Proof. intros H1 H2 d. by rewrite H2, H1. Qed.

Lemma same_files_save_post pid st post :
  post_id post ≠ pid → same_files pid st (_save_post st post).
Proof.
  intros H d. rewrite dir_save_post. rewrite decide_False; [done|].
  intros [_ ->]. done.
Qed.

Lemma same_files_delete_post_file pid st k status :
  k ≠ pid → same_files pid st (_delete_post_file st k status).
Proof.
  intros H d. rewrite dir_delete_post_file. rewrite decide_False; [done|].
  intros [_ ->]. done.
Qed.

Lemma same_files_get_post pid st st' :
  same_files pid st st' → get_post st' pid = get_post st pid.
Proof. intros H. rewrite !get_post_dirs. by rewrite !H. Qed.

(** ** The store operations, on one id and on the others *)

Lemma mark_post_error_keys st pid err :
  keys_ok st → keys_ok (mark_post_error st pid err).1.
Proof.
  intros H. unfold mark_post_error.
  destruct (get_post st pid); [|done]. by apply keys_ok_save_post.
Qed.

Lemma mark_post_error_other st k err pid :
  keys_ok st → k ≠ pid → same_files pid st (mark_post_error st k err).1.
Proof.
  intros H Hne. unfold mark_post_error.
  destruct (get_post st k) as [p|] eqn:E; [|apply same_files_refl].
  apply same_files_save_post. cbn. by rewrite (keys_ok_get_post _ _ _ H E).
Qed.

Lemma publish_post_keys isoformat st now pid :
  keys_ok st → keys_ok (publish_post isoformat st now pid).1.
Proof.
  intros H. unfold publish_post. destruct (get_post st pid); [|done].
  apply keys_ok_save_post. destruct (String.eqb _ _); [|done].
  by apply keys_ok_delete_post_file.
Qed.

Lemma publish_post_other isoformat st now k pid :
  keys_ok st → k ≠ pid → same_files pid st (publish_post isoformat st now k).1.
Proof.
  intros H Hne. unfold publish_post.
  destruct (get_post st k) as [p|] eqn:E; [|apply same_files_refl].
  eapply same_files_trans; [|apply same_files_save_post].
  - destruct (String.eqb _ _); [|apply same_files_refl].
    by apply same_files_delete_post_file.
  - cbn. by rewrite (keys_ok_get_post _ _ _ H E).
Qed.

Lemma schedule_post_keys st pid time :
  keys_ok st → keys_ok (schedule_post st pid time).1.
Proof.
  intros H. unfold schedule_post. destruct (get_post st pid); [|done].
  apply keys_ok_save_post. destruct (String.eqb _ _); [|done].
  by apply keys_ok_delete_post_file.
Qed.

Lemma schedule_post_other st k time pid :
  keys_ok st → k ≠ pid → same_files pid st (schedule_post st k time).1.
Proof.
  intros H Hne. unfold schedule_post.
  destruct (get_post st k) as [p|] eqn:E; [|apply same_files_refl].
  eapply same_files_trans; [|apply same_files_save_post].
  - destruct (String.eqb _ _); [|apply same_files_refl].
    by apply same_files_delete_post_file.
  - cbn. by rewrite (keys_ok_get_post _ _ _ H E).
Qed.

Lemma get_post_is_Some st d pid p :
  dir st d !! pid = Some p → is_Some (get_post st pid).
Proof.
  intros H. rewrite get_post_dirs.
  destruct (dir st DRAFTS_DIR !! pid) eqn:E1; [done|].
  destruct (dir st SCHEDULED_DIR !! pid) eqn:E2; [done|].
  destruct d; rewrite ?E1, ?E2 in H; by try discriminate.
Qed.

(** ** The demotion loop and the publish loop of the tick *)

Section TickLemmas.

Variable isoformat : datetime -> string.

Lemma move_to_drafts_keys w k :
  keys_ok (posts w) → keys_ok (posts (move_to_drafts w k)).
Proof.
  intros H. unfold move_to_drafts. destruct (get_post (posts w) k); [|done].
  cbn. by apply keys_ok_save_post, keys_ok_delete_post_file.
Qed.

Lemma move_to_drafts_other w k pid :
  keys_ok (posts w) → k ≠ pid →
  same_files pid (posts w) (posts (move_to_drafts w k)).
Proof.
  intros H Hne. unfold move_to_drafts.
  destruct (get_post (posts w) k) as [p|] eqn:E; [|apply same_files_refl].
  cbn. eapply same_files_trans; [|apply same_files_save_post].
  - by apply same_files_delete_post_file.
  - cbn. by rewrite (keys_ok_get_post _ _ _ H E).
Qed.

Lemma move_to_drafts_demotes w pid :
  keys_ok (posts w) → is_Some (get_post (posts w) pid) →
  demoted_in (posts (move_to_drafts w pid)) pid.
Proof.
  intros H [p E]. unfold move_to_drafts. rewrite E. cbn.
  pose proof (keys_ok_get_post _ _ _ H E) as Hid. split.
  - eexists. split.
    + change (drafts ?s) with (dir s DRAFTS_DIR). rewrite dir_save_post.
      rewrite decide_True; [done|]. by split.
    + done.
  - change (scheduled ?s) with (dir s SCHEDULED_DIR).
    rewrite dir_save_post. rewrite decide_False; [|by intros [? _]].
    rewrite dir_delete_post_file. by rewrite decide_True.
Qed.

Lemma demoted_in_same_files pid st st' :
  same_files pid st st' → demoted_in st pid → demoted_in st' pid.
Proof.
  intros H [(p & Hp & Hd) Hs]. split.
  - exists p. split; [|done]. rewrite <- Hp. apply (H DRAFTS_DIR).
  - rewrite <- Hs. apply (H SCHEDULED_DIR).
Qed.

Lemma move_to_drafts_keeps_demoted w k pid :
  keys_ok (posts w) → demoted_in (posts w) pid →
  demoted_in (posts (move_to_drafts w k)) pid.
Proof.
  intros H Hd. destruct (decide (k = pid)) as [->|Hne].
  - apply move_to_drafts_demotes; [done|].
    destruct Hd as [(p & Hp & _) _]. by eapply (get_post_is_Some _ DRAFTS_DIR).
  - eapply demoted_in_same_files; [|done]. by apply move_to_drafts_other.
Qed.

Lemma foldl_move_to_drafts_keys l w :
  keys_ok (posts w) → keys_ok (posts (foldl move_to_drafts w l)).
Proof.
  revert w. induction l as [|k l IH]; intros w H; [done|].
  cbn. by apply IH, move_to_drafts_keys.
Qed.

Lemma foldl_move_to_drafts_other l w pid :
  keys_ok (posts w) → pid ∉ l →
  same_files pid (posts w) (posts (foldl move_to_drafts w l)).
Proof.
  revert w. induction l as [|k l IH]; intros w H Hin;
    [apply same_files_refl|].
  apply not_elem_of_cons in Hin as [Hne Hin]. cbn.
  eapply same_files_trans; [apply move_to_drafts_other; [done|by symmetry]|].
  by apply IH; [apply move_to_drafts_keys|].
Qed.

Lemma foldl_move_to_drafts_keeps_demoted l w pid :
  keys_ok (posts w) → demoted_in (posts w) pid →
  demoted_in (posts (foldl move_to_drafts w l)) pid.
Proof.
  revert w. induction l as [|k l IH]; intros w H Hd; [done|].
  cbn. apply IH; [by apply move_to_drafts_keys|].
  by apply move_to_drafts_keeps_demoted.
Qed.

Lemma foldl_move_to_drafts_demotes l w pid :
  keys_ok (posts w) → is_Some (get_post (posts w) pid) → pid ∈ l →
  demoted_in (posts (foldl move_to_drafts w l)) pid.
Proof.
  revert w. induction l as [|k l IH]; intros w H Hp Hin.
  - by apply elem_of_nil in Hin.
  - cbn. destruct (decide (k = pid)) as [->|Hne].
    + apply foldl_move_to_drafts_keeps_demoted;
        [by apply move_to_drafts_keys|by apply move_to_drafts_demotes].
    + apply elem_of_cons in Hin as [->|Hin]; [done|].
      apply IH; [by apply move_to_drafts_keys| |done].
      by rewrite (same_files_get_post pid _ _
                    (move_to_drafts_other w k pid H Hne)).
Qed.

Lemma _publish_post_keys w now post outcome :
  keys_ok (posts w) →
  keys_ok (posts (_publish_post isoformat w now post outcome)).
Proof.
  intros H. unfold _publish_post. destruct outcome as [|msg]; cbn.
  - by apply publish_post_keys.
  - destruct (too_early msg); [done|]. cbn. by apply mark_post_error_keys.
Qed.

Lemma _publish_post_other w now post outcome pid :
  keys_ok (posts w) → post_id post ≠ pid →
  same_files pid (posts w)
    (posts (_publish_post isoformat w now post outcome)).
Proof.
  intros H Hne. unfold _publish_post. destruct outcome as [|msg]; cbn.
  - by apply publish_post_other.
  - destruct (too_early msg); [apply same_files_refl|]. cbn.
    by apply mark_post_error_other.
Qed.

Lemma _publish_post_has_post w now post outcome pid :
  keys_ok (posts w) → is_Some (get_post (posts w) pid) →
  is_Some (get_post (posts (_publish_post isoformat w now post outcome)) pid).
Proof.
  intros H Hp. destruct (decide (post_id post = pid)) as [E|Hne].
  - unfold _publish_post. rewrite E. destruct Hp as [p Hp].
    pose proof (keys_ok_get_post _ _ _ H Hp) as Hid.
    destruct outcome as [|msg]; cbn.
    + unfold publish_post. rewrite Hp. cbn.
      apply (get_post_is_Some _ PUBLISHED_DIR _
               (set_published_at (set_status p POST_STATUS_PUBLISHED)
                  (Some (isoformat now)))).
      rewrite dir_save_post. rewrite decide_True; [done|]. by split.
    + destruct (too_early msg); [by exists p|]. cbn.
      unfold mark_post_error. rewrite Hp. cbn.
      apply (get_post_is_Some _ DRAFTS_DIR _
               (set_error (set_status p POST_STATUS_ERROR) (Some msg))).
      rewrite dir_save_post. rewrite decide_True; [done|]. by split.
  - by rewrite (same_files_get_post pid _ _
                  (_publish_post_other w now post outcome pid H Hne)).
Qed.

Lemma _publish_post_uploaded w now post :
  keys_ok (posts w) → is_Some (get_post (posts w) (post_id post)) →
  published_in (posts (_publish_post isoformat w now post Uploaded))
    (post_id post).
Proof.
  intros H [p Hp]. pose proof (keys_ok_get_post _ _ _ H Hp) as Hid.
  unfold _publish_post, publish_post. rewrite Hp. cbn.
  eexists. split.
  - change (published ?s) with (dir s PUBLISHED_DIR). rewrite dir_save_post.
    rewrite decide_True; [done|]. by split.
  - done.
Qed.

Lemma published_in_same_files pid st st' :
  same_files pid st st' → published_in st pid → published_in st' pid.
Proof.
  intros H (p & Hp & Hs). exists p. split; [|done].
  rewrite <- Hp. apply (H PUBLISHED_DIR).
Qed.

Lemma _publish_post_keeps_published w now post outcome pid :
  keys_ok (posts w) → published_in (posts w) pid →
  published_in (posts (_publish_post isoformat w now post outcome)) pid.
Proof.
  intros H Hd. destruct (decide (post_id post = pid)) as [E|Hne].
  - destruct outcome as [|msg].
    + rewrite <- E. apply _publish_post_uploaded; [done|]. rewrite E.
      destruct Hd as (p & Hp & _). by eapply (get_post_is_Some _ PUBLISHED_DIR).
    + unfold _publish_post. destruct (too_early msg); [done|]. cbn.
      unfold mark_post_error.
      destruct (get_post (posts w) (post_id post)) as [q|]; [|done]. cbn.
      destruct Hd as (p & Hp & Hs). exists p. split; [|done].
      change (published ?s) with (dir s PUBLISHED_DIR).
      rewrite dir_save_post. rewrite decide_False; [done|].
      by intros [? _].
  - eapply published_in_same_files; [|done]. by apply _publish_post_other.
Qed.

End TickLemmas.

Section Tick.

Variable isoformat : datetime -> string.
Variable fromisoformat : string -> option pydatetime.
Variable strptime : string -> string -> option pydatetime.
Variable now : datetime.
Variable now_at_publish : Post -> datetime.
Variable outcome : World -> Post -> attempt.

Local Abbreviation publish_step :=
  (fun (w : World) '(post, _) =>
     _publish_post isoformat w (now_at_publish post) post (outcome w post)).

Lemma foldl_publish_keys (l : list (Post * datetime)) w :
  keys_ok (posts w) → keys_ok (posts (foldl publish_step w l)).
Proof.
  revert w. induction l as [|[q t] l IH]; intros w H; [done|].
  cbn. by apply IH, _publish_post_keys.
Qed.

Lemma foldl_publish_other (l : list (Post * datetime)) w pid :
  keys_ok (posts w) → (∀ q t, (q, t) ∈ l → post_id q ≠ pid) →
  same_files pid (posts w) (posts (foldl publish_step w l)).
Proof.
  revert w. induction l as [|[q t] l IH]; intros w H Hl;
    [apply same_files_refl|].
  cbn. eapply same_files_trans.
  - apply _publish_post_other; [done|]. apply (Hl q t). by left.
  - apply IH; [by apply _publish_post_keys|].
    intros q' t' Hin. apply (Hl q' t'). by right.
Qed.

Lemma foldl_publish_keeps_published (l : list (Post * datetime)) w pid :
  keys_ok (posts w) → published_in (posts w) pid →
  published_in (posts (foldl publish_step w l)) pid.
Proof.
  revert w. induction l as [|[q t] l IH]; intros w H Hp; [done|].
  cbn. apply IH; [by apply _publish_post_keys|].
  by apply _publish_post_keeps_published.
Qed.

Lemma foldl_publish_publishes (l : list (Post * datetime)) w post t :
  keys_ok (posts w) → is_Some (get_post (posts w) (post_id post)) →
  (post, t) ∈ l → (∀ w0, outcome w0 post = Uploaded) →
  published_in (posts (foldl publish_step w l)) (post_id post).
Proof.
  intros H Hp Hin Hup. revert w H Hp Hin.
  induction l as [|[q t'] l IH]; intros w H Hp Hin.
  - by apply elem_of_nil in Hin.
  - cbn. apply elem_of_cons in Hin as [[= <- <-]|Hin].
    + apply foldl_publish_keeps_published; [by apply _publish_post_keys|].
      rewrite Hup. by apply _publish_post_uploaded.
    + apply IH; [by apply _publish_post_keys| |done].
      by apply _publish_post_has_post.
Qed.

End Tick.

(** C3. A post stored in [scheduled/] whose time parses to [t], at a tick
    that reads the clock at [now], with [time_diff = now - t] in seconds:
    - beyond 3600 it is stale: its id is put on the demotion list and, when
      the tick ends, [drafts/] holds it with status [draft], no scheduled
      time and the missed-publication note, and [scheduled/] no longer
      holds it;
    - from -120 to 3600 it is due: it is put on the publish list (and not
      on the other), and if its attempt uploads, [published/] holds it
      with status [published] when the tick ends;
    - below -120 it is pending: it is on neither list and its files are
      the same after the tick.
    So a post 90 seconds late is due, one 3700 seconds late is stale, one
    500 seconds ahead is pending. *)
Theorem publish_loop_classification
    (isoformat : datetime -> string)
    (fromisoformat : string -> option pydatetime)
    (strptime : string -> string -> option pydatetime)
    (now : datetime) (now_at_publish : Post -> datetime)
    (outcome : World -> Post -> attempt) (w : World)
    (pid : string) (post : Post) (s : string) (t : datetime)
    (Hkeys : keys_ok (posts w))
    (Hpost : scheduled (posts w) !! pid = Some post)
    (Hs : post_scheduled_time post = Some s)
    (Hne : s ≠ "")
    (Hparse : parse_iso_datetime fromisoformat strptime s = Returns (Naive t)) :
  let time_diff := total_seconds (sub now t) in
  let scan :=
    foldl (scan_post fromisoformat strptime now) (mk_scan [] [])
      (get_scheduled_posts (posts w)) in
  let w' :=
    _check_and_publish isoformat fromisoformat strptime now now_at_publish
      outcome w in
  let stale :=
    pid ∈ posts_to_move_to_drafts scan ∧ demoted_in (posts w') pid in
  let due :=
    (post, t) ∈ posts_to_publish scan
    ∧ (pid ∉ posts_to_move_to_drafts scan)
    ∧ ((∀ w0, outcome w0 post = Uploaded) → published_in (posts w') pid) in
  let pending :=
    (pid ∉ posts_to_move_to_drafts scan)
    ∧ (∀ q t', (q, t') ∈ posts_to_publish scan → post_id q ≠ pid)
    ∧ same_files pid (posts w) (posts w') in
  ((3600 < time_diff)%Q → stale)
  ∧ ((-120 <= time_diff)%Q → (time_diff <= 3600)%Q → due)
  ∧ ((time_diff < -120)%Q → pending)
  ∧ (sub now t = 90 * US_PER_SECOND → due)
  ∧ (sub now t = 3700 * US_PER_SECOND → stale)
  ∧ (sub now t = -500 * US_PER_SECOND → pending).
Proof.
  intros time_diff scan w' stale due pending.
  assert (Hid : post_id post = pid) by apply (Hkeys SCHEDULED_DIR _ _ Hpost).
  assert (Hin : post ∈ get_scheduled_posts (posts w)).
  { apply elem_of_get_scheduled_posts. by exists pid. }
  assert (Huniq : ∀ q, q ∈ get_scheduled_posts (posts w) →
                       post_id q = pid → q = post).
  { intros q Hq Hq'. apply elem_of_get_scheduled_posts in Hq as [k Hk].
    pose proof (Hkeys SCHEDULED_DIR _ _ Hk) as E. cbn in Hk.
    rewrite Hq' in E. subst k. congruence. }
  assert (Hv : verdict fromisoformat strptime now post
               = Some (t, classify time_diff)).
  { unfold verdict, time_diff_of. rewrite Hs, Hparse.
    destruct (String.eqb_spec s ""); done. }
  assert (Hw' : w' = foldl (fun w '(post, _) =>
                     _publish_post isoformat w (now_at_publish post) post
                       (outcome w post))
                  (foldl move_to_drafts w (posts_to_move_to_drafts scan))
                  (posts_to_publish scan)).
  { subst w' scan. unfold _check_and_publish.
    destruct (get_scheduled_posts (posts w)); [|done].
    by apply elem_of_nil in Hin. }
  assert (Hmoves : pid ∈ posts_to_move_to_drafts scan
                   ↔ classify time_diff = STALE).
  { subst scan. rewrite scan_moves. cbn. split.
    - intros [H|(q & t' & Hq & Hq' & Hvq)]; [by apply elem_of_nil in H|].
      rewrite (Huniq q Hq Hq') in Hvq. congruence.
    - intros E. right. exists post, t. by rewrite Hv, E. }
  assert (Hpubs : ∀ q t', (q, t') ∈ posts_to_publish scan → post_id q = pid →
                          classify time_diff = DUE).
  { subst scan. intros q t' Hq Hq'. apply scan_publishes in Hq.
    destruct Hq as [H|[Hq Hvq]]; [by apply elem_of_nil in H|].
    rewrite (Huniq q Hq Hq') in Hvq. congruence. }
  assert (Hstale : classify time_diff = STALE → stale).
  { intros E. split; [by apply Hmoves|]. rewrite Hw'.
    eapply demoted_in_same_files.
    - apply foldl_publish_other; [by apply foldl_move_to_drafts_keys|].
      intros q t' Hq Hq'. specialize (Hpubs q t' Hq Hq'). congruence.
    - apply foldl_move_to_drafts_demotes; [done| |by apply Hmoves].
      by apply (get_post_is_Some _ SCHEDULED_DIR _ post). }
  assert (Hdue : classify time_diff = DUE → due).
  { intros E. split; [|split].
    - subst scan. apply scan_publishes. right. by rewrite Hv, E.
    - rewrite Hmoves. congruence.
    - intros Hup. rewrite Hw', <- Hid.
      apply foldl_publish_publishes with (t := t);
        [by apply foldl_move_to_drafts_keys| | |done].
      + rewrite Hid.
        rewrite (same_files_get_post pid (posts w)).
        * by apply (get_post_is_Some _ SCHEDULED_DIR _ post).
        * apply foldl_move_to_drafts_other; [done|].
          rewrite Hmoves. congruence.
      + subst scan. apply scan_publishes. right. by rewrite Hv, E. }
  assert (Hpending : classify time_diff = PENDING → pending).
  { intros E.
    assert (pid ∉ posts_to_move_to_drafts scan) as Hnm
      by (rewrite Hmoves; congruence).
    assert (∀ q t', (q, t') ∈ posts_to_publish scan → post_id q ≠ pid) as Hnp.
    { intros q t' Hq Hq'. specialize (Hpubs q t' Hq Hq'). congruence. }
    split; [done|]. split; [done|]. rewrite Hw'.
    eapply same_files_trans.
    - by apply foldl_move_to_drafts_other.
    - apply foldl_publish_other; [by apply foldl_move_to_drafts_keys|done]. }
  split; [|split; [|split; [|split; [|split]]]].
  - intros H. by apply Hstale, classify_STALE.
  - intros H1 H2. by apply Hdue, classify_DUE.
  - intros H. by apply Hpending, classify_PENDING.
  - intros H. apply Hdue. subst time_diff. by rewrite H.
  - intros H. apply Hstale. subst time_diff. by rewrite H.
  - intros H. apply Hpending. subst time_diff. by rewrite H.
Qed.

Lemma keys_ok_store_with_scheduled : keys_ok store_with_scheduled.
Proof.
  intros d k p. destruct d; cbn; try by rewrite lookup_empty.
  intros [<- <-]%lookup_singleton_Some. done.
Qed.

(** A post scheduled for 09:00:00, at a tick 90 seconds later, with an
    upload that succeeds: it is on the publish list and ends in
    [published/]. *)
Lemma publish_loop_classification_witness :
  let now := add sample_now (90 * US_PER_SECOND) in
  let w := mk_world store_with_scheduled ∅ in
  let outcome := fun (_ : World) (_ : Post) => Uploaded in
  (sample_scheduled, sample_now)
    ∈ posts_to_publish
        (foldl (scan_post Iso.fromisoformat Iso.strptime now) (mk_scan [] [])
           (get_scheduled_posts (posts w)))
  ∧ published_in
      (posts (_check_and_publish Iso.isoformat Iso.fromisoformat Iso.strptime
                now (fun _ => now) outcome w)) "p1".
Proof.
  intros now w outcome.
  destruct (publish_loop_classification Iso.isoformat Iso.fromisoformat
              Iso.strptime now (fun _ => now) outcome w "p1" sample_scheduled
              "2025-10-25T09:00:00" sample_now keys_ok_store_with_scheduled
              eq_refl eq_refl ltac:(discriminate) eq_refl)
    as (_ & _ & _ & Hdue & _).
  destruct (Hdue eq_refl) as (H1 & _ & H3).
  split; [exact H1 | exact (H3 (fun _ => eq_refl))].
Defined.

(** ** [parse_iso_datetime] and a trailing [Z] *)

Lemma endswith_app_Z (s : string) : endswith (s ++ "Z") "Z" = true.
Proof.
  induction s as [|c s IH]; [done|].
  change (String.eqb (String c (s ++ "Z")) "Z"
          || endswith (s ++ "Z") "Z" = true).
  rewrite IH. apply orb_true_r.
Qed.

Lemma drop_last_app_Z (s : string) : drop_last (s ++ "Z") = s.
Proof.
  induction s as [|c s IH]; [done|].
  change (drop_last (String c (s ++ "Z")) = String c s).
  destruct s as [|c' s]; [done|].
  change (String c (drop_last (String c' s ++ "Z")) = String c (String c' s)).
  by rewrite IH.
Qed.

Lemma app_Z_not_empty (s : string) : String.eqb (s ++ "Z") "" = false.
Proof. by destruct s. Qed.

(** C10. For a string [s] that is not empty and does not itself end in [Z]
    (so [s ++ "Z"] is [s] with one UTC marker), [parse_iso_datetime] gives
    for [s ++ "Z"] what it gives for [s], value or error; the publish loop
    then takes the difference between the local clock and that wall-clock
    value, with no shift for the time zone. *)
Theorem parse_iso_datetime_trailing_Z
    (fromisoformat : string -> option pydatetime)
    (strptime : string -> string -> option pydatetime) (s : string)
    (Hne : s ≠ "") (HZ : endswith s "Z" = false) :
  parse_iso_datetime fromisoformat strptime (s ++ "Z")
  = parse_iso_datetime fromisoformat strptime s
  ∧ (∀ now, time_diff_of fromisoformat strptime now (s ++ "Z")
            = time_diff_of fromisoformat strptime now s)
  ∧ (∀ now t,
       parse_iso_datetime fromisoformat strptime s = Returns (Naive t) →
       time_diff_of fromisoformat strptime now (s ++ "Z")
       = Some (t, total_seconds (sub now t))).
Proof.
  assert (E : parse_iso_datetime fromisoformat strptime (s ++ "Z")
              = parse_iso_datetime fromisoformat strptime s).
  { unfold parse_iso_datetime.
    rewrite app_Z_not_empty, endswith_app_Z, drop_last_app_Z, HZ.
    by destruct (String.eqb_spec s ""). }
  split; [done|]. unfold time_diff_of. rewrite E. split; [done|].
  by intros now t ->.
Qed.

Lemma parse_iso_datetime_trailing_Z_witness :
  parse_iso_datetime Iso.fromisoformat Iso.strptime
    "2025-10-25T11:58:00.000Z"
  = Returns (Naive (mk_datetime 739549 11 58 0 0))
  ∧ time_diff_of Iso.fromisoformat Iso.strptime sample_now
      "2025-10-25T11:58:00.000Z"
    = Some (mk_datetime 739549 11 58 0 0,
            total_seconds (sub sample_now (mk_datetime 739549 11 58 0 0))).
Proof.
  destruct (parse_iso_datetime_trailing_Z Iso.fromisoformat Iso.strptime
              "2025-10-25T11:58:00.000" ltac:(discriminate) eq_refl)
    as (H1 & _ & H3).
  split; [exact H1 | exact (H3 sample_now _ eq_refl)].
Defined.

(** ** Datetime arithmetic *)

Lemma to_us_of_us (x : Z) : to_us (of_us x) = x.
Proof.
  unfold to_us, time_us, of_us. cbn [ordinal hour minute second microsecond].
  unfold US_PER_DAY, US_PER_HOUR, US_PER_MINUTE, US_PER_SECOND.
  set (r := x mod (24 * (60 * (60 * 1000000)))).
  assert (Hx : x = (24 * (60 * (60 * 1000000))) * (x / (24 * (60 * (60 * 1000000)))) + r)
    by (apply Z.div_mod; lia).
  assert (H1 : r = 1000000 * (r / 1000000) + r mod 1000000)
    by (apply Z.div_mod; lia).
  assert (H2 : r / 1000000 = 60 * (r / 1000000 / 60) + (r / 1000000) mod 60)
    by (apply Z.div_mod; lia).
  assert (H3 : r / 1000000 / 60 = r / (60 * 1000000))
    by (rewrite Z.div_div by lia; f_equal; lia).
  assert (H4 : r / (60 * 1000000)
               = 60 * (r / (60 * 1000000) / 60) + (r / (60 * 1000000)) mod 60)
    by (apply Z.div_mod; lia).
  assert (H5 : r / (60 * 1000000) / 60 = r / (60 * (60 * 1000000)))
    by (rewrite Z.div_div by lia; f_equal; lia).
  lia.
Qed.

Lemma to_us_add (d : datetime) (delta : timedelta) :
  to_us (add d delta) = to_us d + delta.
Proof. apply to_us_of_us. Qed.

Lemma ltb_lt (a b : datetime) : ltb a b = true ↔ to_us a < to_us b.
Proof. apply Z.ltb_lt. Qed.

Lemma leb_gt (a b : datetime) : leb a b = false ↔ to_us b < to_us a.
Proof. apply Z.leb_gt. Qed.

(** ** Rounding to the nearest microsecond *)




Lemma round_half_even_Z (z : Z) : round_half_even (inject_Z z) = z.
Proof.
  unfold round_half_even. rewrite Qfloor_Z.
  assert (E : (inject_Z z - inject_Z z == 0)%Q) by ring.
  by rewrite E.
Qed.

Lemma round_half_even_mono (x y : Q) :
  (x <= y)%Q → round_half_even x <= round_half_even y.
Proof.
  intros Hxy. unfold round_half_even.
  pose proof (Qfloor_resp_le _ _ Hxy) as Hf.
  pose proof (Qfloor_le x) as Hx1. pose proof (Qlt_floor x) as Hx2.
  pose proof (Qfloor_le y) as Hy1. pose proof (Qlt_floor y) as Hy2.
  destruct (Z.eq_dec (Qfloor x) (Qfloor y)) as [E|Hne].
  - rewrite <- E in *.
    destruct (Qcompare_spec (x - inject_Z (Qfloor x)) (1 # 2)) as [H1|H1|H1];
      destruct (Qcompare_spec (y - inject_Z (Qfloor x)) (1 # 2)) as [H2|H2|H2];
      try (destruct (Z.even (Qfloor x))); try lia; exfalso; lra.
  - assert (Qfloor x + 1 <= Qfloor y) by lia.
    destruct (Qcompare _ _); destruct (Qcompare _ _);
      try (destruct (Z.even (Qfloor x))); try (destruct (Z.even (Qfloor y)));
      lia.
Qed.

(** ** Floats *)

Lemma pow2_pos (e : Z) : (0 < pow2 e)%Q.
Proof. by apply Qpower_0_lt. Qed.

Lemma pow2_add (a b : Z) : (pow2 (a + b) == pow2 a * pow2 b)%Q.
Proof. by apply Qpower_plus. Qed.

Lemma pow2_le (a b : Z) : a <= b → (pow2 a <= pow2 b)%Q.
Proof. intros H. by apply Qpower_le_compat_l. Qed.

Lemma pow2_lt (a b : Z) : a < b → (pow2 a < pow2 b)%Q.
Proof. intros H. by apply Qpower_lt_compat_l. Qed.

Lemma pow2_lt_inv (a b : Z) : (pow2 a < pow2 b)%Q → a < b.
Proof. intros H. by apply (Qpower_lt_compat_l_inv 2). Qed.

Lemma pow2_Z (n : Z) : 0 <= n → (pow2 n == inject_Z (2 ^ n))%Q.
Proof. intros H. symmetry. by apply Zpower_Qpower. Qed.

Lemma pow2_succ (a : Z) : (pow2 (a + 1) == 2 * pow2 a)%Q.
Proof. rewrite pow2_add. change (pow2 1) with 2%Q. ring. Qed.

Lemma Qdiv_lt_cross (a b c d : Q) :
  (0 < b)%Q → (0 < d)%Q → (a * d < c * b)%Q → (a / b < c / d)%Q.
Proof.
  intros Hb Hd H. apply Qlt_shift_div_r; [done|].
  assert (E : (c / d * b == c * b / d)%Q) by (field; lra).
  rewrite E. apply Qlt_shift_div_l; [done|]. done.
Qed.

Lemma Qdiv_le_cross (a b c d : Q) :
  (0 < b)%Q → (0 < d)%Q → (a * d <= c * b)%Q → (a / b <= c / d)%Q.
Proof.
  intros Hb Hd H. apply Qle_shift_div_r; [done|].
  assert (E : (c / d * b == c * b / d)%Q) by (field; lra).
  rewrite E. apply Qle_shift_div_l; [done|]. done.
Qed.

Lemma Qabs_num_den (x : Q) : Qabs x = (Z.abs (Qnum x) # Qden x).
Proof. by destruct x. Qed.

Lemma ilog2_spec (x : Q) :
  ¬ (x == 0)%Q →
  (pow2 (ilog2 x) <= Qabs x)%Q ∧ (Qabs x < pow2 (ilog2 x + 1))%Q.
Proof.
  intros Hx. unfold ilog2.
  set (a := Z.abs (Qnum x)). set (b := Zpos (Qden x)).
  assert (Ha : 0 < a).
  { subst a. destruct x as [n d]. unfold Qeq in Hx. cbn in *. lia. }
  assert (Hb : 0 < b) by done.
  destruct (Z.log2_spec a Ha) as [Ha1 Ha2].
  destruct (Z.log2_spec b Hb) as [Hb1 Hb2].
  pose proof (Z.log2_nonneg a) as Hla. pose proof (Z.log2_nonneg b) as Hlb.
  set (la := Z.log2 a) in *. set (lb := Z.log2 b) in *.
  rewrite Z.pow_succ_r in Ha2, Hb2 by done.
  assert (E : (Qabs x == inject_Z a / inject_Z b)%Q).
  { rewrite Qabs_num_den. fold a. by rewrite Qmake_Qdiv. }
  pose proof (pow2_Z la Hla) as Ela. pose proof (pow2_Z lb Hlb) as Elb.
  assert (Ec : (pow2 (la - lb) == pow2 la / pow2 lb)%Q)
    by by apply Qpower_minus.
  pose proof (pow2_pos la) as Pa. pose proof (pow2_pos lb) as Pb.
  assert (HA1 : (pow2 la <= inject_Z a)%Q) by (by rewrite Ela, <- Zle_Qle).
  assert (HA2 : (inject_Z a < 2 * pow2 la)%Q).
  { rewrite Ela. change 2%Q with (inject_Z 2).
    by rewrite <- inject_Z_mult, <- Zlt_Qlt. }
  assert (HB1 : (pow2 lb <= inject_Z b)%Q) by (by rewrite Elb, <- Zle_Qle).
  assert (HB2 : (inject_Z b < 2 * pow2 lb)%Q).
  { rewrite Elb. change 2%Q with (inject_Z 2).
    by rewrite <- inject_Z_mult, <- Zlt_Qlt. }
  assert (HB0 : (0 < inject_Z b)%Q) by lra.
  destruct (Qle_bool (pow2 (la - lb)) (Qabs x)) eqn:Hc.
  - apply Qle_bool_iff in Hc. split; [done|].
    rewrite pow2_succ, Ec, E.
    assert (E2 : (2 * (pow2 la / pow2 lb) == (2 * pow2 la) / pow2 lb)%Q)
      by (field; lra).
    rewrite E2. apply Qdiv_lt_cross; [done..|]. nra.
  - assert (Hlt : (Qabs x < pow2 (la - lb))%Q).
    { apply Qnot_le_lt. intros H%Qle_bool_iff. congruence. }
    replace (la - lb - 1 + 1) with (la - lb) by lia. split; [|done].
    assert (E3 : (pow2 (la - lb - 1) == pow2 la / (2 * pow2 lb))%Q).
    { replace (la - lb - 1) with (la - (lb + 1)) by lia.
      rewrite <- pow2_succ. by apply Qpower_minus. }
    rewrite E3, E. apply Qdiv_le_cross; [lra|done|]. nra.
Qed.

Lemma ilog2_unique (x : Q) (k : Z) :
  (pow2 k <= Qabs x)%Q → (Qabs x < pow2 (k + 1))%Q → ilog2 x = k.
Proof.
  intros H1 H2.
  assert (Hx : ¬ (x == 0)%Q).
  { intros E. rewrite E in H1. pose proof (pow2_pos k).
    change (Qabs 0) with 0%Q in H1. lra. }
  destruct (ilog2_spec x Hx) as [H3 H4].
  assert (k < ilog2 x + 1) by (apply pow2_lt_inv; lra).
  assert (ilog2 x < k + 1) by (apply pow2_lt_inv; lra).
  lia.
Qed.

Lemma round_half_even_error (q : Q) :
  (q - (1 # 2) <= inject_Z (round_half_even q))%Q
  ∧ (inject_Z (round_half_even q) <= q + (1 # 2))%Q.
Proof.
  unfold round_half_even.
  pose proof (Qfloor_le q) as H1. pose proof (Qlt_floor q) as H2.
  rewrite inject_Z_plus in H2. change (inject_Z 1) with 1%Q in H2.
  destruct (Qcompare_spec (q - inject_Z (Qfloor q)) (1 # 2)) as [H|H|H];
    try destruct (Z.even (Qfloor q));
    rewrite ?inject_Z_plus; change (inject_Z 1) with 1%Q; lra.
Qed.

Lemma round_half_even_compat (x y : Q) :
  (x == y)%Q → round_half_even x = round_half_even y.
Proof.
  intros E.
  assert (round_half_even x <= round_half_even y)
    by (apply round_half_even_mono; lra).
  assert (round_half_even y <= round_half_even x)
    by (apply round_half_even_mono; lra).
  lia.
Qed.

Lemma Qeq_bool_false (x y : Q) : Qeq_bool x y = false → ¬ (x == y)%Q.
Proof. intros H E. apply Qeq_bool_iff in E. congruence. Qed.

Lemma Qabs_compat (x y : Q) : (x == y)%Q → (Qabs x == Qabs y)%Q.
Proof. intros E. by rewrite E. Qed.

Lemma ilog2_compat (x y : Q) :
  ¬ (x == 0)%Q → (x == y)%Q → ilog2 y = ilog2 x.
Proof.
  intros Hx E. destruct (ilog2_spec x Hx) as [H1 H2].
  apply ilog2_unique; by rewrite <- E.
Qed.

Lemma fl_compat (x y : Q) : (x == y)%Q → (fl x == fl y)%Q.
Proof.
  intros E. unfold fl.
  destruct (Qeq_bool x 0) eqn:Hx.
  - apply Qeq_bool_iff in Hx.
    assert (Qeq_bool y 0 = true) as -> by (apply Qeq_bool_iff; lra). done.
  - apply Qeq_bool_false in Hx.
    assert (Qeq_bool y 0 = false) as ->.
    { apply not_true_iff_false. intros H%Qeq_bool_iff. apply Hx. lra. }
    rewrite (ilog2_compat x y Hx E).
    set (e := Z.max _ _).
    assert (E2 : (x / pow2 e == y / pow2 e)%Q) by (by rewrite E).
    by rewrite (round_half_even_compat _ _ E2).
Qed.

#[global] Instance fl_proper : Proper (Qeq ==> Qeq) fl.
Proof. intros x y E. by apply fl_compat. Qed.

Lemma fl_0 : fl 0 = 0%Q.
Proof. reflexivity. Qed.

Lemma pow2_max (a b : Z) : (pow2 (Z.max a b) <= pow2 a + pow2 b)%Q.
Proof.
  pose proof (pow2_pos a). pose proof (pow2_pos b).
  destruct (Z.max_spec a b) as [[_ ->]|[_ ->]]; lra.
Qed.

Lemma fl_error (x : Q) :
  (Qabs (fl x - x) <= Qabs x * unit_roundoff + tiny)%Q.
Proof.
  unfold fl. destruct (Qeq_bool x 0) eqn:Hx.
  { apply Qeq_bool_iff in Hx. rewrite Hx. by vm_compute. }
  apply Qeq_bool_false in Hx. destruct (ilog2_spec x Hx) as [H1 H2].
  set (k := ilog2 x) in *. set (e := Z.max (k - 52) (-1074)).
  pose proof (pow2_pos e) as He.
  destruct (round_half_even_error (x / pow2 e)) as [R1 R2].
  set (r := inject_Z (round_half_even (x / pow2 e))) in *.
  assert (Ex : (x == x / pow2 e * pow2 e)%Q) by (field; lra).
  set (y := (x / pow2 e)%Q) in *.
  assert (Hhalf : (pow2 e * (1 # 2) <= Qabs x * unit_roundoff + tiny)%Q).
  { assert (E1 : (pow2 e * (1 # 2) == pow2 (Z.max (k - 53) (-1075)))%Q).
    { replace (Z.max (k - 53) (-1075)) with (e + -1) by lia.
      rewrite pow2_add. reflexivity. }
    rewrite E1. eapply Qle_trans; [apply pow2_max|].
    apply Qplus_le_compat.
    - replace (k - 53) with (k + -53) by lia. rewrite pow2_add.
      change (pow2 (-53)) with unit_roundoff.
      apply Qmult_le_compat_r; [done|done].
    - apply Qle_trans with (pow2 (-100)); [by apply pow2_le|].
      by vm_compute. }
  assert (Hd : (r * pow2 e - x == (r - y) * pow2 e)%Q).
  { rewrite Ex at 1. ring. }
  rewrite Hd.
  assert (Hu : ((r - y) * pow2 e <= (1 # 2) * pow2 e)%Q)
    by (apply Qmult_le_compat_r; lra).
  assert (Hl : (- (1 # 2) * pow2 e <= (r - y) * pow2 e)%Q)
    by (apply Qmult_le_compat_r; lra).
  apply Qabs_Qle_condition. lra.
Qed.

Lemma fl_nonneg (x : Q) : (0 <= x)%Q → (0 <= fl x)%Q.
Proof.
  intros Hx. unfold fl. destruct (Qeq_bool x 0); [done|].
  set (e := Z.max _ _). pose proof (pow2_pos e) as He.
  apply Qmult_le_0_compat; [|lra].
  change 0%Q with (inject_Z 0). rewrite <- Zle_Qle.
  rewrite <- (round_half_even_Z 0). apply round_half_even_mono.
  change (inject_Z 0) with 0%Q. apply Qle_shift_div_l; [done|]. lra.
Qed.

Lemma fl_nonpos (x : Q) : (x <= 0)%Q → (fl x <= 0)%Q.
Proof.
  intros Hx. unfold fl. destruct (Qeq_bool x 0); [done|].
  set (e := Z.max _ _). pose proof (pow2_pos e) as He.
  assert (Hr : (inject_Z (round_half_even (x / pow2 e)) <= 0)%Q).
  { change 0%Q with (inject_Z 0). rewrite <- Zle_Qle.
    rewrite <- (round_half_even_Z 0). apply round_half_even_mono.
    change (inject_Z 0) with 0%Q. apply Qle_shift_div_r; [done|]. lra. }
  nra.
Qed.

Lemma fl_bounds (x : Q) :
  (0 <= x)%Q →
  (x * (1 - unit_roundoff) - tiny <= fl x)%Q
  ∧ (fl x <= x * (1 + unit_roundoff) + tiny)%Q.
Proof.
  intros Hx. pose proof (fl_error x) as H.
  rewrite (Qabs_pos x Hx) in H. apply Qabs_Qle_condition in H. lra.
Qed.

(** The integers below [2 ^ 53] are floats. *)
Lemma fl_inject_Z (z : Z) :
  Z.abs z < 2 ^ 53 → (fl (inject_Z z) == inject_Z z)%Q.
Proof.
  intros Hz. unfold fl. destruct (Qeq_bool (inject_Z z) 0) eqn:E.
  { apply Qeq_bool_iff in E. by rewrite E. }
  apply Qeq_bool_false in E.
  assert (Hz0 : 0 < Z.abs z).
  { destruct (Z.eq_dec z 0) as [->|]; [by destruct E|lia]. }
  destruct (Z.log2_spec _ Hz0) as [L1 L2].
  pose proof (Z.log2_nonneg (Z.abs z)) as L0.
  set (l := Z.log2 (Z.abs z)) in *.
  assert (Hl : l <= 52).
  { assert (2 ^ l < 2 ^ 53) by lia.
    apply Z.pow_lt_mono_r_iff in H; lia. }
  assert (Habs : (Qabs (inject_Z z) == inject_Z (Z.abs z))%Q) by done.
  assert (Ek : ilog2 (inject_Z z) = l).
  { apply ilog2_unique; rewrite Habs.
    - rewrite (pow2_Z l L0). by rewrite <- Zle_Qle.
    - rewrite (pow2_Z (l + 1)) by lia. by rewrite <- Zlt_Qlt. }
  rewrite Ek. replace (Z.max (l - 52) (-1074)) with (- (52 - l)) by lia.
  set (m := 52 - l). assert (Hm : 0 <= m) by lia.
  assert (Ep : (pow2 (- m) == / inject_Z (2 ^ m))%Q).
  { unfold pow2. rewrite Qpower_opp. fold (pow2 m). by rewrite (pow2_Z m). }
  assert (Hp : (0 < inject_Z (2 ^ m))%Q).
  { rewrite <- (pow2_Z m Hm). apply pow2_pos. }
  assert (Ey : (inject_Z z / pow2 (- m) == inject_Z (z * 2 ^ m))%Q).
  { rewrite Ep, inject_Z_mult. field. lra. }
  rewrite (round_half_even_compat _ _ Ey), round_half_even_Z.
  rewrite Ep, inject_Z_mult. field. lra.
Qed.

(** ** [timedelta(minutes=x)] for a float [x] *)

Lemma trunc_nonneg (x : Q) : (0 <= x)%Q → trunc x = Qfloor x.
Proof. intros H. unfold trunc. by rewrite (proj2 (Qle_bool_iff 0 x) H). Qed.

Lemma trunc_Z (z : Z) : trunc (inject_Z z) = z.
Proof. unfold trunc. rewrite Qfloor_Z, Qceiling_Z. by destruct (Qle_bool _ _). Qed.

Lemma trunc_compat (x y : Q) : (x == y)%Q → trunc x = trunc y.
Proof.
  intros E. unfold trunc.
  rewrite (Qfloor_comp x y E), (Qceiling_comp x y E).
  destruct (Qle_bool 0 x) eqn:Hx, (Qle_bool 0 y) eqn:Hy; try done.
  - apply Qle_bool_iff in Hx. rewrite E in Hx. apply Qle_bool_iff in Hx.
    congruence.
  - apply Qle_bool_iff in Hy. rewrite <- E in Hy. apply Qle_bool_iff in Hy.
    congruence.
Qed.

Lemma timedelta_minutes_float_compat (x y : Q) :
  (x == y)%Q → timedelta_minutes_float x = timedelta_minutes_float y.
Proof.
  intros E. unfold timedelta_minutes_float. rewrite (trunc_compat x y E).
  apply round_half_even_compat. by rewrite E.
Qed.

Lemma timedelta_minutes_float_Z (z : Z) :
  timedelta_minutes_float (inject_Z z) = z * 60000000.
Proof.
  unfold timedelta_minutes_float. change US_PER_MINUTE with 60000000.
  rewrite trunc_Z.
  assert (E : (inject_Z 60000000 * (inject_Z z - inject_Z z) == 0)%Q) by ring.
  rewrite (round_half_even_compat _ (inject_Z (z * 60000000)));
    [apply round_half_even_Z|].
  rewrite (fl_compat _ _ E), fl_0. ring.
Qed.

Lemma timedelta_minutes_float_bounds (x : Q) :
  (0 <= x)%Q →
  ∃ y : Q, timedelta_minutes_float x = round_half_even y
           ∧ (inject_Z 60000000 * x - minutes_slack <= y)%Q
           ∧ (y <= inject_Z 60000000 * x + minutes_slack)%Q.
Proof.
  intros Hx. unfold timedelta_minutes_float.
  change US_PER_MINUTE with 60000000. rewrite (trunc_nonneg x Hx).
  pose proof (Qfloor_le x) as H1. pose proof (Qlt_floor x) as H2.
  rewrite inject_Z_plus in H2. change (inject_Z 1) with 1%Q in H2.
  set (f := (x - inject_Z (Qfloor x))%Q).
  assert (Hf : (0 <= inject_Z 60000000 * f)%Q).
  { apply Qmult_le_0_compat; [done|]. unfold f. lra. }
  destruct (fl_bounds _ Hf) as [B1 B2].
  eexists. split; [reflexivity|].
  rewrite inject_Z_mult. unfold unit_roundoff, tiny, minutes_slack in *.
  change (inject_Z 60000000) with (60000000 # 1)%Q in *.
  unfold f in *. split; lra.
Qed.

Lemma timedelta_minutes_float_nonneg (x : Q) :
  (0 <= x)%Q → 0 <= timedelta_minutes_float x.
Proof.
  intros Hx. unfold timedelta_minutes_float.
  change US_PER_MINUTE with 60000000. rewrite (trunc_nonneg x Hx).
  pose proof (Qfloor_le x) as H1.
  rewrite <- (round_half_even_Z 0). apply round_half_even_mono.
  change (inject_Z 0) with 0%Q.
  assert (0 <= Qfloor x).
  { rewrite <- (Qfloor_Z 0). by apply Qfloor_resp_le. }
  assert (H0 : (0 <= inject_Z (Qfloor x * 60000000))%Q).
  { change 0%Q with (inject_Z 0). rewrite <- Zle_Qle. lia. }
  assert (Hf : (0 <= fl (inject_Z 60000000 * (x - inject_Z (Qfloor x))))%Q).
  { apply fl_nonneg. apply Qmult_le_0_compat; [done|]. lra. }
  lra.
Qed.


(** ** The minutes of a day and the interval, in floats *)

Lemma float_minutes_whole (k : Z) :
  Z.abs k < 2 ^ 40 → (float_minutes (k * 60000000)%Z == inject_Z k)%Q.
Proof.
  intros Hk. unfold float_minutes, total_seconds.
  change US_PER_SECOND with 1000000.
  assert (E1 : (inject_Z (k * 60000000) / inject_Z 1000000
                == inject_Z (k * 60))%Q).
  { rewrite !inject_Z_mult. field. }
  rewrite (fl_compat _ _ E1), (fl_inject_Z (k * 60)) by lia.
  assert (E2 : (inject_Z (k * 60) / inject_Z 60 == inject_Z k)%Q).
  { rewrite inject_Z_mult. field. }
  rewrite (fl_compat _ _ E2). apply fl_inject_Z. lia.
Qed.

Lemma float_minutes_nonpos (delta : Z) :
  delta <= 0 → (float_minutes delta <= 0)%Q.
Proof.
  intros H. unfold float_minutes, total_seconds.
  change US_PER_SECOND with 1000000. apply fl_nonpos.
  assert (Hs : (fl (inject_Z delta / inject_Z 1000000) <= 0)%Q).
  { apply fl_nonpos. apply Qle_shift_div_r; [done|].
    rewrite Qmult_0_l. change 0%Q with (inject_Z 0). by rewrite <- Zle_Qle. }
  apply Qle_shift_div_r; [done|]. lra.
Qed.

Lemma float_minutes_bounds (delta : Z) :
  0 <= delta →
  let x := (inject_Z delta / inject_Z 60000000)%Q in
  (x * (1 - (3 # 9007199254740992)) - (1 # 1000000000000000000)
   <= float_minutes delta)%Q
  ∧ (float_minutes delta
     <= x * (1 + (3 # 9007199254740992)) + (1 # 1000000000000000000))%Q.
Proof.
  intros H x. unfold float_minutes, total_seconds.
  change US_PER_SECOND with 1000000.
  assert (Hd : (0 <= inject_Z delta)%Q).
  { change 0%Q with (inject_Z 0). by rewrite <- Zle_Qle. }
  assert (H0 : (0 <= inject_Z delta / inject_Z 1000000)%Q).
  { apply Qle_shift_div_l; [done|]. lra. }
  destruct (fl_bounds _ H0) as [A1 A2].
  set (s := fl (inject_Z delta / inject_Z 1000000)) in *.
  assert (Hs : (0 <= s)%Q) by (by apply fl_nonneg).
  assert (H1 : (0 <= s / inject_Z 60)%Q).
  { apply Qle_shift_div_l; [done|]. lra. }
  destruct (fl_bounds _ H1) as [B1 B2].
  assert (Es : (s / inject_Z 60 == s * (1 # 60))%Q) by (by field).
  assert (Ex : (x == inject_Z delta * (1 # 60000000))%Q)
    by (unfold x; by field).
  assert (Ed : (inject_Z delta / inject_Z 1000000
                == inject_Z delta * (1 # 1000000))%Q) by (by field).
  rewrite Es in B1, B2. rewrite Ed in A1, A2. rewrite Ex.
  unfold unit_roundoff, tiny in *.
  set (d := inject_Z delta) in *.
  set (m := fl (s / inject_Z 60)) in *.
  split.
  - apply Qle_trans with (s * (1 # 60) * (1 - (1 # 9007199254740992))
                          - (1 # 1267650600228229401496703205376))%Q;
      [|done].
    nra.
  - eapply Qle_trans; [exact B2|]. nra.
Qed.

Lemma inject_Z_le_1 (n : Z) : 1 <= n → (1 <= inject_Z n)%Q.
Proof. intros H. change 1%Q with (inject_Z 1). by rewrite <- Zle_Qle. Qed.

(** The interval of a day that is not raised to the minimum: the day has
    thirty posts at most, its minutes hold them half an hour apart, and the
    interval is half an hour exactly or exceeds it by more than the
    roundings lose. *)
Lemma float_interval_cases (delta n : Z) :
  1 <= n → delta <= 54060000000 →
  let interval := fl (float_minutes delta / fl (inject_Z n)) in
  (30 <= interval)%Q →
  n <= 30 ∧ 1800000000 * n <= delta
  ∧ ((interval == 30)%Q ∨ (30 + (1 # 2000000000) <= interval)%Q)
  ∧ (interval * inject_Z n
     <= inject_Z delta / inject_Z 60000000 + (1 # 1000000000))%Q.
Proof.
  intros Hn Hmax interval Hge.
  pose proof (inject_Z_le_1 n Hn) as Hn1.
  assert (HN : (0 <= inject_Z n)%Q) by lra.
  destruct (fl_bounds _ HN) as [N1 N2].
  set (fn := fl (inject_Z n)) in *.
  unfold unit_roundoff, tiny in N1, N2.
  assert (Hfn : (0 < fn)%Q) by lra.
  (* the time of the day is positive *)
  assert (Hpos : 0 < delta).
  { destruct (Z.lt_ge_cases 0 delta) as [|Hneg]; [done|exfalso].
    pose proof (float_minutes_nonpos delta Hneg) as Hm.
    assert (Hq : (float_minutes delta / fn <= 0)%Q).
    { apply Qle_shift_div_r; [done|]. lra. }
    pose proof (fl_nonpos _ Hq). fold interval in H. lra. }
  destruct (float_minutes_bounds delta ltac:(lia)) as [M1 M2].
  cbv zeta in M1, M2.
  assert (Hd1 : (1 <= inject_Z delta)%Q) by (apply inject_Z_le_1; lia).
  assert (Hd2 : (inject_Z delta <= 54060000000)%Q).
  { change 54060000000%Q with (inject_Z 54060000000). by rewrite <- Zle_Qle. }
  assert (Ex : (inject_Z delta / inject_Z 60000000
                == inject_Z delta * (1 # 60000000))%Q) by (by field).
  rewrite Ex in M1, M2 |- *.
  set (d := inject_Z delta) in *. set (m := float_minutes delta) in *.
  assert (Hm0 : (0 <= m)%Q) by lra.
  assert (Hq0 : (0 <= m / fn)%Q).
  { apply Qle_shift_div_l; [done|]. lra. }
  destruct (fl_bounds _ Hq0) as [I1 I2]. fold interval in I1, I2.
  unfold unit_roundoff, tiny in I1, I2.
  (* thirty posts at most *)
  assert (Hn30 : n <= 30).
  { destruct (Z.le_gt_cases n 30) as [|Hbig]; [done|exfalso].
    assert (Hn31 : (31 <= inject_Z n)%Q).
    { change 31%Q with (inject_Z 31). rewrite <- Zle_Qle. lia. }
    assert (Hq : (m / fn <= 292 # 10)%Q).
    { apply Qle_shift_div_r; [done|]. nra. }
    lra. }
  assert (Efn : (fn == inject_Z n)%Q) by (apply fl_inject_Z; lia).
  assert (Hn2 : (inject_Z n <= 30)%Q).
  { change 30%Q with (inject_Z 30). by rewrite <- Zle_Qle. }
  set (q := inject_Z n) in *.
  assert (Eq : (m / fn * q == m)%Q).
  { rewrite Efn. field. lra. }
  (* the minutes hold the posts *)
  assert (Hroom : 1800000000 * n <= delta).
  { destruct (Z.le_gt_cases (1800000000 * n) delta) as [|Hshort];
      [done|exfalso].
    assert (Hd3 : (d + 1 <= 1800000000 * q)%Q).
    { unfold d, q. change 1800000000%Q with (inject_Z 1800000000).
      change 1%Q with (inject_Z 1).
      rewrite <- inject_Z_mult, <- inject_Z_plus, <- Zle_Qle. lia. }
    assert (Hq : (m / fn <= 30 - (1 # 2000000000))%Q).
    { apply Qle_shift_div_r; [done|]. rewrite Efn. nra. }
    lra. }
  split; [done|]. split; [done|]. split.
  - destruct (Z.eq_dec delta (1800000000 * n)) as [E0|Hne].
    + left.
      assert (Em : (m == inject_Z (30 * n))%Q).
      { unfold m. rewrite E0.
        replace (1800000000 * n) with (30 * n * 60000000) by lia.
        apply float_minutes_whole. lia. }
      assert (E : (m / fn == inject_Z 30)%Q).
      { rewrite Em, Efn, inject_Z_mult. fold q. field. lra. }
      change (fl (m / fn) == 30)%Q.
      rewrite (fl_compat _ _ E). by apply (fl_inject_Z 30).
    + right.
      assert (Hd3 : (1800000000 * q + 1 <= d)%Q).
      { unfold d, q. change 1800000000%Q with (inject_Z 1800000000).
        change 1%Q with (inject_Z 1).
        rewrite <- inject_Z_mult, <- inject_Z_plus, <- Zle_Qle. lia. }
      assert (Hq : (30 + (52 # 100000000000) <= m / fn)%Q).
      { apply Qle_shift_div_l; [done|]. rewrite Efn. nra. }
      lra.
  - assert (Hi : (interval * q
                  <= m / fn * q * (1 + (1 # 9007199254740992))
                     + (1 # 1267650600228229401496703205376) * q)%Q) by nra.
    rewrite Eq in Hi. nra.
Qed.

Lemma float_slot_product (interval : Q) (i : Z) :
  (0 <= interval)%Q → 0 <= i < 2 ^ 53 →
  let x := fl (interval * fl (inject_Z i)) in
  timedelta_minutes_times (Float interval) i = timedelta_minutes_float x
  ∧ (0 <= x)%Q
  ∧ (interval * inject_Z i * (1 - unit_roundoff) - tiny <= x)%Q
  ∧ (x <= interval * inject_Z i * (1 + unit_roundoff) + tiny)%Q.
Proof.
  intros HI Hi x. split; [done|].
  assert (Ei : (fl (inject_Z i) == inject_Z i)%Q) by (apply fl_inject_Z; lia).
  assert (Hq : (0 <= inject_Z i)%Q).
  { change 0%Q with (inject_Z 0). rewrite <- Zle_Qle. lia. }
  assert (Hp : (0 <= interval * inject_Z i)%Q)
    by by apply Qmult_le_0_compat.
  assert (Ex : (x == fl (interval * inject_Z i))%Q).
  { unfold x. apply fl_compat. by rewrite Ei. }
  rewrite Ex. split; [by apply fl_nonneg|]. by apply fl_bounds.
Qed.

Lemma float_slot_nonneg (interval : Q) (i : Z) :
  (0 <= interval)%Q → 0 <= i < 2 ^ 53 →
  0 <= timedelta_minutes_times (Float interval) i.
Proof.
  intros HI Hi. destruct (float_slot_product interval i HI Hi) as (_ & H & _).
  by apply timedelta_minutes_float_nonneg.
Qed.



Lemma float_slot_upper (interval : Q) (delta n i : Z) :
  (30 <= interval)%Q → 0 <= delta <= 54060000000 →
  (interval * inject_Z n
   <= inject_Z delta / inject_Z 60000000 + (1 # 1000000000))%Q →
  0 <= i → i < n → timedelta_minutes_times (Float interval) i <= delta.
Proof.
  intros HI Hd Hb Hi Hin.
  assert (HI0 : (0 <= interval)%Q) by lra.
  destruct (Z.lt_ge_cases i (2 ^ 53)) as [Hsmall|Hbig].
  2: { exfalso.
       assert (Hn : (inject_Z (2 ^ 53) <= inject_Z n)%Q)
         by (rewrite <- Zle_Qle; lia).
       assert (Hd' : (inject_Z delta <= 54060000000)%Q).
       { change 54060000000%Q with (inject_Z 54060000000).
         rewrite <- Zle_Qle. lia. }
       assert (Ex : (inject_Z delta / inject_Z 60000000
                     == inject_Z delta * (1 # 60000000))%Q) by (by field).
       rewrite Ex in Hb. change (inject_Z (2 ^ 53)) with 9007199254740992%Q in Hn.
       nra. }
  destruct (float_slot_product interval i HI0 ltac:(lia)) as (-> & X0 & _ & X2).
  destruct (timedelta_minutes_float_bounds _ X0) as (y & -> & _ & Y2).
  rewrite <- (round_half_even_Z delta). apply round_half_even_mono.
  assert (Hi' : (0 <= inject_Z i)%Q).
  { change 0%Q with (inject_Z 0). by rewrite <- Zle_Qle. }
  assert (Hin' : (inject_Z i + 1 <= inject_Z n)%Q).
  { change 1%Q with (inject_Z 1). rewrite <- inject_Z_plus, <- Zle_Qle. lia. }
  assert (Hd0 : (0 <= inject_Z delta)%Q).
  { change 0%Q with (inject_Z 0). rewrite <- Zle_Qle. lia. }
  assert (Hd' : (inject_Z delta <= 54060000000)%Q).
  { change 54060000000%Q with (inject_Z 54060000000).
    rewrite <- Zle_Qle. lia. }
  assert (Ex : (inject_Z delta / inject_Z 60000000
                == inject_Z delta * (1 # 60000000))%Q) by (by field).
  rewrite Ex in Hb.
  set (a := (interval * inject_Z i)%Q) in *.
  assert (Ha : (0 <= a)%Q) by (by apply Qmult_le_0_compat).
  assert (Han : (a + interval <= interval * inject_Z n)%Q)
    by (unfold a; nra).
  unfold unit_roundoff, tiny, minutes_slack in *.
  change (inject_Z 60000000) with (60000000 # 1)%Q in *.
  set (d := inject_Z delta) in *. set (x := fl _) in *. nra.
Qed.

(** ** The times of one day *)

Lemma timedelta_minutes_min_interval :
  timedelta_minutes (inject_Z min_post_interval) = 2 * 900000000.
Proof. reflexivity. Qed.

Lemma timedelta_minutes_Z (z : Z) :
  timedelta_minutes (inject_Z z) = z * US_PER_MINUTE.
Proof.
  unfold timedelta_minutes. rewrite <- inject_Z_mult.
  apply round_half_even_Z.
Qed.

Section CollectTimes.

Variables now start_time : datetime.
Variable interval : number.

Local Abbreviation slot :=
  (fun i : Z => add start_time (timedelta_minutes_times interval i)).

Lemma collect_times_elems (indices : list Z) (t : datetime) :
  t ∈ collect_times now start_time interval indices →
  ∃ i, i ∈ indices ∧ t = slot i ∧ to_us now < to_us t.
Proof.
  induction indices as [|i indices IH]; cbn [collect_times].
  - by intros ?%elem_of_nil.
  - destruct (POSTING_END_HOUR <=? _); [by intros ?%elem_of_nil|].
    destruct (leb _ now) eqn:E.
    + intros (j & ? & ? & ?)%IH. exists j. split; [by right|done].
    + intros [->|H]%elem_of_cons.
      * exists i. split; [by left|]. split; [done|]. by apply leb_gt.
      * destruct (IH H) as (j & ? & ? & ?). exists j.
        split; [by right|done].
Qed.


End CollectTimes.



(** ** Batch assignment and the posts it finds *)

Section Batch.

Variable isoformat : datetime -> string.

Lemma assign_slot_missing account_id post_ids a t pid :
  post_ids !! a_post_index a = Some pid →
  get_post (posts (a_world a)) pid = None →
  assign_slot isoformat account_id post_ids a t
  = mk_assignment (a_world a) (a_scheduled_posts a) (S (a_post_index a)).
Proof.
  intros Hi Hp. unfold assign_slot, schedule_post. rewrite Hi, Hp.
  by destruct (a_world a).
Qed.

Lemma assign_slot_found account_id post_ids a t pid p :
  post_ids !! a_post_index a = Some pid →
  get_post (posts (a_world a)) pid = Some p →
  assign_slot isoformat account_id post_ids a t
  = mk_assignment
      (mk_world (schedule_post (posts (a_world a)) pid (isoformat t)).1
         (<[account_id :=
              default [] (schedule (a_world a) !! account_id)
              ++ [mk_entry pid (isoformat t) "scheduled"]]>
            (schedule (a_world a))))
      (a_scheduled_posts a
       ++ [set_scheduled_time (set_status p POST_STATUS_SCHEDULED)
             (Some (isoformat t))])
      (S (a_post_index a)).
Proof.
  intros Hi Hp. unfold assign_slot, schedule_post. by rewrite Hi, Hp.
Qed.

Lemma assign_slot_untouched account_id post_ids a t pid w0 :
  untouched pid w0 a →
  untouched pid w0 (assign_slot isoformat account_id post_ids a t).
Proof.
  intros (Hk & Hp & Hl & He).
  destruct (post_ids !! a_post_index a) as [k|] eqn:Hi;
    [|by unfold assign_slot; rewrite Hi].
  destruct (get_post (posts (a_world a)) k) as [p|] eqn:Hg.
  - assert (Hne : k ≠ pid) by congruence.
    pose proof (keys_ok_get_post _ _ _ Hk Hg) as Hid.
    rewrite (assign_slot_found _ _ _ _ _ _ Hi Hg). unfold untouched.
    cbn [a_world a_scheduled_posts posts schedule].
    split; [by apply schedule_post_keys|]. split; [|split].
    + by rewrite (same_files_get_post pid _ _
                    (schedule_post_other _ k (isoformat t) pid Hk Hne)).
    + rewrite map_app, elem_of_app. cbn. rewrite list_elem_of_singleton.
      intros [?|?]; [by apply Hl|congruence].
    + intros acc. rewrite <- He. unfold entries_of.
      destruct (decide (account_id = acc)) as [->|Hacc].
      * rewrite lookup_insert_eq. cbn. rewrite filter_app.
        rewrite (filter_cons_False _ _ []); [by rewrite app_nil_r|done].
      * by rewrite lookup_insert_ne.
  - by rewrite (assign_slot_missing _ _ _ _ _ Hi Hg).
Qed.

Lemma assign_slots_untouched account_id post_ids times a pid w0 :
  untouched pid w0 a →
  untouched pid w0 (assign_slots isoformat account_id post_ids a times).
Proof.
  revert a. induction times as [|t times IH]; intros a H; [done|].
  cbn. destruct (_ <=? _)%nat; [done|]. by apply IH, assign_slot_untouched.
Qed.

Lemma schedule_loop_untouched fuel now_in_day account_id post_ids
    posts_per_day start_time current_day a a' pid w0 :
  schedule_loop isoformat fuel now_in_day account_id post_ids posts_per_day
    start_time current_day a = Some (Returns a') →
  untouched pid w0 a → untouched pid w0 a'.
Proof.
  revert current_day a. induction fuel as [|fuel IH]; intros day a; [done|].
  cbn. destruct (_ <? _); [|by intros [= <-]].
  destruct (_distribute_posts_in_day _ _ _) as [times|e]; [|done].
  intros Hrun H. eapply IH; [exact Hrun|]. by apply assign_slots_untouched.
Qed.

End Batch.

(** C8, as the code has it. In a batch that returns, a post id that no
    directory holds is skipped: after the batch it is still absent, it is
    not among the returned posts and no entry for it was added to any
    calendar; its turn changes nothing and the loop goes on with the next
    id. A post that is found is scheduled whatever its status (the code
    has no check for draft): it comes back with status [scheduled] and the
    time of its slot, and its entry is appended to the account's
    calendar. *)
Theorem batch_skips_missing_posts (isoformat : datetime -> string)
    (fuel : nat) (now0 now : datetime) (now_in_day : Z -> datetime)
    (w : World) (account_id : string) (post_ids : list string)
    (posts_per_day : Z) (start_date : option datetime)
    (w' : World) (scheduled_posts : list Post) (pid : string)
    (Hkeys : keys_ok (posts w))
    (Hrun : schedule_posts_for_account isoformat fuel now0 now now_in_day w
              account_id post_ids posts_per_day start_date
            = Some (Returns (w', scheduled_posts)))
    (Hmissing : get_post (posts w) pid = None) :
  (get_post (posts w') pid = None
   ∧ (pid ∉ map post_id scheduled_posts)
   ∧ (∀ acc, entries_of (schedule w') acc pid = entries_of (schedule w) acc pid))
  ∧ (∀ a t rest,
       post_ids !! a_post_index a = Some pid →
       get_post (posts (a_world a)) pid = None →
       assign_slots isoformat account_id post_ids a (t :: rest)
       = assign_slots isoformat account_id post_ids
           (mk_assignment (a_world a) (a_scheduled_posts a)
              (S (a_post_index a))) rest)
  ∧ (∀ a t k p,
       post_ids !! a_post_index a = Some k →
       get_post (posts (a_world a)) k = Some p →
       let a' := assign_slot isoformat account_id post_ids a t in
       a_scheduled_posts a'
       = a_scheduled_posts a
         ++ [set_scheduled_time (set_status p POST_STATUS_SCHEDULED)
               (Some (isoformat t))]
       ∧ schedule (a_world a') !! account_id
         = Some (default [] (schedule (a_world a) !! account_id)
                 ++ [mk_entry k (isoformat t) "scheduled"])
       ∧ a_post_index a' = S (a_post_index a)).
Proof.
  split; [|split].
  - unfold schedule_posts_for_account in Hrun.
    destruct (posts_per_day =? 0); [done|].
    destruct (schedule_loop _ _ _ _ _ _ _ _ _) as [[a'|e]|] eqn:Hloop;
      [|done..].
    injection Hrun as <- <-.
    destruct (schedule_loop_untouched _ _ _ _ _ _ _ _ _ _ pid w Hloop)
      as (_ & H1 & H2 & H3); [|done].
    repeat split; try done. cbn. by intros ?%elem_of_nil.
  - intros a t rest Hi Hp. cbn [assign_slots].
    rewrite (assign_slot_missing _ _ _ _ _ _ Hi Hp).
    apply lookup_lt_Some in Hi.
    destruct (Nat.leb_spec (length post_ids) (a_post_index a)); [lia|done].
  - intros a t k p Hi Hp a'. subst a'.
    rewrite (assign_slot_found _ _ _ _ _ _ _ Hi Hp). cbn.
    by rewrite lookup_insert_eq.
Qed.

(** C8, counterexample: a batch that names a published post schedules it.
    The post comes back with status [scheduled] and the first slot of the
    day, its entry is appended to the calendar, and the store now answers
    [scheduled] for it. *)
Lemma batch_schedules_published_post :
  ∃ w' p,
    schedule_posts_for_account Iso.isoformat 2 sample_now sample_now
      (fun _ => sample_now) (mk_world store_with_published ∅) "acc1" ["p1"]
      3 None
    = Some (Returns (w', [p]))
    ∧ get_post store_with_published "p1" = Some sample_published
    ∧ post_status sample_published = POST_STATUS_PUBLISHED
    ∧ post_status p = POST_STATUS_SCHEDULED
    ∧ post_scheduled_time p = Some "2025-10-25T09:30:00"
    ∧ schedule w' !! "acc1"
      = Some [mk_entry "p1" "2025-10-25T09:30:00" "scheduled"]
    ∧ get_post (posts w') "p1" = Some p.
Proof.
  eexists _, _. split; [vm_compute; reflexivity|].
  repeat split; vm_compute; reflexivity.
Qed.

Lemma keys_ok_store_with_draft : keys_ok store_with_draft.
Proof.
  intros d k p. destruct d; cbn; try by rewrite lookup_empty.
  intros [<- <-]%lookup_singleton_Some. done.
Qed.

(** A batch of an unknown id and a draft: the unknown id takes the 09:30
    slot and is passed over, the draft gets 16:15. *)
Lemma batch_skips_missing_posts_witness :
  schedule_posts_for_account Iso.isoformat 2 sample_now sample_now
    (fun _ => sample_now) (mk_world store_with_draft ∅) "acc1"
    ["ghost"; "p1"] 3 None
  = Some (Returns (world_after_batch, [sample_assigned]))
  ∧ get_post (posts world_after_batch) "ghost" = None
  ∧ ("ghost" ∉ map post_id [sample_assigned])
  ∧ entries_of (schedule world_after_batch) "acc1" "ghost" = [].
Proof.
  assert (Hrun :
    schedule_posts_for_account Iso.isoformat 2 sample_now sample_now
      (fun _ => sample_now) (mk_world store_with_draft ∅) "acc1"
      ["ghost"; "p1"] 3 None
    = Some (Returns (world_after_batch, [sample_assigned])))
    by (vm_compute; reflexivity).
  destruct (batch_skips_missing_posts Iso.isoformat 2 sample_now sample_now
              (fun _ => sample_now) (mk_world store_with_draft ∅) "acc1"
              ["ghost"; "p1"] 3 None world_after_batch [sample_assigned]
              "ghost" keys_ok_store_with_draft Hrun eq_refl)
    as ((H1 & H2 & H3) & _).
  split; [exact Hrun|]. split; [exact H1|]. split; [exact H2|].
  exact (H3 "acc1").
Defined.

(** ** Status and times *)

Lemma is_set_Some (s : string) : s ≠ "" → is_set (Some s).
Proof.
  intros H. unfold is_set, truthy.
  by destruct (String.eqb_spec s "").
Qed.

Lemma is_set_inv (v : option string) :
  is_set v → ∃ s, v = Some s ∧ s ≠ "".
Proof.
  unfold is_set, truthy. destruct v as [s|]; [|done].
  destruct (String.eqb_spec s ""); [done|]. by exists s.
Qed.

Lemma store_has_times_save_post st post :
  store_has_times st → status_has_time post →
  store_has_times (_save_post st post).
Proof.
  intros H Hp d k p. rewrite dir_save_post. case_decide.
  - by intros [= <-].
  - apply H.
Qed.

Lemma store_has_times_delete_post_file st pid status :
  store_has_times st → store_has_times (_delete_post_file st pid status).
Proof.
  intros H d k p. rewrite dir_delete_post_file. case_decide; [done|apply H].
Qed.

Lemma store_has_times_get_post st pid p :
  store_has_times st → get_post st pid = Some p → status_has_time p.
Proof. intros H [d Hd]%get_post_in_dir. eauto. Qed.

Lemma store_has_times_empty : store_has_times empty_store.
Proof. intros d k p. destruct d; cbn; by rewrite lookup_empty. Qed.

Section StatusAndTimes.

Variable isoformat : datetime -> string.

(** The printer of datetimes gives no empty string. *)
Hypothesis isoformat_not_empty : ∀ d, isoformat d ≠ "".

Lemma create_post_has_times st now new_id account_id text media post_format
    status :
  status ≠ POST_STATUS_SCHEDULED → status ≠ POST_STATUS_PUBLISHED →
  store_has_times st →
  store_has_times
    (create_post isoformat st now new_id account_id text media post_format
       status).1.
Proof.
  intros H1 H2 H. apply store_has_times_save_post; [done|]. by split.
Qed.

Lemma update_post_has_times st pid updates :
  (∀ post, get_post st pid = Some post →
           status_has_time (dict_update post updates)) →
  store_has_times st →
  store_has_times (update_post st pid updates).1.
Proof.
  intros Hw H. unfold update_post.
  destruct (get_post st pid) as [p|] eqn:Hp; [|done].
  cbn [fst]. apply store_has_times_save_post; [|by apply Hw].
  destruct (negb _); [|done]. by apply store_has_times_delete_post_file.
Qed.

Lemma schedule_post_has_times st pid scheduled_time :
  scheduled_time ≠ "" → store_has_times st →
  store_has_times (schedule_post st pid scheduled_time).1.
Proof.
  intros Hne H. unfold schedule_post.
  destruct (get_post st pid) as [p|]; [|done].
  cbn [fst]. apply store_has_times_save_post.
  - destruct (String.eqb _ _); [|done].
    by apply store_has_times_delete_post_file.
  - split; [|done]. intros _. by apply is_set_Some.
Qed.

Lemma publish_post_has_times st now pid :
  store_has_times st → store_has_times (publish_post isoformat st now pid).1.
Proof.
  intros H. unfold publish_post.
  destruct (get_post st pid) as [p|]; [|done].
  cbn [fst]. apply store_has_times_save_post.
  - destruct (String.eqb _ _); [|done].
    by apply store_has_times_delete_post_file.
  - split; [done|]. intros _. by apply is_set_Some.
Qed.

Lemma mark_post_error_has_times st pid err :
  store_has_times st → store_has_times (mark_post_error st pid err).1.
Proof.
  intros H. unfold mark_post_error.
  destruct (get_post st pid) as [p|]; [|done].
  cbn [fst]. apply store_has_times_save_post; [done|]. by split.
Qed.

Lemma delete_post_has_times st pid :
  store_has_times st → store_has_times (delete_post st pid).
Proof.
  intros H. unfold delete_post. destruct (get_post st pid); [|done].
  by apply store_has_times_delete_post_file.
Qed.

Lemma move_to_drafts_has_times w pid :
  store_has_times (posts w) → store_has_times (posts (move_to_drafts w pid)).
Proof.
  intros H. unfold move_to_drafts.
  destruct (get_post (posts w) pid); [|done].
  cbn [posts]. apply store_has_times_save_post; [|by split].
  by apply store_has_times_delete_post_file.
Qed.

Lemma _publish_post_has_times w now post outcome :
  store_has_times (posts w) →
  store_has_times (posts (_publish_post isoformat w now post outcome)).
Proof.
  intros H. unfold _publish_post. destruct outcome as [|msg]; cbn [posts].
  - by apply publish_post_has_times.
  - destruct (too_early msg); [done|]. by apply mark_post_error_has_times.
Qed.

Lemma assign_slot_has_times account_id post_ids a t :
  store_has_times (posts (a_world a)) →
  store_has_times
    (posts (a_world (assign_slot isoformat account_id post_ids a t))).
Proof.
  intros H. unfold assign_slot.
  destruct (post_ids !! a_post_index a) as [k|]; [|done].
  pose proof (schedule_post_has_times (posts (a_world a)) k (isoformat t)
                (isoformat_not_empty t) H) as H'.
  destruct (schedule_post _ _ _) as [st [p|]]; done.
Qed.

Lemma assign_slots_has_times account_id post_ids times a :
  store_has_times (posts (a_world a)) →
  store_has_times
    (posts (a_world (assign_slots isoformat account_id post_ids a times))).
Proof.
  revert a. induction times as [|t times IH]; intros a H; [done|].
  cbn. destruct (_ <=? _)%nat; [done|]. by apply IH, assign_slot_has_times.
Qed.

Lemma schedule_loop_has_times fuel now_in_day account_id post_ids
    posts_per_day start_time current_day a a' :
  schedule_loop isoformat fuel now_in_day account_id post_ids posts_per_day
    start_time current_day a = Some (Returns a') →
  store_has_times (posts (a_world a)) → store_has_times (posts (a_world a')).
Proof.
  revert current_day a. induction fuel as [|fuel IH]; intros day a; [done|].
  cbn. destruct (_ <? _); [|by intros [= <-]].
  destruct (_distribute_posts_in_day _ _ _) as [times|e]; [|done].
  intros Hrun H. eapply IH; [exact Hrun|]. by apply assign_slots_has_times.
Qed.

Lemma check_and_publish_has_times fromisoformat strptime now now_at_publish
    outcome w :
  store_has_times (posts w) →
  store_has_times
    (posts (_check_and_publish isoformat fromisoformat strptime now
              now_at_publish outcome w)).
Proof.
  intros H. unfold _check_and_publish.
  destruct (get_scheduled_posts (posts w)) as [|q l]; [done|].
  generalize (foldl (scan_post fromisoformat strptime now) (mk_scan [] [])
                (q :: l)) as scan.
  intros scan.
  assert (H1 : store_has_times
                 (posts (foldl move_to_drafts w
                           (posts_to_move_to_drafts scan)))).
  { revert w H. induction (posts_to_move_to_drafts scan) as [|k ks IH];
      intros w H; [done|]. cbn. by apply IH, move_to_drafts_has_times. }
  revert H1. generalize (foldl move_to_drafts w (posts_to_move_to_drafts scan)).
  induction (posts_to_publish scan) as [|[p t] ps IH]; intros w1 H1; [done|].
  cbn. by apply IH, _publish_post_has_times.
Qed.

End StatusAndTimes.

Lemma append_empty (a b : string) : (a ++ b)%string = "" → a = "".
Proof. by destruct a. Qed.

Lemma append_char_not_empty (a : string) (c : ascii) (b : string) :
  (a ++ String c b)%string ≠ "".
Proof. by destruct a. Qed.

Lemma Iso_isoformat_not_empty (d : datetime) : Iso.isoformat d ≠ "".
Proof.
  unfold Iso.isoformat. destruct (Iso.ord2ymd _) as [[y m] dd].
  intros H%append_empty. cbn [Iso.zfill] in H.
  by apply append_char_not_empty in H.
Qed.

(** C2, as the code keeps it. A field is set when it holds a value that is
    not empty, and the printer of datetimes gives no empty string. In every
    world the operations lead to from the empty store ([create_post] with a
    status other than [scheduled] and [published], an [update_post] whose
    updated record has the times its status asks for, [schedule_post] with
    a time that is not empty, [publish_post], [mark_post_error],
    [delete_post], a batch of the scheduler, a tick of the publish loop, a
    manual publication), every stored record with status [scheduled] has
    its [scheduled_time] set and every record with status [published] has
    its [published_at] set. *)
Theorem reachable_store_has_times (isoformat : datetime -> string)
    (fromisoformat : string -> option pydatetime)
    (strptime : string -> string -> option pydatetime)
    (Hiso : ∀ d, isoformat d ≠ "") (w : World)
    (H : reachable isoformat fromisoformat strptime w) :
  store_has_times (posts w).
Proof.
  induction H as [|w w' _ IH Hop]; [apply store_has_times_empty|].
  destruct Hop; cbn [posts].
  - by apply create_post_has_times.
  - by apply update_post_has_times.
  - by apply schedule_post_has_times.
  - by apply publish_post_has_times.
  - by apply mark_post_error_has_times.
  - by apply delete_post_has_times.
  - match goal with
    | E : schedule_posts_for_account _ _ _ _ _ _ _ _ _ _ = _ |- _ =>
        unfold schedule_posts_for_account in E;
        destruct (_ =? 0); [done|];
        destruct (schedule_loop _ _ _ _ _ _ _ _ _) as [[a'|e]|] eqn:Hloop;
        [|done..]; injection E as <- <-
    end.
    by apply (schedule_loop_has_times _ Hiso _ _ _ _ _ _ _ _ _ Hloop).
  - by apply check_and_publish_has_times.
  - by apply _publish_post_has_times.
Qed.

Lemma reachable_world_created :
  reachable Iso.isoformat Iso.fromisoformat Iso.strptime world_created.
Proof.
  apply (reachable_step _ _ _ (mk_world empty_store ∅) world_created).
  - apply reachable_empty.
  - by apply (op_create_post _ _ _ (mk_world empty_store ∅) sample_now "p1"
                "acc1" "caption" ["p1.jpg"] "photo" POST_STATUS_DRAFT).
Defined.

Lemma reachable_world_published :
  reachable Iso.isoformat Iso.fromisoformat Iso.strptime world_published.
Proof.
  apply (reachable_step _ _ _ world_scheduled world_published).
  - apply (reachable_step _ _ _ world_created world_scheduled).
    + apply reachable_world_created.
    + by apply (op_schedule_post _ _ _ world_created "p1"
                  "2025-10-25T09:30:00").
  - apply (op_publish_post _ _ _ world_scheduled
             (mk_datetime 739549 9 30 2 0) "p1").
Defined.

Lemma reachable_world_rescheduled :
  reachable Iso.isoformat Iso.fromisoformat Iso.strptime world_rescheduled.
Proof.
  apply (reachable_step _ _ _ world_published world_rescheduled).
  - apply reachable_world_published.
  - by apply (op_schedule_post _ _ _ world_published "p1"
                "2025-10-26T08:00:00").
Defined.

(** C2, counterexamples. Each converse fails in a world the operations
    lead to: a post created, scheduled and published is stored with status
    [published] and its [scheduled_time] still set; scheduled once more,
    it is stored with status [scheduled] and its [published_at] still set.
    And each of the three provisos on what the store is handed is needed:
    [update_post] with the one key [status] makes a draft a scheduled post
    with no [scheduled_time], or a published post with no [published_at];
    [create_post] with the status [scheduled] stores a scheduled post with
    no time, and with the status [published] a published post with no
    publication time; [schedule_post] with the empty string stores a
    scheduled post whose time is empty. *)
Lemma status_and_times_counterexamples :
  (reachable Iso.isoformat Iso.fromisoformat Iso.strptime world_published
   ∧ ∃ p, published (posts world_published) !! "p1" = Some p
          ∧ post_status p = POST_STATUS_PUBLISHED
          ∧ post_scheduled_time p = Some "2025-10-25T09:30:00"
          ∧ ¬ status_iff_times p)
  ∧ (reachable Iso.isoformat Iso.fromisoformat Iso.strptime
       world_rescheduled
     ∧ ∃ p, scheduled (posts world_rescheduled) !! "p1" = Some p
            ∧ post_status p = POST_STATUS_SCHEDULED
            ∧ post_published_at p = Some "2025-10-25T09:30:02"
            ∧ ¬ status_iff_times p)
  ∧ (∃ p, scheduled
            (update_post (posts world_created) "p1"
               (update_status POST_STATUS_SCHEDULED)).1 !! "p1" = Some p
          ∧ post_status p = POST_STATUS_SCHEDULED
          ∧ post_scheduled_time p = None
          ∧ ¬ status_has_time p)
  ∧ (∃ p, published
            (update_post (posts world_created) "p1"
               (update_status POST_STATUS_PUBLISHED)).1 !! "p1" = Some p
          ∧ post_status p = POST_STATUS_PUBLISHED
          ∧ post_published_at p = None
          ∧ ¬ status_has_time p)
  ∧ (∃ p, scheduled
            (create_post Iso.isoformat empty_store sample_now "p1" "acc1"
               "caption" ["p1.jpg"] "photo" POST_STATUS_SCHEDULED).1 !! "p1"
          = Some p
          ∧ post_status p = POST_STATUS_SCHEDULED
          ∧ post_scheduled_time p = None
          ∧ ¬ status_has_time p)
  ∧ (∃ p, published
            (create_post Iso.isoformat empty_store sample_now "p1" "acc1"
               "caption" ["p1.jpg"] "photo" POST_STATUS_PUBLISHED).1 !! "p1"
          = Some p
          ∧ post_status p = POST_STATUS_PUBLISHED
          ∧ post_published_at p = None
          ∧ ¬ status_has_time p)
  ∧ (∃ p, scheduled (schedule_post (posts world_created) "p1" "").1 !! "p1"
          = Some p
          ∧ post_status p = POST_STATUS_SCHEDULED
          ∧ post_scheduled_time p = Some ""
          ∧ ¬ status_has_time p).
Proof.
  split.
  { split; [apply reachable_world_published|].
    eexists. split; [vm_compute; reflexivity|].
    split; [done|]. split; [done|].
    intros [[_ H] _]. by specialize (H eq_refl). }
  split.
  { split; [apply reachable_world_rescheduled|].
    eexists. split; [vm_compute; reflexivity|].
    split; [done|]. split; [done|].
    intros [_ [_ H]]. by specialize (H eq_refl). }
  split.
  { eexists. split; [vm_compute; reflexivity|].
    split; [done|]. split; [done|].
    intros [H _]. by specialize (H eq_refl). }
  split.
  { eexists. split; [vm_compute; reflexivity|].
    split; [done|]. split; [done|].
    intros [_ H]. by specialize (H eq_refl). }
  split.
  { eexists. split; [vm_compute; reflexivity|].
    split; [done|]. split; [done|].
    intros [H _]. by specialize (H eq_refl). }
  split.
  { eexists. split; [vm_compute; reflexivity|].
    split; [done|]. split; [done|].
    intros [_ H]. by specialize (H eq_refl). }
  eexists. split; [vm_compute; reflexivity|].
  split; [done|]. split; [done|].
  intros [H _]. by specialize (H eq_refl).
Qed.

(** The post created, scheduled, published and scheduled once more: the
    record in [scheduled/] has its time and the one left in [published/]
    its publication time. *)
Lemma reachable_store_has_times_witness :
  store_has_times (posts world_rescheduled).
Proof.
  exact (reachable_store_has_times Iso.isoformat Iso.fromisoformat
           Iso.strptime Iso_isoformat_not_empty world_rescheduled
           reachable_world_rescheduled).
Defined.

(** ** The scheduler does the same on every day *)

Section Shift.

Variable k : Z.

Lemma to_us_shift d : to_us (shift k d) = to_us d + k * US_PER_DAY.
Proof. unfold to_us, time_us, shift. cbn. lia. Qed.

Lemma of_us_shift x : of_us (x + k * US_PER_DAY) = shift k (of_us x).
Proof.
  unfold of_us, shift. cbn [ordinal hour minute second microsecond].
  rewrite Z_mod_plus_full, Z_div_plus_full by done. reflexivity.
Qed.

Lemma add_shift d delta : add (shift k d) delta = shift k (add d delta).
Proof.
  unfold add. rewrite to_us_shift, <- of_us_shift. f_equal. lia.
Qed.

Lemma sub_shift a b : sub (shift k a) (shift k b) = sub a b.
Proof. unfold sub. rewrite !to_us_shift. lia. Qed.

Lemma ltb_shift a b : ltb (shift k a) (shift k b) = ltb a b.
Proof.
  unfold ltb. rewrite !to_us_shift.
  destruct (Z.ltb_spec (to_us a) (to_us b));
    [apply Z.ltb_lt|apply Z.ltb_ge]; lia.
Qed.

Lemma leb_shift a b : leb (shift k a) (shift k b) = leb a b.
Proof.
  unfold leb. rewrite !to_us_shift.
  destruct (Z.leb_spec (to_us a) (to_us b));
    [apply Z.leb_le|apply Z.leb_gt]; lia.
Qed.

Lemma date_eqb_shift a b :
  (date (shift k a) =? date (shift k b)) = (date a =? date b).
Proof.
  unfold date, shift. cbn.
  destruct (Z.eqb_spec (ordinal a) (ordinal b));
    [apply Z.eqb_eq|apply Z.eqb_neq]; lia.
Qed.

Lemma replace_hour_minute_shift d h m :
  replace_hour_minute (shift k d) h m = shift k (replace_hour_minute d h m).
Proof. reflexivity. Qed.

Lemma replace_minute_shift d m :
  replace_minute (shift k d) m = shift k (replace_minute d m).
Proof. reflexivity. Qed.

Lemma replace_second_microsecond_shift d s u :
  replace_second_microsecond (shift k d) s u
  = shift k (replace_second_microsecond d s u).
Proof. reflexivity. Qed.

Lemma replace_minute_second_microsecond_shift d m s u :
  replace_minute_second_microsecond (shift k d) m s u
  = shift k (replace_minute_second_microsecond d m s u).
Proof. reflexivity. Qed.

Lemma hour_shift d : hour (shift k d) = hour d.
Proof. reflexivity. Qed.

Lemma minute_shift d : minute (shift k d) = minute d.
Proof. reflexivity. Qed.

Lemma collect_times_shift now start_time interval indices :
  collect_times (shift k now) (shift k start_time) interval indices
  = map (shift k) (collect_times now start_time interval indices).
Proof.
  induction indices as [|i indices IH]; [done|].
  cbn [collect_times]. rewrite add_shift, hour_shift, leb_shift, IH.
  destruct (POSTING_END_HOUR <=? _); [done|]. by destruct (leb _ now).
Qed.

Lemma distribute_posts_in_day_shift now start_date posts_count :
  _distribute_posts_in_day (shift k now) (shift k start_date) posts_count
  = raising_map (map (shift k))
      (_distribute_posts_in_day now start_date posts_count).
Proof.
  unfold _distribute_posts_in_day.
  rewrite !replace_hour_minute_shift, date_eqb_shift, ltb_shift.
  destruct ((date _ =? date now) && ltb _ now).
  - rewrite add_shift, replace_second_microsecond_shift, minute_shift,
      replace_minute_shift, sub_shift.
    destruct (Qltb _ (inject_Z (posts_count * min_post_interval))).
    + rewrite add_shift, !replace_hour_minute_shift, sub_shift.
      destruct (posts_count =? 0); [done|]. cbn [raising_map].
      by rewrite collect_times_shift.
    + destruct (posts_count =? 0); [done|]. cbn [raising_map].
      by rewrite collect_times_shift.
  - rewrite sub_shift.
    destruct (Qltb _ (inject_Z (posts_count * min_post_interval))).
    + rewrite add_shift, !replace_hour_minute_shift, sub_shift.
      destruct (posts_count =? 0); [done|]. cbn [raising_map].
      by rewrite collect_times_shift.
    + destruct (posts_count =? 0); [done|]. cbn [raising_map].
      by rewrite collect_times_shift.
Qed.

Lemma campaign_start_shift now start_date :
  campaign_start (shift k now) (shift k start_date)
  = shift k (campaign_start now start_date).
Proof.
  unfold campaign_start.
  rewrite replace_minute_second_microsecond_shift, ltb_shift.
  destruct (ltb _ now);
    rewrite hour_shift, replace_hour_minute_shift, !add_shift,
      replace_hour_minute_shift;
    destruct (hour _ <? _); try done; by destruct (_ <=? hour _).
Qed.

Variable isoformat : datetime -> string.

Lemma assign_slots_shift account_id post_ids a times :
  assign_slots isoformat account_id post_ids a (map (shift k) times)
  = assign_slots (fun t => isoformat (shift k t)) account_id post_ids a times.
Proof.
  revert a. induction times as [|t times IH]; intros a; [done|].
  cbn [map assign_slots]. destruct (_ <=? _)%nat; [done|]. by rewrite IH.
Qed.

Lemma schedule_loop_shift fuel now_in_day account_id post_ids posts_per_day
    start_time current_day a :
  schedule_loop isoformat fuel (fun d => shift k (now_in_day d)) account_id
    post_ids posts_per_day (shift k start_time) current_day a
  = schedule_loop (fun t => isoformat (shift k t)) fuel now_in_day account_id
      post_ids posts_per_day start_time current_day a.
Proof.
  revert current_day a. induction fuel as [|fuel IH]; intros day a; [done|].
  cbn [schedule_loop]. destruct (_ <? _); [|done].
  rewrite add_shift, distribute_posts_in_day_shift.
  destruct (_distribute_posts_in_day _ _ _) as [times|e]; [|done].
  cbn [raising_map]. by rewrite assign_slots_shift, IH.
Qed.

Lemma schedule_posts_for_account_shift fuel now0 now now_in_day w account_id
    post_ids posts_per_day start_date :
  schedule_posts_for_account isoformat fuel (shift k now0) (shift k now)
    (fun d => shift k (now_in_day d)) w account_id post_ids posts_per_day
    (shift k <$> start_date)
  = schedule_posts_for_account (fun t => isoformat (shift k t)) fuel now0 now
      now_in_day w account_id post_ids posts_per_day start_date.
Proof.
  unfold schedule_posts_for_account.
  replace (default (shift k now0) (shift k <$> start_date))
    with (shift k (default now0 start_date)) by by destruct start_date.
  rewrite campaign_start_shift, schedule_loop_shift.
  by destruct (posts_per_day =? 0).
Qed.

End Shift.

(** ** The example of seven posts, three a day *)

Lemma seven_times_shift (day : Z) :
  seven_times day = map (shift day) (seven_times 0).
Proof.
  unfold seven_times, shift. cbn [map ordinal hour minute second microsecond].
  replace (0 + day) with day by lia.
  replace (0 + 1 + day) with (day + 1) by lia.
  replace (0 + 2 + day) with (day + 2) by lia.
  reflexivity.
Qed.

(** The run of the example on day 0, for any printer of the times. *)
Lemma assign_seven_posts_day_0 (isoformat : datetime -> string)
    (start_date : option datetime) :
  start_date = None ∨ start_date = Some (mk_datetime 0 9 0 0 0) →
  let now := mk_datetime 0 9 0 0 0 in
  schedule_posts_for_account isoformat 4 now now (fun _ => now) seven_drafts
    "acc1" seven_ids 3 start_date
  = Some (Returns (seven_scheduled_world isoformat 0,
                   seven_scheduled isoformat 0)).
Proof. intros [-> | ->]; vm_compute; reflexivity. Qed.

(** C5. Seven drafts, three posts a day, the clock at 09:00:00 of some day
    and the start date left out or given as that instant. The call returns;
    the three calls of [_distribute_posts_in_day] give 09:30, 14:00 and
    18:30 on that day, then 08:00, 13:00 and 18:00 on the next day, then
    08:00 on the day after; the seven posts come back scheduled at these
    times, in order, they are stored in [scheduled/] and the account's
    calendar holds their seven entries. The times of day 0 are in
    [09:00, 23:00) and 30 minutes apart or more, those of day 1 and of day 2
    in [08:00, 23:00); the seven times increase strictly and are all after
    the clock. *)
Theorem assign_seven_posts_three_per_day (isoformat : datetime -> string)
    (day : Z) :
  let now := mk_datetime day 9 0 0 0 in
  let start := campaign_start now now in
  let times := seven_times day in
  let scheduled_posts := seven_scheduled isoformat day in
  let w' := seven_scheduled_world isoformat day in
  schedule_posts_for_account isoformat 4 now now (fun _ => now) seven_drafts
    "acc1" seven_ids 3 None
  = Some (Returns (w', scheduled_posts))
  ∧ schedule_posts_for_account isoformat 4 now now (fun _ => now)
      seven_drafts "acc1" seven_ids 3 (Some now)
    = Some (Returns (w', scheduled_posts))
  ∧ _distribute_posts_in_day now (add start (timedelta_days 0)) 3
    = Returns (take 3 times)
  ∧ _distribute_posts_in_day now (add start (timedelta_days 1)) 3
    = Returns (take 3 (drop 3 times))
  ∧ _distribute_posts_in_day now (add start (timedelta_days 2)) 1
    = Returns (drop 6 times)
  ∧ length times = 7%nat
  ∧ Forall (in_window day 9 23) (take 3 times)
  ∧ StronglySorted spaced (take 3 times)
  ∧ Forall (in_window (day + 1) 8 23) (take 3 (drop 3 times))
  ∧ Forall (in_window (day + 2) 8 23) (drop 6 times)
  ∧ StronglySorted (fun a b => ltb a b = true) times
  ∧ Forall (fun t => ltb now t = true) times.
Proof.
  intros now start times scheduled_posts w'.
  set (base := mk_datetime 0 9 0 0 0).
  assert (Hnow : now = shift day base) by reflexivity.
  assert (Hstart : start = shift day (campaign_start base base)).
  { subst start. by rewrite Hnow, campaign_start_shift. }
  assert (Hrun : ∀ start_date,
             start_date = None ∨ start_date = Some base →
             schedule_posts_for_account isoformat 4 now now (fun _ => now)
               seven_drafts "acc1" seven_ids 3 (shift day <$> start_date)
             = Some (Returns (w', scheduled_posts))).
  { intros sd Hsd. rewrite Hnow.
    rewrite (schedule_posts_for_account_shift day isoformat 4 base base
               (fun _ => base)).
    rewrite (assign_seven_posts_day_0 _ sd Hsd).
    subst w' scheduled_posts. unfold seven_scheduled_world, seven_scheduled.
    rewrite (seven_times_shift day). reflexivity. }
  assert (Hday : ∀ d n,
             _distribute_posts_in_day now (add start (timedelta_days d)) n
             = raising_map (map (shift day))
                 (_distribute_posts_in_day base
                    (add (campaign_start base base) (timedelta_days d)) n)).
  { intros d n.
    by rewrite Hnow, Hstart, add_shift, distribute_posts_in_day_shift. }
  split; [exact (Hrun None (or_introl eq_refl))|].
  split; [exact (Hrun (Some base) (or_intror eq_refl))|].
  subst times. rewrite !Hday, (seven_times_shift day).
  split; [reflexivity|]. split; [reflexivity|]. split; [reflexivity|].
  split; [reflexivity|]. rewrite <- (seven_times_shift day).
  unfold seven_times, in_window, spaced, sub, ltb, to_us, time_us.
  cbn [take drop ordinal hour minute second microsecond].
  rewrite timedelta_minutes_min_interval. subst now.
  cbn [ordinal hour minute second microsecond].
  unfold US_PER_DAY, US_PER_HOUR, US_PER_MINUTE, US_PER_SECOND.
  repeat split; repeat constructor;
    cbn [ordinal hour minute second microsecond]; rewrite ?Z.ltb_lt; lia.
Qed.

(** ** Consistent stores *)

Lemma consistent_empty : consistent empty_store.
Proof.
  split; [|split].
  - intros d k p. destruct d; cbn; by rewrite lookup_empty.
  - intros d k p. destruct d; cbn; by rewrite lookup_empty.
  - intros d d' k [p H]. destruct d; cbn in H; by rewrite lookup_empty in H.
Qed.

Lemma partitions_holding_spec st pid d :
  d ∈ partitions_holding st pid ↔ is_Some (dir st d !! pid).
Proof.
  unfold partitions_holding. rewrite list_elem_of_filter.
  split; [by intros [? _]|]. intros H. split; [done|].
  destruct d; set_solver.
Qed.

Lemma partitions_holding_one st pid d :
  is_Some (dir st d !! pid) →
  (∀ d', is_Some (dir st d' !! pid) → d' = d) →
  partitions_holding st pid = [d].
Proof.
  intros Hd Hu.
  assert (Hiff : ∀ d', is_Some (dir st d' !! pid) ↔ d' = d).
  { intros d'. split; [apply Hu|by intros ->]. }
  pose proof (Hiff DRAFTS_DIR) as H1. pose proof (Hiff SCHEDULED_DIR) as H2.
  pose proof (Hiff PUBLISHED_DIR) as H3. cbn [dir] in H1, H2, H3.
  unfold partitions_holding. cbn.
  repeat case_decide; destruct d;
    solve [done | exfalso; intuition congruence].
Qed.

Lemma get_post_unique st pid d p :
  (∀ d', is_Some (dir st d' !! pid) → d' = d) →
  dir st d !! pid = Some p → get_post st pid = Some p.
Proof.
  intros Hu Hd. rewrite get_post_dirs.
  destruct (dir st DRAFTS_DIR !! pid) as [q|] eqn:E1.
  { rewrite <- (Hu DRAFTS_DIR) in Hd by by rewrite E1. congruence. }
  destruct (dir st SCHEDULED_DIR !! pid) as [q|] eqn:E2.
  { rewrite <- (Hu SCHEDULED_DIR) in Hd by by rewrite E2. congruence. }
  destruct d; congruence.
Qed.

Lemma consistent_get_post st pid p :
  consistent st → get_post st pid = Some p →
  post_id p = pid
  ∧ dir st (_get_status_dir (post_status p)) !! pid = Some p
  ∧ (∀ d, is_Some (dir st d !! pid) → d = _get_status_dir (post_status p)).
Proof.
  intros (Hk & Hs & Hu) Hp. apply get_post_in_dir in Hp as [d Hd].
  pose proof (Hs _ _ _ Hd) as <-. split; [by eapply Hk|]. split; [done|].
  intros d' H'. apply (Hu d' _ pid H'). by rewrite Hd.
Qed.

Lemma consistent_held_once st pid p :
  consistent st → get_post st pid = Some p → held_once st pid p.
Proof.
  intros Hc Hp. destruct (consistent_get_post _ _ _ Hc Hp) as (_ & Hd & Hu).
  split; [done|]. apply partitions_holding_one; [by rewrite Hd|done].
Qed.

(** The record of [pid] is replaced: the file of the old status is removed
    and the new record [p'] is written. *)
Lemma replace_consistent st pid p p' :
  consistent st → get_post st pid = Some p → post_id p' = pid →
  let st' := _save_post (_delete_post_file st pid (post_status p)) p' in
  consistent st' ∧ held_once st' pid p' ∧ others_kept pid st st'.
Proof.
  intros Hc Hp Hid st'.
  destruct (consistent_get_post _ _ _ Hc Hp) as (_ & Hd & Hu).
  destruct Hc as (Hk & Hs & Huniq).
  assert (Hat : ∀ d, dir st' d !! pid
                     = if decide (d = _get_status_dir (post_status p'))
                       then Some p' else None).
  { intros d. subst st'. rewrite dir_save_post, dir_delete_post_file.
    rewrite Hid. destruct (decide (d = _get_status_dir (post_status p'))).
    - by rewrite decide_True.
    - rewrite decide_False by tauto.
      destruct (decide (d = _get_status_dir (post_status p))) as [->|Hne].
      + by rewrite decide_True.
      + rewrite decide_False by tauto.
        destruct (dir st d !! pid) eqn:E; [|done].
        exfalso. apply Hne, Hu. by rewrite E. }
  assert (Hother : ∀ k, k ≠ pid → same_files k st st').
  { intros k Hne. subst st'. eapply same_files_trans.
    - by apply same_files_delete_post_file.
    - apply same_files_save_post. congruence. }
  split; [|split; [|done]].
  - split; [|split].
    + by apply keys_ok_save_post, keys_ok_delete_post_file.
    + intros d k q. destruct (decide (k = pid)) as [->|Hne].
      * rewrite Hat. case_decide; [|done]. by intros [= <-].
      * rewrite (Hother k Hne d). apply Hs.
    + intros d d' k. destruct (decide (k = pid)) as [->|Hne].
      * rewrite !Hat. intros H1 H2.
        repeat case_decide; try congruence;
          by (apply is_Some_None in H1 || apply is_Some_None in H2).
      * rewrite !(Hother k Hne). apply Huniq.
  - split.
    + apply (get_post_unique _ _ (_get_status_dir (post_status p'))).
      * intros d. rewrite Hat. case_decide; [done|by intros []].
      * rewrite Hat. by rewrite decide_True.
    + apply partitions_holding_one.
      * rewrite Hat. by rewrite decide_True.
      * intros d. rewrite Hat. case_decide; [done|by intros []].
Qed.

(** The same when the old file is left in place but the new record goes to
    the same directory. *)
Lemma overwrite_consistent st pid p p' :
  consistent st → get_post st pid = Some p → post_id p' = pid →
  _get_status_dir (post_status p') = _get_status_dir (post_status p) →
  let st' := _save_post st p' in
  consistent st' ∧ held_once st' pid p' ∧ others_kept pid st st'.
Proof.
  intros Hc Hp Hid Hdir.
  assert (_save_post st p'
          = _save_post (_delete_post_file st pid (post_status p)) p') as ->.
  { unfold _save_post, _delete_post_file. rewrite Hdir, Hid.
    destruct (_get_status_dir (post_status p)); cbn;
      by rewrite insert_delete_eq. }
  by apply replace_consistent.
Qed.

Lemma get_post_None st pid :
  get_post st pid = None ↔ ∀ d, dir st d !! pid = None.
Proof.
  rewrite get_post_dirs. split.
  - intros H d.
    destruct (dir st DRAFTS_DIR !! pid) eqn:E1; [done|].
    destruct (dir st SCHEDULED_DIR !! pid) eqn:E2; [done|].
    by destruct d.
  - intros H. by rewrite !H.
Qed.

(** A record written for an id the store does not hold. *)
Lemma save_fresh_consistent st p :
  consistent st → get_post st (post_id p) = None →
  consistent (_save_post st p)
  ∧ held_once (_save_post st p) (post_id p) p
  ∧ others_kept (post_id p) st (_save_post st p).
Proof.
  intros (Hk & Hs & Hu) Hnone. rewrite get_post_None in Hnone.
  assert (Hat : ∀ d, dir (_save_post st p) d !! post_id p
                     = if decide (d = _get_status_dir (post_status p))
                       then Some p else None).
  { intros d. rewrite dir_save_post.
    destruct (decide (d = _get_status_dir (post_status p))).
    - by rewrite decide_True.
    - rewrite decide_False by tauto. apply Hnone. }
  assert (Hother : ∀ k, k ≠ post_id p → same_files k st (_save_post st p)).
  { intros k Hne. apply same_files_save_post. congruence. }
  split; [|split; [|done]].
  - split; [by apply keys_ok_save_post|]. split.
    + intros d k q. destruct (decide (k = post_id p)) as [->|Hne].
      * rewrite Hat. case_decide; [|done]. by intros [= <-].
      * rewrite (Hother k Hne d). apply Hs.
    + intros d d' k. destruct (decide (k = post_id p)) as [->|Hne].
      * rewrite !Hat. intros H1 H2.
        repeat case_decide; try congruence;
          by (apply is_Some_None in H1 || apply is_Some_None in H2).
      * rewrite !(Hother k Hne). apply Hu.
  - split.
    + apply (get_post_unique _ _ (_get_status_dir (post_status p))).
      * intros d. rewrite Hat. case_decide; [done|by intros []].
      * rewrite Hat. by rewrite decide_True.
    + apply partitions_holding_one.
      * rewrite Hat. by rewrite decide_True.
      * intros d. rewrite Hat. case_decide; [done|by intros []].
Qed.

(** A record written beside the file of another status breaks the store. *)
Lemma save_beside_inconsistent st pid p p' :
  consistent st → get_post st pid = Some p → post_id p' = pid →
  _get_status_dir (post_status p') ≠ _get_status_dir (post_status p) →
  ¬ consistent (_save_post st p').
Proof.
  intros Hc Hp Hid Hne (_ & _ & Hu).
  destruct (consistent_get_post _ _ _ Hc Hp) as (_ & Hd & _).
  apply Hne.
  apply (Hu _ _ pid).
  - rewrite dir_save_post, decide_True; [done|by split].
  - rewrite dir_save_post, decide_False by (intros [? _]; congruence).
    by rewrite Hd.
Qed.

Lemma consistent_store_with_draft : consistent store_with_draft.
Proof.
  apply (save_fresh_consistent empty_store sample_draft);
    [apply consistent_empty|reflexivity].
Qed.

Lemma consistent_store_with_scheduled : consistent store_with_scheduled.
Proof.
  apply (save_fresh_consistent empty_store sample_scheduled);
    [apply consistent_empty|reflexivity].
Qed.

Lemma consistent_store_with_published : consistent store_with_published.
Proof.
  apply (save_fresh_consistent empty_store sample_published);
    [apply consistent_empty|reflexivity].
Qed.

(** ** The store operations on a consistent store *)

(** X1. [create_post] with an id the store does not hold yet, whatever the
    status given: the store stays consistent, it holds the new record once,
    in the directory of its status, [get_post] returns it, and the files of
    the other ids are as before. *)
Theorem create_post_fresh (isoformat : datetime -> string) (st : Store)
    (now : datetime) (new_id account_id text : string) (media : list string)
    (post_format status : string)
    (Hc : consistent st) (Hfresh : get_post st new_id = None) :
  let r := create_post isoformat st now new_id account_id text media
             post_format status in
  consistent r.1 ∧ held_once r.1 new_id r.2 ∧ others_kept new_id st r.1.
Proof. by apply (save_fresh_consistent st (mk_post _ _ _ _ _ _ _ _ _ _)). Qed.

Lemma create_post_fresh_witness :
  let r := create_post Iso.isoformat store_with_draft sample_now "p2" "acc1"
             "second" ["p2.jpg"] "photo" POST_STATUS_DRAFT in
  consistent r.1 ∧ held_once r.1 "p2" r.2 ∧ others_kept "p2" store_with_draft r.1.
Proof.
  exact (create_post_fresh Iso.isoformat store_with_draft sample_now "p2"
           "acc1" "second" ["p2.jpg"] "photo" POST_STATUS_DRAFT
           consistent_store_with_draft eq_refl).
Defined.

(** X2. [update_post] on a consistent store, with updates that leave the id
    alone: for an unknown id it returns [None] and changes nothing;
    otherwise it returns the merged record, the store stays consistent and
    holds that record once, in the directory of its (possibly new) status,
    and the files of the other ids are as before. *)
Theorem update_post_consistent (st : Store) (pid : string) (updates : Updates)
    (Hc : consistent st) (Hid : upd_id updates = None) :
  match get_post st pid with
  | None => update_post st pid updates = (st, None)
  | Some p =>
      let r := update_post st pid updates in
      r.2 = Some (dict_update p updates)
      ∧ consistent r.1
      ∧ held_once r.1 pid (dict_update p updates)
      ∧ others_kept pid st r.1
  end.
Proof.
  unfold update_post. destruct (get_post st pid) as [p|] eqn:Hp; [|done].
  destruct (consistent_get_post _ _ _ Hc Hp) as (Hk & _ & _).
  assert (Hid' : post_id (dict_update p updates) = pid).
  { unfold dict_update. cbn. by rewrite Hid. }
  cbn [fst snd]. split; [done|].
  destruct (String.eqb_spec (post_status p)
              (post_status (dict_update p updates))) as [E|E]; cbn [negb].
  - apply (overwrite_consistent st pid p); [done..|by rewrite E].
  - by apply (replace_consistent st pid p).
Qed.

Lemma update_post_consistent_witness :
  let r := update_post store_with_scheduled "p1" update_to_error in
  r.2 = Some (dict_update sample_scheduled update_to_error)
  ∧ consistent r.1
  ∧ held_once r.1 "p1" (dict_update sample_scheduled update_to_error)
  ∧ others_kept "p1" store_with_scheduled r.1.
Proof.
  exact (update_post_consistent store_with_scheduled "p1" update_to_error
           consistent_store_with_scheduled eq_refl).
Defined.

Lemma status_dir_scheduled_iff s :
  _get_status_dir s = SCHEDULED_DIR ↔ s = POST_STATUS_SCHEDULED.
Proof.
  unfold _get_status_dir.
  destruct (String.eqb_spec s POST_STATUS_DRAFT) as [->|?]; [done|].
  destruct (String.eqb_spec s POST_STATUS_SCHEDULED) as [->|?]; [done|].
  by destruct (String.eqb_spec s POST_STATUS_PUBLISHED).
Qed.

Lemma status_dir_published_iff s :
  _get_status_dir s = PUBLISHED_DIR ↔ s = POST_STATUS_PUBLISHED.
Proof.
  unfold _get_status_dir.
  destruct (String.eqb_spec s POST_STATUS_DRAFT) as [->|?]; [done|].
  destruct (String.eqb_spec s POST_STATUS_SCHEDULED) as [->|?]; [done|].
  by destruct (String.eqb_spec s POST_STATUS_PUBLISHED) as [->|?].
Qed.

Lemma consistent_store_with_error : consistent store_with_error.
Proof.
  apply (save_fresh_consistent empty_store sample_error);
    [apply consistent_empty|reflexivity].
Qed.

(** X3. [schedule_post] on a post of a consistent store returns the record
    with status [scheduled] and the given time. The store stays consistent
    exactly when the post was a draft or was scheduled already; then it
    holds the new record once, in [scheduled/], and the files of the other
    ids are as before. For a post in any other status (published, error)
    the old file stays beside the new one. *)
Theorem schedule_post_consistent_iff (st : Store) (pid : string)
    (scheduled_time : string) (p : Post)
    (Hc : consistent st) (Hp : get_post st pid = Some p) :
  let r := schedule_post st pid scheduled_time in
  let p' := set_scheduled_time (set_status p POST_STATUS_SCHEDULED)
              (Some scheduled_time) in
  let from_draft_or_scheduled :=
    post_status p = POST_STATUS_DRAFT ∨ post_status p = POST_STATUS_SCHEDULED in
  r.2 = Some p'
  ∧ (consistent r.1 ↔ from_draft_or_scheduled)
  ∧ (from_draft_or_scheduled →
     held_once r.1 pid p' ∧ partitions_holding r.1 pid = [SCHEDULED_DIR]
     ∧ others_kept pid st r.1).
Proof.
  intros r p' ok. subst r. unfold schedule_post. rewrite Hp. cbn [fst snd].
  destruct (consistent_get_post _ _ _ Hc Hp) as (Hk & _ & _).
  split; [done|].
  assert (Hgood : ok →
            consistent
              (_save_post
                 (if String.eqb (post_status p) POST_STATUS_DRAFT
                  then _delete_post_file st pid POST_STATUS_DRAFT else st) p')
            ∧ held_once
                (_save_post
                   (if String.eqb (post_status p) POST_STATUS_DRAFT
                    then _delete_post_file st pid POST_STATUS_DRAFT else st)
                   p') pid p'
            ∧ others_kept pid st
                (_save_post
                   (if String.eqb (post_status p) POST_STATUS_DRAFT
                    then _delete_post_file st pid POST_STATUS_DRAFT else st)
                   p')).
  { intros H.
    destruct (String.eqb_spec (post_status p) POST_STATUS_DRAFT) as [E|E].
    - replace (_delete_post_file st pid POST_STATUS_DRAFT)
        with (_delete_post_file st pid (post_status p)) by (by rewrite E).
      by apply (replace_consistent st pid p).
    - destruct H as [H|H]; [done|].
      apply (overwrite_consistent st pid p); [done..|by rewrite H]. }
  split; [split|].
  - intros Hc'. destruct (String.eqb_spec (post_status p) POST_STATUS_DRAFT)
      as [E|E]; [by left|].
    destruct (String.eqb_spec (post_status p) POST_STATUS_SCHEDULED)
      as [E'|E']; [by right|].
    exfalso. revert Hc'. apply (save_beside_inconsistent st pid p); [done..|].
    change (SCHEDULED_DIR ≠ _get_status_dir (post_status p)).
    rewrite <- status_dir_scheduled_iff in E'. congruence.
  - by intros (? & _)%Hgood.
  - intros H. destruct (Hgood H) as (? & Hh & ?). split; [done|].
    split; [|done]. destruct Hh as [_ Hh]. exact Hh.
Qed.

Lemma schedule_post_consistent_iff_witness :
  let r := schedule_post store_with_draft "p1" "2025-10-25T16:15:00" in
  consistent r.1 ∧ partitions_holding r.1 "p1" = [SCHEDULED_DIR]
  ∧ ¬ consistent (schedule_post store_with_error "p1" "2025-10-25T16:15:00").1.
Proof.
  destruct (schedule_post_consistent_iff store_with_draft "p1"
              "2025-10-25T16:15:00" sample_draft consistent_store_with_draft
              eq_refl) as (_ & H1 & H2).
  destruct (schedule_post_consistent_iff store_with_error "p1"
              "2025-10-25T16:15:00" sample_error consistent_store_with_error
              eq_refl) as (_ & H3 & _).
  split; [apply H1; by left|]. split; [apply H2; by left|].
  intros [H|H]%H3; discriminate H.
Defined.

(** X4. [publish_post] on a post of a consistent store: the store stays
    consistent exactly when the post was scheduled or published already;
    then it holds the published record once, in [published/], and the
    files of the other ids are as before. For a draft or a post in error the
    old file stays in [drafts/] beside the published one. *)
Theorem publish_post_consistent_iff (isoformat : datetime -> string)
    (st : Store) (now : datetime) (pid : string) (p : Post)
    (Hc : consistent st) (Hp : get_post st pid = Some p) :
  let r := publish_post isoformat st now pid in
  let p' := set_published_at (set_status p POST_STATUS_PUBLISHED)
              (Some (isoformat now)) in
  let from_scheduled_or_published :=
    post_status p = POST_STATUS_SCHEDULED
    ∨ post_status p = POST_STATUS_PUBLISHED in
  (consistent r.1 ↔ from_scheduled_or_published)
  ∧ (from_scheduled_or_published →
     held_once r.1 pid p' ∧ partitions_holding r.1 pid = [PUBLISHED_DIR]
     ∧ others_kept pid st r.1).
Proof.
  intros r p' ok. subst r. unfold publish_post. rewrite Hp. cbn [fst snd].
  destruct (consistent_get_post _ _ _ Hc Hp) as (Hk & _ & _).
  assert (Hgood : ok →
            let st' :=
              _save_post
                (if String.eqb (post_status p) POST_STATUS_SCHEDULED
                 then _delete_post_file st pid POST_STATUS_SCHEDULED else st)
                p' in
            consistent st' ∧ held_once st' pid p' ∧ others_kept pid st st').
  { intros H.
    destruct (String.eqb_spec (post_status p) POST_STATUS_SCHEDULED) as [E|E].
    - replace (_delete_post_file st pid POST_STATUS_SCHEDULED)
        with (_delete_post_file st pid (post_status p)) by (by rewrite E).
      by apply (replace_consistent st pid p).
    - destruct H as [H|H]; [done|].
      apply (overwrite_consistent st pid p); [done..|by rewrite H]. }
  split; [split|].
  - intros Hc'.
    destruct (String.eqb_spec (post_status p) POST_STATUS_SCHEDULED)
      as [E|E]; [by left|].
    destruct (String.eqb_spec (post_status p) POST_STATUS_PUBLISHED)
      as [E'|E']; [by right|].
    exfalso. revert Hc'. apply (save_beside_inconsistent st pid p); [done..|].
    change (PUBLISHED_DIR ≠ _get_status_dir (post_status p)).
    rewrite <- status_dir_published_iff in E'. congruence.
  - by intros (? & _)%Hgood.
  - intros H. destruct (Hgood H) as (? & Hh & ?). split; [done|].
    split; [|done]. destruct Hh as [_ Hh]. exact Hh.
Qed.

Lemma publish_post_consistent_iff_witness :
  let r := publish_post Iso.isoformat store_with_scheduled sample_now "p1" in
  consistent r.1 ∧ partitions_holding r.1 "p1" = [PUBLISHED_DIR]
  ∧ ¬ consistent
        (publish_post Iso.isoformat store_with_draft sample_now "p1").1.
Proof.
  destruct (publish_post_consistent_iff Iso.isoformat store_with_scheduled
              sample_now "p1" sample_scheduled consistent_store_with_scheduled
              eq_refl) as (H1 & H2).
  destruct (publish_post_consistent_iff Iso.isoformat store_with_draft
              sample_now "p1" sample_draft consistent_store_with_draft
              eq_refl) as (H3 & _).
  split; [apply H1; by left|]. split; [apply H2; by left|].
  intros [H|H]%H3; discriminate H.
Defined.

(** X5. [mark_post_error] on a post of a consistent store: the store stays
    consistent exactly when the file of the post was in [drafts/] (a draft,
    or a post already in error); then it holds the record with status
    [error] and the message once, in [drafts/], and the files of the other
    ids are as before. For a scheduled or a published post the old file
    stays beside the one written to [drafts/]. *)
Theorem mark_post_error_consistent_iff (st : Store) (pid err : string)
    (p : Post) (Hc : consistent st) (Hp : get_post st pid = Some p) :
  let r := mark_post_error st pid err in
  let p' := set_error (set_status p POST_STATUS_ERROR) (Some err) in
  let from_drafts := _get_status_dir (post_status p) = DRAFTS_DIR in
  r.2 = Some p'
  ∧ (consistent r.1 ↔ from_drafts)
  ∧ (from_drafts →
     held_once r.1 pid p' ∧ partitions_holding r.1 pid = [DRAFTS_DIR]
     ∧ others_kept pid st r.1).
Proof.
  intros r p' ok. subst r. unfold mark_post_error. rewrite Hp. cbn [fst snd].
  destruct (consistent_get_post _ _ _ Hc Hp) as (Hk & _ & _).
  split; [done|].
  assert (Hgood : ok →
            consistent (_save_post st p') ∧ held_once (_save_post st p') pid p'
            ∧ others_kept pid st (_save_post st p')).
  { intros E. apply (overwrite_consistent st pid p); [done..|].
    by rewrite E. }
  split; [split|].
  - intros Hc'. destruct (decide (_get_status_dir (post_status p) = DRAFTS_DIR))
      as [E|E]; [done|].
    exfalso. revert Hc'. apply (save_beside_inconsistent st pid p); [done..|].
    change (DRAFTS_DIR ≠ _get_status_dir (post_status p)). congruence.
  - by intros (? & _)%Hgood.
  - intros H. destruct (Hgood H) as (? & Hh & ?). split; [done|].
    split; [|done]. destruct Hh as [_ Hh]. exact Hh.
Qed.

Lemma mark_post_error_consistent_iff_witness :
  let r := mark_post_error store_with_draft "p1" "boom" in
  consistent r.1 ∧ partitions_holding r.1 "p1" = [DRAFTS_DIR]
  ∧ ¬ consistent (mark_post_error store_with_scheduled "p1" "boom").1.
Proof.
  destruct (mark_post_error_consistent_iff store_with_draft "p1" "boom"
              sample_draft consistent_store_with_draft eq_refl)
    as (_ & H1 & H2).
  destruct (mark_post_error_consistent_iff store_with_scheduled "p1" "boom"
              sample_scheduled consistent_store_with_scheduled eq_refl)
    as (_ & H3 & _).
  split; [by apply H1|]. split; [by apply H2|].
  intros H%H3. discriminate H.
Defined.

(** X6. [delete_post] on a consistent store: afterwards no directory holds
    the id and [get_post] finds nothing, the store is still consistent and
    the files of the other ids are as before; an id that is not held leaves
    the store as it is, so deleting twice is deleting once. *)
Theorem delete_post_consistent (st : Store) (pid : string)
    (Hc : consistent st) :
  let st' := delete_post st pid in
  consistent st' ∧ get_post st' pid = None
  ∧ partitions_holding st' pid = [] ∧ others_kept pid st st'
  ∧ (get_post st pid = None → st' = st)
  ∧ delete_post st' pid = st'.
Proof.
  intros st'.
  assert (Hno_op : ∀ s, get_post s pid = None → delete_post s pid = s).
  { intros s H. unfold delete_post. by rewrite H. }
  destruct (get_post st pid) as [p|] eqn:Hp.
  - assert (E : st' = _delete_post_file st pid (post_status p)).
    { subst st'. unfold delete_post. by rewrite Hp. }
    rewrite E. clear E st'.
    destruct (consistent_get_post _ _ _ Hc Hp) as (_ & Hd & Hu).
    destruct Hc as (Hk & Hs & Huniq).
    assert (Hnone : ∀ d,
              dir (_delete_post_file st pid (post_status p)) d !! pid = None).
    { intros d. rewrite dir_delete_post_file. case_decide as H; [done|].
      destruct (dir st d !! pid) eqn:E; [|done].
      exfalso. apply H. split; [|done]. apply Hu. by rewrite E. }
    assert (Hg : get_post (_delete_post_file st pid (post_status p)) pid
                 = None) by by apply get_post_None.
    split; [|split; [done|split; [|split; [|split; [done|]]]]].
    + split; [by apply keys_ok_delete_post_file|]. split.
      * intros d k q. rewrite dir_delete_post_file. case_decide; [done|].
        apply Hs.
      * intros d d' k. rewrite !dir_delete_post_file.
        repeat case_decide; try (by intros ?%is_Some_None);
          try (by intros _ ?%is_Some_None). apply Huniq.
    + unfold partitions_holding. rewrite !filter_cons, filter_nil.
      repeat case_decide; try done;
        match goal with H : is_Some _ |- _ =>
          rewrite Hnone in H; by apply is_Some_None in H end.
    + intros k Hne. by apply same_files_delete_post_file.
    + by apply Hno_op.
  - assert (E : st' = st) by by apply Hno_op.
    rewrite E. clear E st'.
    assert (Hnone : ∀ d, dir st d !! pid = None) by by apply get_post_None.
    split; [done|]. split; [done|]. split.
    + unfold partitions_holding. rewrite !filter_cons, filter_nil.
      repeat case_decide; try done;
        match goal with H : is_Some _ |- _ =>
          rewrite Hnone in H; by apply is_Some_None in H end.
    + split; [by intros k _ d|]. split; [done|]. by apply Hno_op.
Qed.

Lemma delete_post_consistent_witness :
  let st' := delete_post store_with_scheduled "p1" in
  get_post st' "p1" = None ∧ partitions_holding st' "p1" = [].
Proof.
  destruct (delete_post_consistent store_with_scheduled "p1"
              consistent_store_with_scheduled) as (_ & H1 & H2 & _).
  by split.
Defined.

(** X7. Deleting a post that was marked as failed while it was scheduled
    brings the scheduled post back: [mark_post_error] leaves the file in
    [scheduled/], [delete_post] removes only the file in [drafts/], and the
    store is the one before the failure, where [get_post] finds the
    scheduled record again. *)
Theorem delete_after_error_restores (st : Store) (pid err : string)
    (p : Post) (Hc : consistent st) (Hp : get_post st pid = Some p)
    (Hs : post_status p = POST_STATUS_SCHEDULED) :
  let failed := (mark_post_error st pid err).1 in
  delete_post failed pid = st ∧ get_post (delete_post failed pid) pid = Some p.
Proof.
  intros failed.
  assert (E : delete_post failed pid = st); [|by rewrite E].
  subst failed. unfold mark_post_error. rewrite Hp. cbn [fst snd].
  destruct (consistent_get_post _ _ _ Hc Hp) as (Hk & Hd & Hu).
  set (p' := set_error (set_status p POST_STATUS_ERROR) (Some err)).
  assert (Hnone : dir st DRAFTS_DIR !! pid = None).
  { destruct (dir st DRAFTS_DIR !! pid) eqn:E; [|done].
    assert (DRAFTS_DIR = _get_status_dir (post_status p)) as H
      by (apply Hu; by rewrite E).
    rewrite Hs in H. discriminate H. }
  assert (Hg : get_post (_save_post st p') pid = Some p').
  { rewrite get_post_dirs, dir_save_post. rewrite decide_True; [done|].
    split; [done|]. by rewrite <- Hk. }
  unfold delete_post. rewrite Hg.
  unfold _delete_post_file, _save_post.
  change (_get_status_dir (post_status p')) with DRAFTS_DIR.
  change (post_id p') with (post_id p). rewrite Hk.
  destruct st as [dr sc pu]. cbn in Hnone |- *.
  f_equal. rewrite delete_insert_eq. by apply delete_id.
Qed.

Lemma delete_after_error_restores_witness :
  delete_post (mark_post_error store_with_scheduled "p1" "boom").1 "p1"
  = store_with_scheduled.
Proof.
  exact (proj1 (delete_after_error_restores store_with_scheduled "p1" "boom"
                  sample_scheduled consistent_store_with_scheduled eq_refl
                  eq_refl)).
Defined.

Lemma remove_from_schedule_lookup sch pid account_id :
  get_scheduled_posts_for_account (remove_from_schedule sch pid) account_id
  = filter (fun item => entry_post_id item ≠ pid)
      (get_scheduled_posts_for_account sch account_id).
Proof.
  unfold get_scheduled_posts_for_account, remove_from_schedule.
  rewrite lookup_fmap. by destruct (sch !! account_id).
Qed.

Lemma mark_as_published_lookup sch pid account_id :
  get_scheduled_posts_for_account (mark_as_published sch pid) account_id
  = map (fun item =>
           if String.eqb (entry_post_id item) pid
           then mk_entry (entry_post_id item) (entry_scheduled_time item)
                  "published"
           else item)
      (get_scheduled_posts_for_account sch account_id).
Proof.
  unfold get_scheduled_posts_for_account, mark_as_published.
  rewrite lookup_fmap. by destruct (sch !! account_id).
Qed.

Lemma filter_filter_same {A} (P : A → Prop) `{∀ x, Decision (P x)}
    (l : list A) :
  filter P (filter P l) = filter P l.
Proof.
  induction l as [|x l IH]; [done|]. rewrite filter_cons.
  case_decide; [|done]. rewrite filter_cons, decide_True by done.
  by rewrite IH.
Qed.

Lemma filter_all {A} (P : A → Prop) `{∀ x, Decision (P x)} (l : list A) :
  Forall P l → filter P l = l.
Proof.
  induction 1 as [|x l Hx _ IH]; [done|].
  by rewrite filter_cons, decide_True, IH.
Qed.

(** X8. [remove_from_schedule] and the list of an account read by
    [get_scheduled_posts_for_account]: afterwards no entry of the account
    names the post, the entries that stay are the other entries in their
    order, the entries of every other post are as before, the accounts of
    the schedule are the same (an account can keep an empty list), a post
    that had no entry leaves the list as it is, and removing twice is
    removing once. *)
Theorem remove_from_schedule_spec (sch : Schedule) (pid account_id : string) :
  let items := get_scheduled_posts_for_account sch account_id in
  let sch' := remove_from_schedule sch pid in
  let items' := get_scheduled_posts_for_account sch' account_id in
  (pid ∉ entry_ids items')
  ∧ items' `sublist_of` items
  ∧ (∀ k, k ≠ pid →
       entries_of sch' account_id k = entries_of sch account_id k)
  ∧ dom sch' = dom sch
  ∧ (pid ∉ entry_ids items → items' = items)
  ∧ remove_from_schedule sch' pid = sch'.
Proof.
  intros items sch' items'.
  assert (E : items' = filter (fun item => entry_post_id item ≠ pid) items)
    by apply remove_from_schedule_lookup.
  split.
  { rewrite E. unfold entry_ids. rewrite list_elem_of_fmap.
    intros (e & -> & He). apply list_elem_of_filter in He as [He _]. done. }
  split; [rewrite E; apply sublist_filter|].
  split.
  { intros k Hk. unfold entries_of.
    change (default [] (sch' !! account_id)) with items'.
    change (default [] (sch !! account_id)) with items.
    rewrite E. clear E. induction items as [|e l IH]; [done|].
    rewrite (filter_cons _ e l), (filter_cons (fun e => entry_post_id e = k)).
    destruct (decide (entry_post_id e = k)) as [Ek|Ek].
    - rewrite decide_True by congruence.
      rewrite filter_cons, decide_True by done. by rewrite IH.
    - case_decide; [|done]. rewrite filter_cons, decide_False by done. done. }
  split; [apply dom_fmap_L|].
  split.
  { intros Hn. rewrite E. apply filter_all, Forall_forall. intros e He Heq.
    apply Hn. rewrite <- Heq. unfold entry_ids. by apply list_elem_of_fmap_2. }
  subst sch'. unfold remove_from_schedule. rewrite <- map_fmap_compose.
  apply map_fmap_ext. intros k l _. cbn. apply filter_filter_same.
Qed.

(** X9. [mark_as_published] and the list of an account: the entries keep
    their post ids and their times, in order; every entry of the post has
    status [published] afterwards and the entries of the other posts are as
    before; marking twice is marking once, and the mark does not keep
    [remove_from_schedule] from removing the entries. *)
Theorem mark_as_published_spec (sch : Schedule) (pid account_id : string) :
  let items := get_scheduled_posts_for_account sch account_id in
  let sch' := mark_as_published sch pid in
  let items' := get_scheduled_posts_for_account sch' account_id in
  entry_ids items' = entry_ids items
  ∧ entry_scheduled_time <$> items' = entry_scheduled_time <$> items
  ∧ (∀ e, e ∈ entries_of sch' account_id pid → entry_status e = "published")
  ∧ (∀ k, k ≠ pid →
       entries_of sch' account_id k = entries_of sch account_id k)
  ∧ mark_as_published sch' pid = sch'
  ∧ remove_from_schedule sch' pid = remove_from_schedule sch pid.
Proof.
  intros items sch' items'.
  set (f := fun item =>
              if String.eqb (entry_post_id item) pid
              then mk_entry (entry_post_id item) (entry_scheduled_time item)
                     "published"
              else item).
  assert (E : items' = map f items) by apply mark_as_published_lookup.
  assert (Hid : ∀ e, entry_post_id (f e) = entry_post_id e).
  { intros e. unfold f. by destruct (String.eqb _ _). }
  split.
  { rewrite E. unfold entry_ids. clear E.
    induction items as [|e l IH]; [done|]. cbn. by rewrite Hid, IH. }
  split.
  { rewrite E. clear E. induction items as [|e l IH]; [done|]. cbn.
    rewrite IH. f_equal. unfold f. by destruct (String.eqb _ _). }
  split.
  { intros e. unfold entries_of.
    change (default [] (sch' !! account_id)) with items'. rewrite E.
    intros [He Hin]%list_elem_of_filter.
    apply list_elem_of_In, in_map_iff in Hin as (e0 & <- & _).
    rewrite Hid in He. unfold f.
    by rewrite (proj2 (String.eqb_eq _ _) He). }
  split.
  { intros k Hk. unfold entries_of.
    change (default [] (sch' !! account_id)) with items'.
    change (default [] (sch !! account_id)) with items.
    rewrite E. clear E. induction items as [|e l IH]; [done|].
    cbn [map]. rewrite !filter_cons, Hid, IH.
    case_decide as Ek; [|done]. f_equal. unfold f.
    destruct (String.eqb_spec (entry_post_id e) pid); [congruence|done]. }
  split.
  { subst sch'. unfold mark_as_published. rewrite <- map_fmap_compose.
    apply map_fmap_ext. intros k l _. change (map f (map f l) = map f l).
    rewrite map_map. apply map_ext. intros e.
    assert (Hf : ∀ x, f x = if String.eqb (entry_post_id x) pid
                            then mk_entry (entry_post_id x)
                                   (entry_scheduled_time x) "published"
                            else x) by done.
    rewrite (Hf (f e)), Hid, (Hf e).
    by destruct (String.eqb (entry_post_id e) pid). }
  subst sch'. unfold mark_as_published, remove_from_schedule.
  rewrite <- map_fmap_compose. apply map_fmap_ext. intros k l _.
  change (filter (fun item => entry_post_id item ≠ pid) (map f l)
          = filter (fun item => entry_post_id item ≠ pid) l).
  induction l as [|e l IH]; [done|]. cbn [map].
  rewrite !filter_cons, Hid, IH. case_decide as Ek; [|done].
  f_equal. unfold f.
  destruct (String.eqb_spec (entry_post_id e) pid); [congruence|done].
Qed.

(** ** The listings *)

Lemma ltb_asym s1 s2 : String.ltb s1 s2 = true → String.ltb s2 s1 = false.
Proof.
  unfold String.ltb. rewrite (String.compare_antisym s1 s2).
  by destruct (String.compare s2 s1).
Qed.

Lemma ltb_cotrans s1 s2 s3 :
  String.ltb s1 s3 = true →
  String.ltb s1 s2 = true ∨ String.ltb s2 s3 = true.
Proof.
  intros H.
  assert (Hlt : ∀ a b, String.ltb a b = true ↔ OrdersEx.String_as_OT.lt a b).
  { intros a b. unfold String.ltb, OrdersEx.String_as_OT.lt.
    change (OrdersEx.String_as_OT.compare a b) with (String.compare a b).
    by destruct (String.compare a b). }
  destruct (OrdersEx.String_as_OT.compare_spec s1 s2) as [E|E|E].
  - right. by rewrite <- E.
  - left. by apply Hlt.
  - right. apply Hlt. apply Hlt in H.
    by etransitivity.
Qed.

Lemma newest_first_trans a b c :
  newest_first a b → newest_first b c → newest_first a c.
Proof.
  unfold newest_first. intros Hab Hbc.
  destruct (String.ltb (post_created_at a) (post_created_at c)) eqn:E;
    [|done].
  destruct (ltb_cotrans _ (post_created_at b) _ E); congruence.
Qed.

Lemma insert_by_created_at_sorted x l :
  StronglySorted newest_first l →
  StronglySorted newest_first (insert_by_created_at x l).
Proof.
  induction 1 as [|y l Hl IH Hy]; cbn; [repeat constructor|].
  destruct (String.ltb (post_created_at x) (post_created_at y)) eqn:E.
  - constructor; [done|]. apply Forall_forall. intros z.
    rewrite elem_of_insert_by_created_at. intros [->|Hz].
    + by apply ltb_asym.
    + rewrite Forall_forall in Hy. by apply Hy.
  - constructor; [by constructor|]. constructor; [done|].
    eapply Forall_impl; [exact Hy|]. intros z Hz.
    by apply (newest_first_trans x y z).
Qed.

Lemma sort_by_created_at_sorted l :
  StronglySorted newest_first (sort_by_created_at l).
Proof.
  unfold sort_by_created_at. induction l as [|x l IH]; cbn; [constructor|].
  by apply insert_by_created_at_sorted.
Qed.

Lemma insert_by_created_at_perm x l : insert_by_created_at x l ≡ₚ x :: l.
Proof.
  induction l as [|y l IH]; cbn; [done|].
  destruct (String.ltb _ _); [|done]. rewrite IH. apply perm_swap.
Qed.

Lemma sort_by_created_at_perm l : sort_by_created_at l ≡ₚ l.
Proof.
  unfold sort_by_created_at. induction l as [|x l IH]; cbn; [done|].
  by rewrite insert_by_created_at_perm, IH.
Qed.

Lemma length_glob (m : gmap string Post) : length (glob m) = size m.
Proof. unfold glob. by rewrite length_fmap, length_map_to_list. Qed.

(** X10. [get_all_posts]: without a status (or with the empty string) the
    listing holds exactly the records of the files of the three
    directories, each file once; with a status it holds exactly the records
    of the directory of that status; in each case the listing is ordered by
    [created_at], newest first. *)
Theorem get_all_posts_spec (st : Store) :
  (∀ p, p ∈ get_all_posts st None ↔ has_file st p)
  ∧ length (get_all_posts st None)
    = (size (drafts st) + size (scheduled st) + size (published st))%nat
  ∧ get_all_posts st (Some "") = get_all_posts st None
  ∧ (∀ s p, s ≠ "" →
       p ∈ get_all_posts st (Some s)
       ↔ ∃ k, dir st (_get_status_dir s) !! k = Some p)
  ∧ (∀ s, s ≠ "" →
       length (get_all_posts st (Some s))
       = size (dir st (_get_status_dir s)))
  ∧ ∀ status, StronglySorted newest_first (get_all_posts st status).
Proof.
  split.
  { intros p. unfold get_all_posts, has_file. cbn [flat_map].
    rewrite elem_of_sort_by_created_at, app_nil_r, !elem_of_app.
    rewrite !elem_of_glob. split.
    - intros [H|[H|H]]; eauto.
    - intros ([] & k & H); eauto. }
  split.
  { unfold get_all_posts. rewrite sort_by_created_at_perm. cbn [flat_map].
    rewrite app_nil_r, !length_app, !length_glob. cbn [dir]. lia. }
  split; [done|].
  assert (Hs : ∀ s, s ≠ "" →
            get_all_posts st (Some s)
            = sort_by_created_at (glob (dir st (_get_status_dir s)))).
  { intros s Hs. unfold get_all_posts.
    destruct (String.eqb_spec s ""); [done|]. cbn [flat_map].
    by rewrite app_nil_r. }
  split.
  { intros s p H. rewrite (Hs s H), elem_of_sort_by_created_at.
    apply elem_of_glob. }
  split.
  { intros s H. by rewrite (Hs s H), sort_by_created_at_perm, length_glob. }
  intros status. apply sort_by_created_at_sorted.
Qed.

Lemma glob_ids_NoDup (m : gmap string Post) :
  (∀ k p, m !! k = Some p → post_id p = k) → NoDup (post_id <$> glob m).
Proof.
  intros Hk. unfold glob.
  assert (E : post_id <$> (map_to_list m).*2 = (map_to_list m).*1).
  { rewrite <- list_fmap_compose. apply list_fmap_ext.
    intros i [k p] Hi. cbn. apply Hk.
    apply list_elem_of_lookup_2 in Hi. by apply elem_of_map_to_list in Hi. }
  rewrite E. apply NoDup_fst_map_to_list.
Qed.

Lemma elem_of_glob_ids (m : gmap string Post) k :
  (∀ k p, m !! k = Some p → post_id p = k) →
  k ∈ post_id <$> glob m ↔ is_Some (m !! k).
Proof.
  intros Hk. rewrite list_elem_of_fmap. split.
  - intros (p & -> & [k' Hp]%elem_of_glob).
    rewrite (Hk _ _ Hp). by rewrite Hp.
  - intros [p Hp]. exists p. split; [by rewrite (Hk _ _ Hp)|].
    apply elem_of_glob. by exists k.
Qed.

Lemma listed_ids_NoDup st :
  consistent st →
  NoDup (post_id <$>
           flat_map (fun d => glob (dir st d))
             [DRAFTS_DIR; SCHEDULED_DIR; PUBLISHED_DIR]).
Proof.
  intros (Hk & _ & Hu). cbn [flat_map]. rewrite app_nil_r, !fmap_app.
  assert (Hin : ∀ d k, k ∈ post_id <$> glob (dir st d)
                       ↔ is_Some (dir st d !! k)).
  { intros d k. apply elem_of_glob_ids. intros ? ?. apply Hk. }
  apply NoDup_app. split; [apply glob_ids_NoDup; intros ? ?; apply Hk|].
  split.
  - intros k H1%Hin. rewrite elem_of_app, !Hin.
    intros [H2|H2]; by specialize (Hu _ _ _ H1 H2).
  - apply NoDup_app. split; [apply glob_ids_NoDup; intros ? ?; apply Hk|].
    split; [|apply glob_ids_NoDup; intros ? ?; apply Hk].
    intros k H1%Hin H2%Hin. by specialize (Hu _ _ _ H1 H2).
Qed.

(** X11. [get_posts_by_account] on a consistent store: without a status the
    listing holds exactly the posts of the account that [get_post] finds;
    with a status it holds exactly those whose file is in the directory of
    that status, so that asking for [draft] and asking for [error] give the
    same listing; the listing names no post twice and is ordered by
    [created_at], newest first. *)
Theorem get_posts_by_account_consistent (st : Store) (account_id : string)
    (Hc : consistent st) :
  (∀ p, p ∈ get_posts_by_account st account_id None
        ↔ get_post st (post_id p) = Some p ∧ post_account_id p = account_id)
  ∧ (∀ s p, s ≠ "" →
       p ∈ get_posts_by_account st account_id (Some s)
       ↔ get_post st (post_id p) = Some p ∧ post_account_id p = account_id
         ∧ _get_status_dir (post_status p) = _get_status_dir s)
  ∧ get_posts_by_account st account_id (Some POST_STATUS_ERROR)
    = get_posts_by_account st account_id (Some POST_STATUS_DRAFT)
  ∧ ∀ status,
      NoDup (post_id <$> get_posts_by_account st account_id status)
      ∧ StronglySorted newest_first
          (get_posts_by_account st account_id status).
Proof.
  assert (Hfile : ∀ d k p, dir st d !! k = Some p →
            k = post_id p ∧ get_post st (post_id p) = Some p
            ∧ _get_status_dir (post_status p) = d).
  { intros d k p H. destruct Hc as (Hk & Hs & Hu).
    rewrite (Hk _ _ _ H). split; [done|]. split; [|by apply (Hs d k)].
    apply (get_post_unique _ _ d); [|done].
    intros d' Hd'. apply (Hu d' d k); [done|by rewrite H]. }
  split.
  { intros p. unfold get_posts_by_account.
    rewrite elem_of_sort_by_created_at, list_elem_of_filter.
    cbn [flat_map]. rewrite app_nil_r, !elem_of_app, !elem_of_glob. split.
    - intros [Ha [[k H]|[[k H]|[k H]]]]; split; try done;
        by apply (Hfile _ _ _ H).
    - intros [Hp Ha]. split; [done|].
      apply get_post_in_dir in Hp as [[] Hd]; eauto. }
  split.
  { intros s p Hs. unfold get_posts_by_account.
    destruct (String.eqb_spec s ""); [done|].
    rewrite elem_of_sort_by_created_at, list_elem_of_filter.
    cbn [flat_map]. rewrite app_nil_r, elem_of_glob. split.
    - intros [Ha [k H]]. destruct (Hfile _ _ _ H) as (_ & ? & ?). done.
    - intros (Hp & Ha & Hd). split; [done|]. exists (post_id p).
      rewrite <- Hd. by apply (consistent_get_post _ _ _ Hc Hp). }
  split; [done|].
  intros status. split; [|apply sort_by_created_at_sorted].
  unfold get_posts_by_account. rewrite sort_by_created_at_perm.
  eapply sublist_NoDup; [|apply fmap_sublist, sublist_filter].
  assert (Hone : ∀ s,
            NoDup (post_id <$>
                     flat_map (fun d => glob (dir st d)) [_get_status_dir s])).
  { intros s. cbn [flat_map]. rewrite app_nil_r. apply glob_ids_NoDup.
    intros ? ?. apply Hc. }
  destruct status as [s|]; [|by apply listed_ids_NoDup].
  destruct (String.eqb s ""); [by apply listed_ids_NoDup|apply Hone].
Qed.

Lemma get_posts_by_account_consistent_witness :
  get_posts_by_account store_with_error "acc1" (Some POST_STATUS_DRAFT)
  = [sample_error]
  ∧ sample_error ∈ get_posts_by_account store_with_error "acc1" None.
Proof.
  destruct (get_posts_by_account_consistent store_with_error "acc1"
              consistent_store_with_error) as (H1 & _ & H3 & _).
  split; [by rewrite <- H3|]. by apply H1.
Defined.

(** ** What a batch schedules *)

Section BatchFound.

Variable isoformat : datetime -> string.

Lemma assign_slot_invariant w account_id post_ids a t :
  batch_invariant w account_id post_ids a →
  batch_invariant w account_id post_ids
    (assign_slot isoformat account_id post_ids a t).
Proof.
  intros (Hk & Hf & Hl & He & Hs & Hd).
  destruct (post_ids !! a_post_index a) as [k|] eqn:Hi;
    [|by unfold assign_slot; rewrite Hi].
  destruct (get_post (posts (a_world a)) k) as [p|] eqn:Hg.
  - pose proof (keys_ok_get_post _ _ _ Hk Hg) as Hid.
    assert (Hfound : is_Some (get_post (posts w) k)) by (apply Hf; by rewrite Hg).
    rewrite (assign_slot_found _ _ _ _ _ _ _ Hi Hg). unfold batch_invariant.
    cbn [a_world a_scheduled_posts a_post_index posts schedule].
    rewrite (take_S_r _ _ _ Hi). unfold found_ids in *.
    rewrite filter_app, (filter_cons_True _ k []) by done. rewrite filter_nil.
    set (p' := set_scheduled_time (set_status p POST_STATUS_SCHEDULED)
                 (Some (isoformat t))).
    assert (Hfile : dir (schedule_post (posts (a_world a)) k (isoformat t)).1
                      SCHEDULED_DIR !! k = Some p').
    { unfold schedule_post. rewrite Hg. cbn [fst]. rewrite dir_save_post.
      rewrite decide_True; [done|]. split; [done|]. by rewrite <- Hid. }
    split; [by apply schedule_post_keys|]. split; [|split; [|split; [|split]]].
    + intros pid. destruct (decide (pid = k)) as [->|Hne].
      * split; [done|]. intros _. by eapply get_post_is_Some.
      * rewrite (same_files_get_post pid _ _
                   (schedule_post_other _ k (isoformat t) pid Hk
                      (not_eq_sym Hne))). apply Hf.
    + rewrite fmap_app, Hl. cbn. by rewrite Hid.
    + unfold get_scheduled_posts_for_account in *. rewrite lookup_insert_eq.
      cbn [from_option id]. unfold entry_ids in *. rewrite fmap_app, He.
      by rewrite <- app_assoc.
    + apply Forall_app. split; [done|]. by repeat constructor.
    + intros pid [Hin|Hin%list_elem_of_singleton]%elem_of_app.
      * destruct (decide (pid = k)) as [->|Hne].
        -- exists p'. split; [done|]. apply elem_of_app. right.
           by apply list_elem_of_singleton.
        -- destruct (Hd pid Hin) as (q & Hq & Hq'). exists q. split.
           ++ change (scheduled ?s) with (dir s SCHEDULED_DIR).
              by rewrite (schedule_post_other _ k (isoformat t) pid Hk
                            (not_eq_sym Hne) SCHEDULED_DIR).
           ++ apply elem_of_app. by left.
      * subst pid. exists p'. split; [done|]. apply elem_of_app. right.
        by apply list_elem_of_singleton.
  - rewrite (assign_slot_missing _ _ _ _ _ _ Hi Hg). unfold batch_invariant.
    cbn [a_world a_scheduled_posts a_post_index].
    rewrite (take_S_r _ _ _ Hi). unfold found_ids in *.
    rewrite filter_app, (filter_cons_False _ k []), filter_nil, app_nil_r;
      [done|].
    rewrite <- Hf, Hg. by intros ?%is_Some_None.
Qed.

Lemma assign_slots_invariant w account_id post_ids times a :
  batch_invariant w account_id post_ids a →
  batch_invariant w account_id post_ids
    (assign_slots isoformat account_id post_ids a times).
Proof.
  revert a. induction times as [|t times IH]; intros a H; [done|].
  cbn. destruct (_ <=? _)%nat; [done|]. by apply IH, assign_slot_invariant.
Qed.

Lemma schedule_loop_invariant w fuel now_in_day account_id post_ids
    posts_per_day start_time current_day a a' :
  schedule_loop isoformat fuel now_in_day account_id post_ids posts_per_day
    start_time current_day a = Some (Returns a') →
  batch_invariant w account_id post_ids a →
  batch_invariant w account_id post_ids a'
  ∧ (length post_ids ≤ a_post_index a')%nat.
Proof.
  revert current_day a. induction fuel as [|fuel IH]; intros day a; [done|].
  cbn. destruct (_ <? _) eqn:E.
  - destruct (_distribute_posts_in_day _ _ _) as [times|e]; [|done].
    intros Hrun H. eapply IH; [exact Hrun|]. by apply assign_slots_invariant.
  - intros [= <-] H. split; [done|]. apply Z.ltb_ge in E. lia.
Qed.

End BatchFound.

(** X12. A batch that returns gave every id its turn ([posts_per_day] is
    not 0: the division of [days_needed] raises before the loop, and the
    one in [_distribute_posts_in_day] in the model): the returned posts
    are, in order, the ids of the batch that [get_post] found before the
    batch (whatever their status), each with status [scheduled] and a time;
    the account's list in the schedule grew by one entry for each of them,
    in the same order; and [scheduled/] holds, for each of them, a record
    that is among the returned ones. *)
Theorem batch_schedules_found_posts (isoformat : datetime -> string)
    (fuel : nat) (now0 now : datetime) (now_in_day : Z -> datetime)
    (w : World) (account_id : string) (post_ids : list string)
    (posts_per_day : Z) (start_date : option datetime)
    (w' : World) (scheduled_posts : list Post)
    (Hkeys : keys_ok (posts w)) (Hper_day : posts_per_day ≠ 0)
    (Hrun : schedule_posts_for_account isoformat fuel now0 now now_in_day w
              account_id post_ids posts_per_day start_date
            = Some (Returns (w', scheduled_posts))) :
  post_id <$> scheduled_posts = found_ids w post_ids
  ∧ entry_ids (get_scheduled_posts_for_account (schedule w') account_id)
    = entry_ids (get_scheduled_posts_for_account (schedule w) account_id)
      ++ found_ids w post_ids
  ∧ Forall (fun p => post_status p = POST_STATUS_SCHEDULED
                     ∧ is_Some (post_scheduled_time p)) scheduled_posts
  ∧ (∀ pid, pid ∈ post_ids → is_Some (get_post (posts w) pid) →
       ∃ p, scheduled (posts w') !! pid = Some p ∧ p ∈ scheduled_posts
            ∧ p ∈ get_scheduled_posts (posts w'))
  ∧ (length scheduled_posts ≤ length post_ids)%nat.
Proof.
  unfold schedule_posts_for_account in Hrun.
  destruct (posts_per_day =? 0); [done|].
  destruct (schedule_loop _ _ _ _ _ _ _ _ _) as [[a'|e]|] eqn:Hloop;
    [|done..].
  injection Hrun as <- <-.
  apply (schedule_loop_invariant isoformat w) in Hloop as [Hinv Hlen].
  - destruct Hinv as (Hk & Hf & Hl & He & Hs & Hd).
    rewrite take_ge in Hl, He, Hd by done.
    split; [done|]. split; [done|]. split; [done|]. split.
    + intros pid Hin Hfound.
      destruct (Hd pid) as (p & Hp & Hp').
      { unfold found_ids. by apply list_elem_of_filter. }
      exists p. split; [done|]. split; [done|].
      apply elem_of_get_scheduled_posts. by exists pid.
    + rewrite <- (length_fmap post_id), Hl. unfold found_ids.
      apply length_filter.
  - unfold batch_invariant. cbn [a_world a_scheduled_posts a_post_index].
    rewrite take_0. unfold found_ids. rewrite filter_nil, app_nil_r.
    split; [done|]. split; [done|]. split; [done|]. split; [done|].
    split; [constructor|]. by intros pid ?%elem_of_nil.
Qed.

Lemma batch_schedules_found_posts_witness :
  found_ids (mk_world store_with_draft ∅) ["ghost"; "p1"] = ["p1"]
  ∧ post_id <$> [sample_assigned] = ["p1"]
  ∧ entry_ids (get_scheduled_posts_for_account (schedule world_after_batch)
                 "acc1") = ["p1"].
Proof.
  assert (Hrun :
    schedule_posts_for_account Iso.isoformat 2 sample_now sample_now
      (fun _ => sample_now) (mk_world store_with_draft ∅) "acc1"
      ["ghost"; "p1"] 3 None
    = Some (Returns (world_after_batch, [sample_assigned])))
    by (vm_compute; reflexivity).
  destruct (batch_schedules_found_posts Iso.isoformat 2 sample_now sample_now
              (fun _ => sample_now) (mk_world store_with_draft ∅) "acc1"
              ["ghost"; "p1"] 3 None world_after_batch [sample_assigned]
              keys_ok_store_with_draft ltac:(done) Hrun) as (H1 & H2 & _).
  split; [reflexivity|]. split; [exact H1|]. exact H2.
Defined.

(** ** Dates and times of day *)

Lemma valid_of_us (x : Z) : valid (of_us x).
Proof.
  unfold valid, of_us. cbn [hour minute second microsecond].
  unfold US_PER_DAY, US_PER_HOUR, US_PER_MINUTE, US_PER_SECOND.
  pose proof (Z.mod_pos_bound x (24 * (60 * (60 * 1000000))) ltac:(lia)).
  set (r := x mod (24 * (60 * (60 * 1000000)))) in *.
  split; [split; [apply Z.div_pos; lia|apply Z.div_lt_upper_bound; lia]|].
  split; [apply Z.mod_pos_bound; lia|].
  split; apply Z.mod_pos_bound; lia.
Qed.

Lemma time_us_range (d : datetime) :
  valid d → 0 <= time_us d < US_PER_DAY.
Proof.
  unfold valid, time_us, US_PER_DAY, US_PER_HOUR, US_PER_MINUTE,
    US_PER_SECOND. lia.
Qed.

Lemma valid_to_us (d : datetime) :
  valid d →
  ordinal d * US_PER_DAY + hour d * US_PER_HOUR <= to_us d
  ∧ to_us d < ordinal d * US_PER_DAY + (hour d + 1) * US_PER_HOUR.
Proof.
  unfold valid, to_us, time_us, US_PER_DAY, US_PER_HOUR, US_PER_MINUTE,
    US_PER_SECOND. lia.
Qed.

(** A position on day [o], at or after hour [h], is read back as such. *)
Lemma of_us_on_day (x o h : Z) :
  0 <= h →
  o * US_PER_DAY + h * US_PER_HOUR <= x → x < (o + 1) * US_PER_DAY →
  ordinal (of_us x) = o ∧ h <= hour (of_us x).
Proof.
  intros Hh H1 H2. pose proof (to_us_of_us x) as E.
  pose proof (valid_to_us _ (valid_of_us x)) as [H3 H4].
  pose proof (valid_of_us x) as (Hv & _).
  rewrite E in H3, H4. revert H1 H2 H3 H4 Hv.
  generalize (ordinal (of_us x)) (hour (of_us x)).
  unfold US_PER_DAY, US_PER_HOUR, US_PER_MINUTE, US_PER_SECOND.
  intros o' h' H1 H2 H3 H4 Hv.
  assert (o' = o) by nia. subst o'. split; [done|]. nia.
Qed.

Lemma of_us_to_us (d : datetime) : valid d → of_us (to_us d) = d.
Proof.
  intros Hv. pose proof (valid_of_us (to_us d)) as Hv'.
  pose proof (to_us_of_us (to_us d)) as E.
  destruct (of_us (to_us d)) as [o' h' m' s' u'], d as [o h m s u].
  unfold valid, to_us, time_us, US_PER_DAY, US_PER_HOUR, US_PER_MINUTE,
    US_PER_SECOND in *. cbn in *.
  assert (o' = o) by nia. subst o'.
  assert (h' = h) by nia. subst h'.
  assert (m' = m) by nia. subst m'.
  assert (s' = s) by nia. subst s'.
  f_equal. lia.
Qed.

(** ** The times of one day *)

Lemma distribute_posts_in_day_unfold (now start_date : datetime)
    (posts_count : Z) :
  _distribute_posts_in_day now start_date posts_count
  = if posts_count =? 0 then Raises ZeroDivisionError
    else Returns
           (collect_times now (day_plan now start_date posts_count).1
              (day_interval (day_plan now start_date posts_count).2
                 posts_count)
              (range posts_count)).
Proof.
  unfold _distribute_posts_in_day, day_plan, day_interval, day_start.
  by destruct (Qltb _ (inject_Z (posts_count * min_post_interval))).
Qed.

Lemma round_half_even_Qeq (q : Q) (z : Z) :
  (q == inject_Z z)%Q → round_half_even q = z.
Proof.
  intros E. rewrite <- (round_half_even_Z z). apply Z.le_antisymm;
    apply round_half_even_mono; rewrite E; apply Qle_refl.
Qed.

Lemma collect_times_hour now start_time interval indices t :
  t ∈ collect_times now start_time interval indices →
  hour t < POSTING_END_HOUR.
Proof.
  induction indices as [|i indices IH]; cbn [collect_times].
  - by intros ?%elem_of_nil.
  - destruct (POSTING_END_HOUR <=? _) eqn:E; [by intros ?%elem_of_nil|].
    apply Z.leb_gt in E. destruct (leb _ now); [done|].
    intros [->|H]%elem_of_cons; [done|by apply IH].
Qed.

Lemma length_collect_times now start_time interval indices :
  (length (collect_times now start_time interval indices)
   ≤ length indices)%nat.
Proof.
  induction indices as [|i indices IH]; cbn [collect_times]; [done|].
  destruct (POSTING_END_HOUR <=? _); [cbn; lia|].
  destruct (leb _ now); cbn; lia.
Qed.

Lemma length_range (n : Z) : length (range n) = Z.to_nat n.
Proof. unfold range. by rewrite length_map, length_seq. Qed.

Lemma elem_of_range (n i : Z) : i ∈ range n ↔ 0 <= i < n.
Proof.
  unfold range. rewrite list_elem_of_In, in_map_iff. split.
  - intros (k & <- & Hk%in_seq). lia.
  - intros H. exists (Z.to_nat i). split; [lia|]. apply in_seq. lia.
Qed.

Lemma minutes_between_ge (a b : datetime) (k : Z) :
  (inject_Z k <= minutes_between a b)%Q
  ↔ k * US_PER_MINUTE <= to_us b - to_us a.
Proof.
  unfold minutes_between, total_seconds, sub, US_PER_MINUTE, US_PER_SECOND.
  generalize (to_us b - to_us a). intros z.
  unfold Qle, Qdiv, Qmult, Qinv, inject_Z. cbn. lia.
Qed.

Lemma minutes_between_eq (a b : datetime) :
  (minutes_between a b
   == inject_Z (to_us b - to_us a) / inject_Z US_PER_MINUTE)%Q.
Proof.
  change US_PER_MINUTE with 60000000.
  unfold minutes_between, total_seconds, sub. change US_PER_SECOND with 1000000.
  generalize (to_us b - to_us a). intros z.
  unfold Qeq, Qdiv, Qmult, Qinv, inject_Z. cbn. lia.
Qed.

(** The start of the day: 08:00 of [start_date]'s day, or, when that is
    today and past, half an hour from now, rounded down to five minutes. *)
Lemma day_start_spec (now start_date : datetime) :
  valid start_date →
  let s := day_start now start_date in
  valid s
  ∧ ordinal start_date * US_PER_DAY + POSTING_START_HOUR * US_PER_HOUR
    <= to_us s
  ∧ (to_us now
     < ordinal start_date * US_PER_DAY + POSTING_START_HOUR * US_PER_HOUR →
     s = replace_hour_minute start_date POSTING_START_HOUR 0).
Proof.
  intros Hv s. subst s. unfold day_start.
  set (s0 := replace_hour_minute start_date POSTING_START_HOUR 0).
  assert (Hs0 : valid s0
                ∧ ordinal start_date * US_PER_DAY
                  + POSTING_START_HOUR * US_PER_HOUR <= to_us s0).
  { unfold valid, s0, replace_hour_minute, to_us, time_us, POSTING_START_HOUR,
      US_PER_DAY, US_PER_HOUR, US_PER_MINUTE, US_PER_SECOND in *. cbn. lia. }
  destruct Hs0 as [Hv0 Hge].
  destruct ((date s0 =? date now) && ltb s0 now) eqn:E.
  - apply andb_true_iff in E as [_ Hlt%ltb_lt].
    set (x := add now (timedelta_minutes (inject_Z min_post_interval))).
    assert (Hx : to_us x = to_us now + 2 * 900000000).
    { unfold x. by rewrite to_us_add, timedelta_minutes_min_interval. }
    assert (Hvx : valid x) by apply valid_of_us.
    split; [|split].
    + unfold valid, replace_minute, replace_second_microsecond in *.
      cbn [hour minute second microsecond]. destruct Hvx as (? & ? & _).
      split; [done|]. split; [|lia].
      pose proof (Z.mul_div_le (minute x) 5 ltac:(lia)).
      pose proof (Z.div_pos (minute x) 5 ltac:(lia) ltac:(lia)). lia.
    + assert (to_us x - 5 * US_PER_MINUTE
              < to_us (replace_minute (replace_second_microsecond x 0 0)
                         (minute (replace_second_microsecond x 0 0) / 5 * 5))).
      { unfold valid, replace_minute, replace_second_microsecond, to_us,
          time_us in *. cbn [ordinal hour minute second microsecond].
        pose proof (Z.mod_pos_bound (minute x) 5 ltac:(lia)).
        pose proof (Z.div_mod (minute x) 5 ltac:(lia)).
        unfold US_PER_DAY, US_PER_HOUR, US_PER_MINUTE, US_PER_SECOND in *.
        lia. }
      unfold US_PER_MINUTE, US_PER_SECOND in *. lia.
    + intros Hearly. lia.
  - done.
Qed.

(** The day that is planned: its start is a valid time at or after 08:00,
    not before [start_date]'s day, and the minutes counted are those of the
    time from the start to a time [e] of the same day, fifteen hours and a
    minute later at most. *)
Lemma day_plan_spec (now start_date : datetime) (posts_count : Z) :
  valid start_date → 1 <= posts_count →
  let s := (day_plan now start_date posts_count).1 in
  let total := (day_plan now start_date posts_count).2 in
  ∃ e : Z,
    valid s ∧ POSTING_START_HOUR <= hour s
    ∧ ordinal start_date <= ordinal s
    ∧ to_us s <= e ∧ e < (ordinal s + 1) * US_PER_DAY
    ∧ e - to_us s <= 54060000000
    ∧ total = float_minutes (e - to_us s)
    ∧ (to_us now
       < ordinal start_date * US_PER_DAY + POSTING_START_HOUR * US_PER_HOUR →
       hour s = POSTING_START_HOUR ∧ to_us now < to_us s).
Proof.
  intros Hv Hn s total. subst s total. unfold day_plan.
  destruct (day_start_spec now start_date Hv) as (Hvs & Hge & Hearly).
  set (s0 := day_start now start_date) in *.
  set (e0 := replace_hour_minute start_date POSTING_END_HOUR 0).
  destruct (Qltb (float_minutes (sub e0 s0)) _) eqn:E; cbn [fst snd].
  - set (x := add s0 (timedelta_days 1)).
    assert (Hx : to_us x = to_us s0 + US_PER_DAY).
    { unfold x, timedelta_days. rewrite to_us_add. lia. }
    assert (Hvx : valid x) by apply valid_of_us.
    assert (Hox : ordinal start_date < ordinal x).
    { pose proof (valid_to_us _ Hvx) as [_ H].
      unfold valid, US_PER_DAY, US_PER_HOUR, US_PER_MINUTE, US_PER_SECOND,
        POSTING_START_HOUR in *. nia. }
    set (s := replace_hour_minute x POSTING_START_HOUR 0).
    exists (to_us (replace_hour_minute s POSTING_END_HOUR 0)).
    unfold sub.
    unfold valid, s, replace_hour_minute, to_us, time_us, POSTING_START_HOUR,
      POSTING_END_HOUR in *. cbn [ordinal hour minute second microsecond].
    split; [lia|]. split; [lia|]. split; [lia|].
    unfold US_PER_DAY, US_PER_HOUR, US_PER_MINUTE, US_PER_SECOND in *.
    split; [lia|]. split; [lia|]. split; [lia|]. split; [done|].
    intros H. split; [done|]. nia.
  - apply Qltb_ge in E.
    assert (He0 : to_us e0
                  <= ordinal start_date * US_PER_DAY
                     + POSTING_END_HOUR * US_PER_HOUR + US_PER_MINUTE).
    { unfold valid, e0, replace_hour_minute, to_us, time_us, POSTING_END_HOUR,
        US_PER_DAY, US_PER_HOUR, US_PER_MINUTE, US_PER_SECOND in *. cbn. lia. }
    assert (Hlt : to_us s0 < to_us e0).
    { destruct (Z.lt_ge_cases (to_us s0) (to_us e0)) as [|Hle]; [done|].
      exfalso.
      pose proof (float_minutes_nonpos (sub e0 s0) ltac:(unfold sub; lia))
        as Hm.
      assert (Hq : (1 <= inject_Z (posts_count * min_post_interval))%Q).
      { apply inject_Z_le_1. unfold min_post_interval. lia. }
      lra. }
    destruct (of_us_on_day (to_us s0) (ordinal start_date)
                POSTING_START_HOUR) as [Ho Hh]; [done|done| |].
    { unfold POSTING_END_HOUR, US_PER_DAY, US_PER_HOUR, US_PER_MINUTE,
        US_PER_SECOND in *. lia. }
    rewrite (of_us_to_us _ Hvs) in Ho, Hh.
    exists (to_us e0). split; [done|]. split; [done|]. split; [lia|].
    split; [lia|]. split.
    { rewrite Ho. unfold POSTING_END_HOUR, US_PER_DAY, US_PER_HOUR,
        US_PER_MINUTE, US_PER_SECOND in *. lia. }
    split.
    { unfold POSTING_START_HOUR, POSTING_END_HOUR, US_PER_DAY, US_PER_HOUR,
        US_PER_MINUTE, US_PER_SECOND in *. lia. }
    split; [done|].
    intros H. rewrite (Hearly H). split; [done|].
    unfold valid, replace_hour_minute, to_us, time_us, POSTING_START_HOUR,
      US_PER_DAY, US_PER_HOUR, US_PER_MINUTE, US_PER_SECOND in *. cbn. lia.
Qed.

(** With the minimum interval the slots go in steps of half an hour from
    the start, and the loop stops at the first one at or after 23:00: the
    ones it keeps are on the day of the start. *)
Lemma collect_times_minimum_window (now s : datetime) (day : Z) (k a : nat) :
  day * US_PER_DAY + POSTING_START_HOUR * US_PER_HOUR <= to_us s →
  to_us s + min_post_interval * US_PER_MINUTE * Z.of_nat a
  < (day + 1) * US_PER_DAY →
  ∀ t, t ∈ collect_times now s (Int min_post_interval)
             (map Z.of_nat (seq a k)) →
       in_posting_hours day t.
Proof.
  intros Hs. revert a. induction k as [|k IH]; intros a Ha t;
    cbn [seq map collect_times]; [by intros ?%elem_of_nil|].
  assert (Hd : timedelta_minutes_times (Int min_post_interval) (Z.of_nat a)
               = min_post_interval * US_PER_MINUTE * Z.of_nat a).
  { unfold timedelta_minutes_times. rewrite timedelta_minutes_Z. lia. }
  rewrite Hd.
  set (x := add s (min_post_interval * US_PER_MINUTE * Z.of_nat a)).
  assert (Hx : to_us x = to_us s + min_post_interval * US_PER_MINUTE * Z.of_nat a)
    by apply to_us_add.
  destruct (of_us_on_day (to_us s + min_post_interval * US_PER_MINUTE * Z.of_nat a)
              day POSTING_START_HOUR) as [Ho Hh]; [done| |done|].
  { unfold min_post_interval, US_PER_MINUTE, US_PER_SECOND. lia. }
  fold (add s (min_post_interval * US_PER_MINUTE * Z.of_nat a)) in Ho, Hh.
  fold x in Ho, Hh.
  destruct (POSTING_END_HOUR <=? hour x) eqn:E; [by intros ?%elem_of_nil|].
  apply Z.leb_gt in E.
  assert (Hnext : to_us s
                  + min_post_interval * US_PER_MINUTE * Z.of_nat (S a)
                  < (day + 1) * US_PER_DAY).
  { pose proof (valid_to_us x (valid_of_us _)) as [_ H].
    rewrite Hx, Ho in H.
    unfold min_post_interval, POSTING_END_HOUR, US_PER_DAY, US_PER_HOUR,
      US_PER_MINUTE, US_PER_SECOND in *. nia. }
  destruct (leb x now); [by apply IH|].
  intros [->|H]%elem_of_cons; [done|by apply (IH (S a))].
Qed.

(** X13. The times [_distribute_posts_in_day] returns for a day are at most
    [posts_count], and they all lie on one calendar day, not before the day
    of [start_date], from 08:00 on and before 23:00. *)
Theorem distribute_posts_in_day_window (now start_date : datetime)
    (posts_count : Z) (scheduled_times : list datetime)
    (Hvalid : valid start_date)
    (Hrun : _distribute_posts_in_day now start_date posts_count
            = Returns scheduled_times) :
  (length scheduled_times ≤ Z.to_nat posts_count)%nat
  ∧ ∃ day, ordinal start_date <= day
           ∧ Forall (in_posting_hours day) scheduled_times.
Proof.
  rewrite distribute_posts_in_day_unfold in Hrun.
  destruct (posts_count =? 0) eqn:E0; [done|]. injection Hrun as <-.
  split. { rewrite <- length_range. apply length_collect_times. }
  destruct (Z.le_gt_cases 1 posts_count) as [Hn|Hn].
  2: { exists (ordinal start_date). split; [lia|].
       unfold range. replace (Z.to_nat posts_count) with 0%nat by lia.
       constructor. }
  destruct (day_plan_spec now start_date posts_count Hvalid Hn)
    as (e & Hvs & Hh & Ho & Hse & He & Hmax & Htotal & _).
  set (s := (day_plan now start_date posts_count).1) in *.
  set (total := (day_plan now start_date posts_count).2) in *.
  exists (ordinal s). split; [done|].
  pose proof (valid_to_us s Hvs) as [Hlo _].
  assert (Hlo' : ordinal s * US_PER_DAY + POSTING_START_HOUR * US_PER_HOUR
                 <= to_us s).
  { unfold POSTING_START_HOUR, US_PER_DAY, US_PER_HOUR, US_PER_MINUTE,
      US_PER_SECOND in *. lia. }
  apply Forall_forall. intros t Ht. unfold day_interval in Ht.
  destruct (Qltb (fl (total / fl (inject_Z posts_count))) _) eqn:E.
  - revert Ht. apply collect_times_minimum_window; [done|lia].
  - apply Qltb_ge in E.
    pose proof (collect_times_hour _ _ _ _ _ Ht) as Hend.
    apply collect_times_elems in Ht as (i & Hi%elem_of_range & -> & _).
    rewrite Htotal in E, Hend |- *.
    destruct (float_interval_cases (e - to_us s) posts_count Hn Hmax E)
      as (_ & _ & _ & Hb).
    set (interval := fl (float_minutes (e - to_us s)
                         / fl (inject_Z posts_count))) in *.
    assert (HI : (30 <= interval)%Q) by exact E.
    assert (HI0 : (0 <= interval)%Q) by lra.
    destruct (of_us_on_day
                (to_us s + timedelta_minutes_times (Float interval) i)
                (ordinal s) POSTING_START_HOUR) as [Hday Hhour]; [done| | |].
    + assert (0 <= timedelta_minutes_times (Float interval) i); [|lia].
      apply float_slot_nonneg; [exact HI0|].
      destruct (Z.lt_ge_cases i (2 ^ 53)) as [|Hbig]; [lia|exfalso].
      destruct (float_interval_cases (e - to_us s) posts_count Hn Hmax E)
        as (H30 & _). lia.
    + assert (timedelta_minutes_times (Float interval) i <= e - to_us s);
        [|lia].
      apply (float_slot_upper interval (e - to_us s) posts_count i);
        [exact HI|lia|exact Hb|lia|lia].
    + split; [done|]. split; [done|]. exact Hend.
Qed.

Lemma distribute_posts_in_day_window_witness :
  ∃ day, ordinal sample_now <= day
         ∧ Forall (in_posting_hours day)
             [mk_datetime 739549 9 30 0 0; mk_datetime 739549 14 0 0 0;
              mk_datetime 739549 18 30 0 0].
Proof.
  apply (distribute_posts_in_day_window sample_now sample_now 3).
  - unfold valid, sample_now. cbn. lia.
  - vm_compute. reflexivity.
Defined.

(** ** The batch loop ends *)

(** Before 08:00 of [start_date]'s day the first time of the day is kept. *)
Lemma timedelta_minutes_times_0 (interval : number) :
  timedelta_minutes_times interval (Z.of_nat 0) = 0.
Proof.
  change (Z.of_nat 0) with 0.
  destruct interval as [m|x]; unfold timedelta_minutes_times.
  - rewrite timedelta_minutes_Z. lia.
  - assert (E : (fl (x * fl (inject_Z 0)) == inject_Z 0)%Q).
    { assert (E0 : (x * fl (inject_Z 0) == 0)%Q).
      { change (fl (inject_Z 0)) with 0%Q. ring. }
      by rewrite (fl_compat _ _ E0). }
    by rewrite (timedelta_minutes_float_compat _ _ E),
      timedelta_minutes_float_Z.
Qed.

Lemma distribute_posts_in_day_first (now start_date : datetime)
    (posts_count : Z) :
  valid start_date → 1 <= posts_count →
  to_us now
  < ordinal start_date * US_PER_DAY + POSTING_START_HOUR * US_PER_HOUR →
  ∃ t rest,
    _distribute_posts_in_day now start_date posts_count = Returns (t :: rest).
Proof.
  intros Hv Hn Hearly. rewrite distribute_posts_in_day_unfold.
  destruct (Z.eqb_spec posts_count 0); [lia|].
  destruct (day_plan_spec now start_date posts_count Hv Hn)
    as (e & Hvs & _ & _ & _ & _ & _ & _ & Hfirst).
  destruct (Hfirst Hearly) as [Hh Hlt].
  set (s := (day_plan now start_date posts_count).1) in *.
  generalize (day_interval (day_plan now start_date posts_count).2
                posts_count). intros interval.
  unfold range. destruct (Z.to_nat posts_count) as [|k] eqn:Ek; [lia|].
  cbn [seq map collect_times].
  rewrite (timedelta_minutes_times_0 interval). unfold add. rewrite Z.add_0_r, (of_us_to_us s Hvs), Hh.
  cbn [Z.leb POSTING_END_HOUR POSTING_START_HOUR Z.compare Pos.compare
         Pos.compare_cont].
  rewrite (proj2 (leb_gt s now) Hlt). eauto.
Qed.

Section BatchEnds.

Variable isoformat : datetime -> string.

Lemma assign_slot_index account_id post_ids a t :
  (a_post_index a < length post_ids)%nat →
  a_post_index (assign_slot isoformat account_id post_ids a t)
  = S (a_post_index a).
Proof.
  intros Hlt. unfold assign_slot.
  destruct (lookup_lt_is_Some_2 post_ids (a_post_index a) Hlt) as [pid ->].
  destruct (schedule_post _ _ _) as [st [post|]]; done.
Qed.

Lemma assign_slots_index_le account_id post_ids times a :
  (a_post_index a
   ≤ a_post_index (assign_slots isoformat account_id post_ids a times))%nat.
Proof.
  revert a. induction times as [|t times IH]; intros a; cbn; [done|].
  destruct (Nat.leb_spec (length post_ids) (a_post_index a)); [done|].
  etransitivity; [|apply IH]. rewrite assign_slot_index by done. lia.
Qed.

Lemma assign_slots_index_lt account_id post_ids t times a :
  (a_post_index a < length post_ids)%nat →
  (a_post_index a
   < a_post_index
       (assign_slots isoformat account_id post_ids a (t :: times)))%nat.
Proof.
  intros Hlt. cbn. destruct (Nat.leb_spec (length post_ids) (a_post_index a));
    [lia|].
  eapply Nat.lt_le_trans; [|apply assign_slots_index_le].
  rewrite assign_slot_index by done. lia.
Qed.

Lemma add_days_valid (d : datetime) (n : Z) :
  valid d →
  valid (add d (timedelta_days n))
  ∧ ordinal (add d (timedelta_days n)) = ordinal d + n.
Proof.
  intros Hv. split; [apply valid_of_us|].
  pose proof (time_us_range d Hv) as Ht.
  apply (of_us_on_day _ (ordinal d + n) 0); [done|..];
    unfold timedelta_days, to_us; lia.
Qed.

Lemma schedule_loop_returns fuel now_in_day account_id post_ids
    posts_per_day start_time current_day a :
  valid start_time → 1 <= posts_per_day → 1 <= current_day →
  (∀ d, valid (now_in_day d) ∧ date (now_in_day d) <= date start_time) →
  (length post_ids - a_post_index a < fuel)%nat →
  ∃ a', schedule_loop isoformat fuel now_in_day account_id post_ids
          posts_per_day start_time current_day a = Some (Returns a').
Proof.
  intros Hv Hppd Hday Hclock. revert current_day a Hday.
  induction fuel as [|fuel IH]; intros day a Hday Hfuel; [lia|].
  cbn [schedule_loop]. destruct (_ <? _) eqn:E; [|eauto].
  apply Z.ltb_lt in E.
  destruct (add_days_valid start_time day Hv) as [Hvd Hod].
  destruct (distribute_posts_in_day_first (now_in_day day)
              (add start_time (timedelta_days day))
              (Z.min posts_per_day
                 (Z.of_nat (length post_ids) - Z.of_nat (a_post_index a))))
    as (t & rest & ->); [done|lia| |].
  - destruct (Hclock day) as [Hvn Hdn].
    pose proof (time_us_range _ Hvn). unfold date in Hdn. rewrite Hod.
    unfold to_us, POSTING_START_HOUR, US_PER_DAY, US_PER_HOUR, US_PER_MINUTE,
      US_PER_SECOND in *. nia.
  - apply IH; [lia|].
    pose proof (assign_slots_index_lt account_id post_ids t rest a). lia.
Qed.

End BatchEnds.

Lemma valid_campaign_start (now start_date : datetime) :
  valid now → valid start_date → valid (campaign_start now start_date).
Proof.
  intros Hn Hs. unfold campaign_start.
  set (s0 := replace_minute_second_microsecond start_date 0 0 0).
  assert (Hs0 : valid s0) by (unfold valid in *; cbn; lia).
  assert (Hs1 : valid (if ltb s0 now then now else s0))
    by by destruct (ltb s0 now).
  destruct (_ <? POSTING_START_HOUR).
  { unfold valid, POSTING_START_HOUR in *. cbn. lia. }
  destruct (POSTING_END_HOUR <=? _); [|apply valid_of_us].
  assert (Hx : valid (add (if ltb s0 now then now else s0)
                        (timedelta_days 1))) by apply valid_of_us.
  revert Hx. generalize (add (if ltb s0 now then now else s0)
                           (timedelta_days 1)). intros x Hx.
  unfold valid, replace_hour_minute, POSTING_START_HOUR in *.
  cbn [hour minute second microsecond]. lia.
Qed.

(** X14. A batch with at least one post per day returns, after at most two
    rounds of its [while] loop more than there are post ids, when the clock
    readings are valid times not after the day the batch starts to plan
    for. *)
Theorem schedule_posts_for_account_returns (isoformat : datetime -> string)
    (fuel : nat) (now0 now : datetime) (now_in_day : Z -> datetime)
    (w : World) (account_id : string) (post_ids : list string)
    (posts_per_day : Z) (start_date : option datetime)
    (Hnow : valid now) (Hstart : valid (default now0 start_date))
    (Hper_day : 1 <= posts_per_day)
    (Hclock : ∀ d, valid (now_in_day d)
                   ∧ date (now_in_day d)
                     <= date (campaign_start now (default now0 start_date)))
    (Hfuel : (length post_ids + 2 ≤ fuel)%nat) :
  ∃ w' scheduled_posts,
    schedule_posts_for_account isoformat fuel now0 now now_in_day w
      account_id post_ids posts_per_day start_date
    = Some (Returns (w', scheduled_posts)).
Proof.
  unfold schedule_posts_for_account.
  destruct (Z.eqb_spec posts_per_day 0); [lia|].
  set (start_time := campaign_start now (default now0 start_date)) in *.
  assert (Hv : valid start_time) by by apply valid_campaign_start.
  assert (∃ a', schedule_loop isoformat fuel now_in_day account_id post_ids
                  posts_per_day start_time 0 (mk_assignment w [] 0)
                = Some (Returns a')) as [a' ->]; [|eauto].
  destruct fuel as [|fuel]; [lia|]. cbn [schedule_loop a_post_index].
  destruct (_ <? _) eqn:E; [|eauto]. apply Z.ltb_lt in E.
  rewrite distribute_posts_in_day_unfold.
  destruct (Z.eqb_spec (Z.min posts_per_day
                          (Z.of_nat (length post_ids) - Z.of_nat 0)) 0);
    [lia|].
  apply schedule_loop_returns; [done|done|lia|done|].
  lia.
Qed.

Lemma schedule_posts_for_account_returns_witness :
  ∃ w' scheduled_posts,
    schedule_posts_for_account Iso.isoformat 4 sample_now sample_now
      (fun _ => sample_now) (mk_world store_with_draft ∅) "acc1"
      ["ghost"; "p1"] 3 None
    = Some (Returns (w', scheduled_posts)).
Proof.
  assert (Hv : valid sample_now) by (unfold valid, sample_now; cbn; lia).
  apply schedule_posts_for_account_returns.
  - exact Hv.
  - exact Hv.
  - lia.
  - intros _. split; [exact Hv|]. vm_compute. discriminate.
  - cbn. lia.
Defined.

(** X15. Where a batch starts to plan: a valid time that is after the clock
    reading, not before [start_date] rounded down to the hour, at 08:00 or
    later in its day, and at most nine hours after the later of the two. *)
Theorem campaign_start_spec (now start_date : datetime)
    (Hnow : valid now) (Hstart : valid start_date) :
  let s := campaign_start now start_date in
  let rounded := replace_minute_second_microsecond start_date 0 0 0 in
  valid s ∧ POSTING_START_HOUR <= hour s
  ∧ to_us now < to_us s ∧ to_us rounded <= to_us s
  ∧ to_us s <= Z.max (to_us now) (to_us rounded) + 9 * US_PER_HOUR.
Proof.
  intros s rounded. split; [by apply valid_campaign_start|].
  subst s. unfold campaign_start. fold rounded.
  assert (Hr : valid rounded) by (unfold valid in *; cbn; lia).
  set (s1 := if ltb rounded now then now else rounded).
  assert (Hs1 : valid s1 ∧ to_us now <= to_us s1 ∧ to_us rounded <= to_us s1
                ∧ to_us s1 = Z.max (to_us now) (to_us rounded)).
  { unfold s1. destruct (ltb rounded now) eqn:E.
    - apply ltb_lt in E. split; [done|]. lia.
    - apply Z.ltb_ge in E. split; [done|]. lia. }
  destruct Hs1 as (Hv1 & Hge & Hge' & Hmax). rewrite <- Hmax.
  pose proof (valid_to_us s1 Hv1) as [Hlo Hhi].
  destruct (Z.ltb_spec (hour s1) POSTING_START_HOUR).
  { unfold valid, replace_hour_minute, to_us, time_us, POSTING_START_HOUR,
      US_PER_DAY, US_PER_HOUR, US_PER_MINUTE, US_PER_SECOND in *.
    cbn [ordinal hour minute second microsecond]. lia. }
  destruct (Z.leb_spec POSTING_END_HOUR (hour s1)).
  - destruct (add_days_valid s1 1 Hv1) as [Hvx Hox].
    assert (Hx : to_us (add s1 (timedelta_days 1)) = to_us s1 + US_PER_DAY).
    { rewrite to_us_add. unfold timedelta_days. lia. }
    revert Hvx Hox Hx. generalize (add s1 (timedelta_days 1)).
    intros x Hvx Hox Hx.
    unfold valid, replace_hour_minute, to_us, time_us, POSTING_START_HOUR,
      POSTING_END_HOUR, US_PER_DAY, US_PER_HOUR, US_PER_MINUTE,
      US_PER_SECOND in *.
    cbn [ordinal hour minute second microsecond]. lia.
  - destruct (of_us_on_day (to_us s1 + 2 * 900000000) (ordinal s1)
                POSTING_START_HOUR) as [_ Hh]; [done|..].
    + unfold POSTING_START_HOUR, US_PER_DAY, US_PER_HOUR, US_PER_MINUTE,
        US_PER_SECOND in *. lia.
    + unfold POSTING_END_HOUR, US_PER_DAY, US_PER_HOUR, US_PER_MINUTE,
        US_PER_SECOND in *. lia.
    + rewrite to_us_add, timedelta_minutes_min_interval.
      split; [exact Hh|]. unfold US_PER_DAY, US_PER_HOUR, US_PER_MINUTE,
        US_PER_SECOND. lia.
Qed.

Lemma campaign_start_spec_witness :
  to_us sample_now < to_us (campaign_start sample_now sample_now)
  ∧ hour (campaign_start sample_now sample_now) = 9.
Proof.
  assert (Hv : valid sample_now) by (unfold valid, sample_now; cbn; lia).
  destruct (campaign_start_spec sample_now sample_now Hv Hv)
    as (_ & _ & H & _).
  split; [exact H|reflexivity].
Defined.

(** ** Fractions of a second in [parse_iso_datetime] *)

Lemma app_cons (x : ascii) (s t : string) :
  (String x s ++ t)%string = String x (s ++ t)%string.
Proof. reflexivity. Qed.

Lemma re_sub_millis_cons (x d1 d2 d3 : ascii) (tail : string) :
  re_sub_millis (String x (String d1 (String d2 (String d3 tail))))
  = if Ascii.eqb x "." && is_digit d1 && is_digit d2 && is_digit d3
       && (String.eqb tail "" || String.eqb tail newline)
    then tail
    else String x (re_sub_millis (String d1 (String d2 (String d3 tail)))).
Proof. reflexivity. Qed.

Lemma app_millis_not_end (s : string) (a b c : ascii) :
  String.eqb (s ++ millis a b c) "" || String.eqb (s ++ millis a b c) newline
  = false.
Proof.
  destruct s as [|u [|v s]]; [reflexivity|..]; rewrite !app_cons;
    unfold newline; cbn [String.eqb orb];
    by destruct (Ascii.eqb u _).
Qed.

Lemma re_sub_millis_app (s : string) (a b c : ascii) :
  is_digit a = true → is_digit b = true → is_digit c = true →
  re_sub_millis (s ++ millis a b c) = s.
Proof.
  intros Ha Hb Hc. induction s as [|x s IH].
  - change (re_sub_millis (millis a b c) = "").
    unfold millis. cbn. by rewrite Ha, Hb, Hc.
  - rewrite app_cons.
    assert (E : re_sub_millis (String x (s ++ millis a b c))
                = String x (re_sub_millis (s ++ millis a b c)));
      [|by rewrite E, IH].
    clear IH. destruct s as [|y [|z [|w s]]]; rewrite ?app_cons.
    + change ("" ++ millis a b c)%string with (millis a b c). unfold millis.
      rewrite re_sub_millis_cons. by destruct (Ascii.eqb x ".").
    + change ("" ++ millis a b c)%string with (millis a b c). unfold millis.
      rewrite re_sub_millis_cons.
      by destruct (Ascii.eqb x "."), (is_digit y).
    + change ("" ++ millis a b c)%string with (millis a b c). unfold millis.
      rewrite re_sub_millis_cons.
      by destruct (Ascii.eqb x "."), (is_digit y), (is_digit z).
    + rewrite re_sub_millis_cons, app_millis_not_end.
      by rewrite andb_false_r.
Qed.

Lemma endswith_cons (x : ascii) (s suffix : string) :
  endswith (String x s) suffix
  = String.eqb (String x s) suffix || endswith s suffix.
Proof. reflexivity. Qed.

Lemma endswith_app_millis (s : string) (a b c : ascii) :
  is_digit c = true → endswith (s ++ millis a b c) "Z" = false.
Proof.
  intros Hc.
  assert (Hne : Ascii.eqb c "Z" = false).
  { destruct (Ascii.eqb_spec c "Z") as [->|]; [discriminate Hc|done]. }
  induction s as [|x s IH].
  - change ("" ++ millis a b c)%string with (millis a b c). unfold millis.
    rewrite !endswith_cons. cbn [String.eqb endswith]. rewrite Hne.
    by destruct (Ascii.eqb a "Z"), (Ascii.eqb b "Z").
  - rewrite app_cons, endswith_cons, IH. cbn [String.eqb].
    destruct (Ascii.eqb x "Z"); [|done].
    destruct s; by rewrite ?app_cons.
Qed.

(** X16. A fraction of exactly three digits at the end of the string, with
    or without a [Z] after it, is cut off before parsing: the string is
    parsed as if it ended before the dot, so the milliseconds are lost. *)
Theorem parse_iso_datetime_millis
    (fromisoformat : string -> option pydatetime)
    (strptime : string -> string -> option pydatetime)
    (s : string) (a b c : ascii)
    (Ha : is_digit a = true) (Hb : is_digit b = true)
    (Hc : is_digit c = true) :
  parse_iso_datetime fromisoformat strptime (s ++ millis a b c)
  = parse_as_is fromisoformat strptime s
  ∧ parse_iso_datetime fromisoformat strptime ((s ++ millis a b c) ++ "Z")
    = parse_as_is fromisoformat strptime s.
Proof.
  assert (Hne : String.eqb (s ++ millis a b c) "" = false)
    by (destruct s; reflexivity).
  unfold parse_iso_datetime, parse_as_is. split.
  - by rewrite Hne, endswith_app_millis, re_sub_millis_app.
  - by rewrite app_Z_not_empty, endswith_app_Z, drop_last_app_Z,
      re_sub_millis_app.
Qed.

Lemma parse_iso_datetime_millis_witness :
  parse_iso_datetime Iso.fromisoformat Iso.strptime "2025-10-25T11:58:07.999"
  = Returns (Naive (mk_datetime 739549 11 58 7 0))
  ∧ parse_iso_datetime Iso.fromisoformat Iso.strptime
      "2025-10-25T11:58:07.999Z"
    = Returns (Naive (mk_datetime 739549 11 58 7 0)).
Proof.
  exact (parse_iso_datetime_millis Iso.fromisoformat Iso.strptime
           "2025-10-25T11:58:07" "9" "9" "9" eq_refl eq_refl eq_refl).
Defined.

(** ** The rate limiter *)

Lemma total_seconds_add (x y : Z) :
  (total_seconds (x + y)%Z == total_seconds x + total_seconds y)%Q.
Proof.
  unfold total_seconds, Qdiv. rewrite inject_Z_plus.
  change (/ inject_Z US_PER_SECOND)%Q with (1 # 1000000)%Q. ring.
Qed.

Lemma total_seconds_nonneg (x : Z) : 0 <= x → (0 <= total_seconds x)%Q.
Proof.
  intros H. unfold total_seconds, Qdiv.
  change (/ inject_Z US_PER_SECOND)%Q with (1 # 1000000)%Q.
  apply Qmult_le_0_compat; [|done].
  change 0%Q with (inject_Z 0). by rewrite <- Zle_Qle.
Qed.

(** X17. [wait_if_needed] keeps the requests apart: when the clock does not
    go back and the sleep, if there is one, lasts at least the time asked
    for, the request is stamped at least [min_interval] seconds after the
    one before it. The counter of the minute has no part in that; after the
    call it is at least 1 and its window ends after the reading taken on
    entry. *)
Theorem wait_if_needed_spacing (l : GeminiRateLimiter)
    (now now_after last : datetime)
    (Hlast : last_request_time l = Some last)
    (Hclock : to_us now <= to_us now_after)
    (Hsleep : ∀ w, wait_time l now = Some w →
                   (w <= total_seconds (sub now_after now))%Q)
    (Hcount : 0 <= request_count l) :
  let l' := wait_if_needed l now now_after in
  last_request_time l' = Some now_after
  ∧ (min_interval l <= total_seconds (sub now_after last))%Q
  ∧ min_interval l' = min_interval l
  ∧ 1 <= request_count l'
  ∧ to_us now < to_us (reset_time l').
Proof.
  intros l'. subst l'. unfold wait_if_needed.
  assert (Hsplit : (total_seconds (sub now_after last)
                    == total_seconds (sub now_after now)
                       + total_seconds (sub now last))%Q).
  { rewrite <- total_seconds_add. unfold sub.
    by replace (to_us now_after - to_us now + (to_us now - to_us last))
      with (to_us now_after - to_us last) by lia. }
  assert (Hspaced : (min_interval l <= total_seconds (sub now_after last))%Q).
  { rewrite Hsplit. unfold wait_time in Hsleep. rewrite Hlast in Hsleep.
    destruct (Qltb (total_seconds (sub now last)) (min_interval l)) eqn:E.
    - specialize (Hsleep _ eq_refl). lra.
    - apply Qltb_ge in E.
      pose proof (total_seconds_nonneg (sub now_after now)
                    ltac:(unfold sub; lia)). lra. }
  destruct (leb (reset_time l) now) eqn:E; cbn.
  - split; [done|]. split; [done|]. split; [done|]. split; [lia|].
    rewrite to_us_add. change (timedelta_minutes 1) with 60000000. lia.
  - apply leb_gt in E. split; [done|]. split; [done|]. split; [done|].
    split; [lia|done].
Qed.

Lemma wait_if_needed_spacing_witness :
  (∃ w, wait_time sample_limiter (mk_datetime 739549 9 0 1 0) = Some w
        ∧ (w == 3 # 2)%Q)
  ∧ (5 # 2 <= total_seconds (sub (mk_datetime 739549 9 0 2 500000)
                               sample_now))%Q.
Proof.
  split; [eexists; split; reflexivity|].
  apply (wait_if_needed_spacing sample_limiter (mk_datetime 739549 9 0 1 0)
           (mk_datetime 739549 9 0 2 500000) sample_now eq_refl).
  - vm_compute. discriminate.
  - intros w [= <-]. vm_compute. discriminate.
  - vm_compute. discriminate.
Defined.

(** ** What a tick of the publisher leaves alone *)

Lemma remove_from_schedule_entries_other sch k account_id pid :
  k ≠ pid →
  entries_of (remove_from_schedule sch k) account_id pid
  = entries_of sch account_id pid.
Proof.
  intros Hne. unfold entries_of, remove_from_schedule. rewrite lookup_fmap.
  destruct (sch !! account_id) as [items|]; [|done]. cbn.
  induction items as [|e l IH]; [done|].
  rewrite (filter_cons _ e l), (filter_cons (fun e => entry_post_id e = pid)).
  destruct (decide (entry_post_id e = pid)) as [Ek|Ek].
  - rewrite decide_True by congruence.
    rewrite filter_cons, decide_True by done. by rewrite IH.
  - case_decide; [|done]. by rewrite filter_cons, decide_False.
Qed.

Lemma mark_as_published_entries_other sch k account_id pid :
  k ≠ pid →
  entries_of (mark_as_published sch k) account_id pid
  = entries_of sch account_id pid.
Proof.
  intros Hne. unfold entries_of, mark_as_published. rewrite lookup_fmap.
  destruct (sch !! account_id) as [items|]; [|done]. cbn.
  induction items as [|e l IH]; [done|]. cbn [map].
  rewrite !filter_cons, IH.
  destruct (String.eqb_spec (entry_post_id e) k) as [E|E]; [|done].
  cbn [entry_post_id]. rewrite !decide_False by congruence. done.
Qed.

Section TickFrame.

Variable isoformat : datetime -> string.
Variable fromisoformat : string -> option pydatetime.
Variable strptime : string -> string -> option pydatetime.
Variable now : datetime.
Variable now_at_publish : Post -> datetime.
Variable outcome : World -> Post -> attempt.

Local Abbreviation publish_round :=
  (fun (w : World) '(post, _) =>
     _publish_post isoformat w (now_at_publish post) post (outcome w post)).

Lemma move_to_drafts_entries_other w k account_id pid :
  k ≠ pid →
  entries_of (schedule (move_to_drafts w k)) account_id pid
  = entries_of (schedule w) account_id pid.
Proof.
  intros Hne. unfold move_to_drafts. destruct (get_post (posts w) k); [|done].
  cbn [schedule]. by apply remove_from_schedule_entries_other.
Qed.

Lemma _publish_post_entries_other w t post o account_id pid :
  post_id post ≠ pid →
  entries_of (schedule (_publish_post isoformat w t post o)) account_id pid
  = entries_of (schedule w) account_id pid.
Proof.
  intros Hne. unfold _publish_post. destruct o as [|msg].
  - cbn [schedule]. by apply mark_as_published_entries_other.
  - by destruct (too_early msg).
Qed.

Lemma foldl_move_to_drafts_entries_other l w account_id pid :
  pid ∉ l →
  entries_of (schedule (foldl move_to_drafts w l)) account_id pid
  = entries_of (schedule w) account_id pid.
Proof.
  revert w. induction l as [|k l IH]; intros w Hin; [done|].
  apply not_elem_of_cons in Hin as [Hne Hin]. cbn.
  rewrite IH by done. by apply move_to_drafts_entries_other.
Qed.

Lemma foldl_publish_entries_other (l : list (Post * datetime)) w
    account_id pid :
  (∀ q t, (q, t) ∈ l → post_id q ≠ pid) →
  entries_of (schedule (foldl publish_round w l)) account_id pid
  = entries_of (schedule w) account_id pid.
Proof.
  revert w. induction l as [|[q t] l IH]; intros w Hl; [done|].
  cbn. rewrite IH.
  - apply _publish_post_entries_other. apply (Hl q t). by left.
  - intros q' t' Hin. apply (Hl q' t'). by right.
Qed.

Lemma move_to_drafts_has_post w k pid :
  keys_ok (posts w) → is_Some (get_post (posts w) pid) →
  is_Some (get_post (posts (move_to_drafts w k)) pid).
Proof.
  intros H Hp. destruct (decide (k = pid)) as [->|Hne].
  - destruct (move_to_drafts_demotes w pid H Hp) as [(p & Hd & _) _].
    by eapply (get_post_is_Some _ DRAFTS_DIR).
  - by rewrite (same_files_get_post pid _ _ (move_to_drafts_other w k pid H Hne)).
Qed.

Lemma foldl_move_to_drafts_has_post l w pid :
  keys_ok (posts w) → is_Some (get_post (posts w) pid) →
  is_Some (get_post (posts (foldl move_to_drafts w l)) pid).
Proof.
  revert w. induction l as [|k l IH]; intros w H Hp; [done|].
  cbn. apply IH; [by apply move_to_drafts_keys|].
  by apply move_to_drafts_has_post.
Qed.

Lemma foldl_publish_has_post (l : list (Post * datetime)) w pid :
  keys_ok (posts w) → is_Some (get_post (posts w) pid) →
  is_Some (get_post (posts (foldl publish_round w l)) pid).
Proof.
  revert w. induction l as [|[q t] l IH]; intros w H Hp; [done|].
  cbn. apply IH; [by apply _publish_post_keys|].
  by apply _publish_post_has_post.
Qed.

Lemma listed_scheduled st q :
  keys_ok st → q ∈ get_scheduled_posts st →
  scheduled st !! post_id q = Some q.
Proof.
  intros Hk [k Hq]%elem_of_get_scheduled_posts.
  by rewrite (Hk SCHEDULED_DIR _ _ Hq).
Qed.

(** The posts a tick works on have a file in [scheduled/]. *)
Lemma tick_lists_scheduled st pid :
  keys_ok st → scheduled st !! pid = None →
  let scan := foldl (scan_post fromisoformat strptime now) (mk_scan [] [])
                (get_scheduled_posts st) in
  (pid ∉ posts_to_move_to_drafts scan)
  ∧ ∀ q t, (q, t) ∈ posts_to_publish scan → post_id q ≠ pid.
Proof.
  intros Hk Hnone scan. split.
  - intros [Hin|(q & t & Hq & Hid & _)]%scan_moves;
      [by apply elem_of_nil in Hin|].
    apply (listed_scheduled _ _ Hk) in Hq. congruence.
  - intros q t [Hin|[Hq _]]%scan_publishes; [by apply elem_of_nil in Hin|].
    apply (listed_scheduled _ _ Hk) in Hq. congruence.
Qed.

End TickFrame.

(** X18. A tick of the publisher works on the posts that have a file in
    [scheduled/] and on no other: the files of a post without one (a draft,
    a published post, a post in error) and its entries in the schedule are
    the same after the tick. The tick neither creates nor loses a post:
    [get_post] finds the same ids before and after. *)
Theorem tick_frame (isoformat : datetime -> string)
    (fromisoformat : string -> option pydatetime)
    (strptime : string -> string -> option pydatetime)
    (now : datetime) (now_at_publish : Post -> datetime)
    (outcome : World -> Post -> attempt) (w : World)
    (Hkeys : keys_ok (posts w)) :
  let w' := _check_and_publish isoformat fromisoformat strptime now
              now_at_publish outcome w in
  (∀ pid, scheduled (posts w) !! pid = None →
     same_files pid (posts w) (posts w')
     ∧ ∀ account_id, entries_of (schedule w') account_id pid
                     = entries_of (schedule w) account_id pid)
  ∧ (∀ pid, is_Some (get_post (posts w') pid)
            ↔ is_Some (get_post (posts w) pid)).
Proof.
  intros w'.
  assert (Hframe : ∀ pid, scheduled (posts w) !! pid = None →
            same_files pid (posts w) (posts w')
            ∧ ∀ account_id, entries_of (schedule w') account_id pid
                            = entries_of (schedule w) account_id pid).
  { intros pid Hnone.
    destruct (tick_lists_scheduled fromisoformat strptime now (posts w) pid
                Hkeys Hnone) as [Hmove Hpub].
    subst w'. unfold _check_and_publish.
    destruct (get_scheduled_posts (posts w)) as [|p0 l0] eqn:El;
      [split; [apply same_files_refl|done]|].
    split.
    - eapply same_files_trans.
      + by apply foldl_move_to_drafts_other.
      + apply foldl_publish_other; [by apply foldl_move_to_drafts_keys|done].
    - intros account_id.
      rewrite foldl_publish_entries_other by done.
      by apply foldl_move_to_drafts_entries_other. }
  split; [done|]. intros pid. split.
  - destruct (get_post (posts w) pid) as [p|] eqn:E; [done|].
    intros Hp. assert (Hnone : scheduled (posts w) !! pid = None).
    { rewrite get_post_None in E. apply (E SCHEDULED_DIR). }
    destruct (Hframe pid Hnone) as [Hsame _].
    by rewrite (same_files_get_post _ _ _ Hsame), E in Hp.
  - intros Hp. subst w'. unfold _check_and_publish.
    destruct (get_scheduled_posts (posts w)); [done|].
    apply foldl_publish_has_post; [by apply foldl_move_to_drafts_keys|].
    by apply foldl_move_to_drafts_has_post.
Qed.

Lemma tick_frame_witness :
  let w := mk_world store_with_draft sample_schedule in
  let w' := _check_and_publish Iso.isoformat Iso.fromisoformat Iso.strptime
              sample_now (fun _ => sample_now) (fun _ _ => Uploaded) w in
  same_files "p1" (posts w) (posts w')
  ∧ is_Some (get_post (posts w') "p1").
Proof.
  destruct (tick_frame Iso.isoformat Iso.fromisoformat Iso.strptime
              sample_now (fun _ => sample_now) (fun _ _ => Uploaded)
              (mk_world store_with_draft sample_schedule)
              keys_ok_store_with_draft) as [H1 H2].
  split.
  - apply (H1 "p1"). reflexivity.
  - apply H2. by eexists.
Defined.

(** ** A tick without recorded failures keeps the store consistent *)

Lemma consistent_scheduled_ready st pid p :
  consistent st → scheduled st !! pid = Some p → ready st pid.
Proof.
  intros (Hk & Hs & Hu) Hp. exists p. split.
  - apply (get_post_unique _ _ SCHEDULED_DIR); [|done].
    intros d Hd. apply (Hu d SCHEDULED_DIR pid); [done|].
    change (dir st SCHEDULED_DIR) with (scheduled st). by rewrite Hp.
  - by apply status_dir_scheduled_iff, (Hs SCHEDULED_DIR pid).
Qed.

Lemma others_kept_ready st st' k pid :
  others_kept k st st' → pid ≠ k → ready st pid → ready st' pid.
Proof.
  intros Hkept Hne (p & Hp & Hs). exists p. split; [|done].
  by rewrite (same_files_get_post pid st st' (Hkept pid Hne)).
Qed.

Section TickConsistent.

Variable isoformat : datetime -> string.
Variable fromisoformat : string -> option pydatetime.
Variable strptime : string -> string -> option pydatetime.
Variable now : datetime.
Variable now_at_publish : Post -> datetime.
Variable outcome : World -> Post -> attempt.
Hypothesis outcome_soft : ∀ w post, soft (outcome w post).

Local Abbreviation publish_turn :=
  (fun (w : World) '(post, _) =>
     _publish_post isoformat w (now_at_publish post) post (outcome w post)).

Lemma move_to_drafts_consistent w k :
  consistent (posts w) → ready (posts w) k →
  consistent (posts (move_to_drafts w k))
  ∧ others_kept k (posts w) (posts (move_to_drafts w k)).
Proof.
  intros Hc (p & Hp & Hs). unfold move_to_drafts. rewrite Hp.
  cbn [posts]. rewrite <- Hs.
  destruct (consistent_get_post _ _ _ Hc Hp) as (Hid & _ & _).
  destruct (replace_consistent (posts w) k p
              (set_error
                 (set_scheduled_time (set_status p POST_STATUS_DRAFT) None)
                 (Some missed_note)) Hc Hp Hid) as (? & _ & ?).
  done.
Qed.

Lemma foldl_move_to_drafts_consistent l w :
  NoDup l → consistent (posts w) → (∀ k, k ∈ l → ready (posts w) k) →
  consistent (posts (foldl move_to_drafts w l)).
Proof.
  revert w. induction l as [|k l IH]; intros w Hnd Hc Hr; [done|].
  apply NoDup_cons in Hnd as [Hk Hnd]. cbn.
  destruct (move_to_drafts_consistent w k Hc) as [Hc' Hkept];
    [apply Hr; by left|].
  apply IH; [done..|]. intros k' Hk'.
  apply (others_kept_ready (posts w) _ k); [done|congruence|].
  apply Hr. by right.
Qed.

Lemma _publish_post_consistent w t post :
  consistent (posts w) → ready (posts w) (post_id post) →
  consistent (posts (_publish_post isoformat w t post (outcome w post)))
  ∧ others_kept (post_id post) (posts w)
      (posts (_publish_post isoformat w t post (outcome w post))).
Proof.
  intros Hc (p & Hp & Hs). pose proof (outcome_soft w post) as Hsoft.
  unfold _publish_post. destruct (outcome w post) as [|msg]; cbn in Hsoft.
  - cbn [posts]. unfold publish_post. rewrite Hp. cbn [fst].
    replace (String.eqb (post_status p) POST_STATUS_SCHEDULED) with true
      by (by rewrite Hs).
    replace (_delete_post_file (posts w) (post_id post) POST_STATUS_SCHEDULED)
      with (_delete_post_file (posts w) (post_id post) (post_status p))
      by (by rewrite Hs).
    destruct (consistent_get_post _ _ _ Hc Hp) as (Hid & _ & _).
    destruct (replace_consistent (posts w) (post_id post) p
                (set_published_at (set_status p POST_STATUS_PUBLISHED)
                   (Some (isoformat t))) Hc Hp Hid) as (? & _ & ?).
    done.
  - rewrite Hsoft. split; [done|]. by intros k _ d.
Qed.

Lemma foldl_publish_consistent (l : list (Post * datetime)) w :
  NoDup (post_id <$> l.*1) → consistent (posts w) →
  (∀ q t, (q, t) ∈ l → ready (posts w) (post_id q)) →
  consistent (posts (foldl publish_turn w l)).
Proof.
  revert w. induction l as [|[q t] l IH]; intros w Hnd Hc Hr; [done|].
  cbn in Hnd. apply NoDup_cons in Hnd as [Hq Hnd]. cbn [foldl].
  destruct (_publish_post_consistent w (now_at_publish q) q Hc)
    as [Hc' Hkept]; [apply (Hr q t); by left|].
  apply IH; [done..|]. intros q' t' Hin.
  apply (others_kept_ready (posts w) _ (post_id q));
    [done| |apply (Hr q' t'); by right].
  intros E. apply Hq. rewrite <- E.
  apply list_elem_of_fmap. exists q'. split; [done|].
  apply list_elem_of_fmap. by exists (q', t').
Qed.

Lemma scan_moves_NoDup (l : list Post) (acc : Scan) :
  NoDup (posts_to_move_to_drafts acc) →
  NoDup (posts_to_move_to_drafts
           (foldl (scan_post fromisoformat strptime now) acc l)).
Proof.
  revert acc. induction l as [|q l IH]; intros acc Hnd; [done|].
  cbn [foldl]. apply IH. rewrite scan_post_verdict.
  destruct (verdict _ _ _ q) as [[t []]|]; try done.
  case_bool_decide; [done|]. cbn.
  apply NoDup_app. split; [done|]. split; [|apply NoDup_singleton].
  intros x Hx ->%list_elem_of_singleton. done.
Qed.

Lemma scan_publishes_sublist (l : list Post) (acc : Scan) :
  ∃ l', (posts_to_publish
           (foldl (scan_post fromisoformat strptime now) acc l)).*1
        = ((posts_to_publish acc).*1 ++ l')%list
        ∧ l' `sublist_of` l.
Proof.
  revert acc. induction l as [|q l IH]; intros acc.
  - exists []. by rewrite app_nil_r.
  - cbn [foldl]. destruct (IH (scan_post fromisoformat strptime now acc q))
      as (l' & -> & Hsub).
    rewrite scan_post_verdict.
    destruct (verdict _ _ _ q) as [[t []]|].
    + exists l'. split; [|by apply sublist_cons].
      by case_bool_decide.
    + exists (q :: l'). split; [|by apply sublist_skip].
      cbn. by rewrite fmap_app, <- app_assoc.
    + exists l'. split; [done|by apply sublist_cons].
    + exists l'. split; [done|by apply sublist_cons].
Qed.

End TickConsistent.

(** X19. A tick of the publisher on a consistent store leaves it
    consistent when no attempt ends in a failure it records (every attempt
    uploads, or fails with a too-early message): the demotions and the
    publications each replace the file in [scheduled/] by one file in the
    directory of the new status. *)
Theorem tick_keeps_consistent (isoformat : datetime -> string)
    (fromisoformat : string -> option pydatetime)
    (strptime : string -> string -> option pydatetime)
    (now : datetime) (now_at_publish : Post -> datetime)
    (outcome : World -> Post -> attempt) (w : World)
    (Hsoft : ∀ w0 post, soft (outcome w0 post))
    (Hc : consistent (posts w)) :
  consistent
    (posts (_check_and_publish isoformat fromisoformat strptime now
              now_at_publish outcome w)).
Proof.
  pose proof Hc as (Hk & _ & _). unfold _check_and_publish.
  destruct (get_scheduled_posts (posts w)) as [|p0 l0] eqn:El; [done|].
  rewrite <- El. clear El p0 l0.
  set (l := get_scheduled_posts (posts w)).
  set (scan := foldl (scan_post fromisoformat strptime now) (mk_scan [] []) l).
  assert (Hlisted : ∀ q, q ∈ l → scheduled (posts w) !! post_id q = Some q)
    by (intros q; by apply listed_scheduled).
  assert (Hmove : ∀ k, k ∈ posts_to_move_to_drafts scan →
            ∃ q t, q ∈ l ∧ post_id q = k
                   ∧ verdict fromisoformat strptime now q = Some (t, STALE)).
  { intros k [Hin|H]%scan_moves; [by apply elem_of_nil in Hin|done]. }
  assert (Hpub : ∀ q t, (q, t) ∈ posts_to_publish scan →
            q ∈ l ∧ verdict fromisoformat strptime now q = Some (t, DUE)).
  { intros q t [Hin|H]%scan_publishes; [by apply elem_of_nil in Hin|done]. }
  assert (Hc1 : consistent
                  (posts (foldl move_to_drafts w
                            (posts_to_move_to_drafts scan)))).
  { apply foldl_move_to_drafts_consistent; [|done|].
    - apply scan_moves_NoDup. constructor.
    - intros k (q & t & Hq & <- & _)%Hmove.
      by eapply consistent_scheduled_ready, Hlisted. }
  apply (foldl_publish_consistent isoformat now_at_publish outcome Hsoft);
    [|done|].
  - destruct (scan_publishes_sublist fromisoformat strptime now l
                (mk_scan [] [])) as (l' & E & Hsub).
    fold scan in E. rewrite E. cbn [posts_to_publish fmap list_fmap app].
    eapply sublist_NoDup; [|apply fmap_sublist, Hsub].
    unfold l, get_scheduled_posts, get_all_posts.
    rewrite sort_by_created_at_perm. cbn. rewrite app_nil_r.
    apply glob_ids_NoDup. intros ? ?. apply (Hk SCHEDULED_DIR).
  - intros q t [Hq Hv]%Hpub.
    assert (Hr : ready (posts w) (post_id q))
      by by eapply consistent_scheduled_ready, Hlisted.
    destruct Hr as (p & Hp & Hs). exists p. split; [|done].
    rewrite <- Hp. apply same_files_get_post.
    apply foldl_move_to_drafts_other; [done|].
    intros (q' & t' & Hq' & Hid & Hv')%Hmove.
    assert (q' = q); [|congruence].
    apply Hlisted in Hq, Hq'. rewrite Hid in Hq'. congruence.
Qed.

Lemma tick_keeps_consistent_witness :
  let w' := _check_and_publish Iso.isoformat Iso.fromisoformat Iso.strptime
              sample_now (fun _ => sample_now) (fun _ _ => Uploaded)
              (mk_world store_with_scheduled sample_schedule) in
  consistent (posts w') ∧ partitions_holding (posts w') "p1" = [PUBLISHED_DIR].
Proof.
  split; [|reflexivity].
  apply tick_keeps_consistent.
  - intros w0 post. exact I.
  - exact consistent_store_with_scheduled.
Defined.

(** ** The routes of a post *)

Lemma update_post_found st pid updates p :
  consistent st → upd_id updates = None → get_post st pid = Some p →
  update_post st pid updates
  = ((update_post st pid updates).1, Some (dict_update p updates))
  ∧ consistent (update_post st pid updates).1
  ∧ held_once (update_post st pid updates).1 pid (dict_update p updates)
  ∧ others_kept pid st (update_post st pid updates).1.
Proof.
  intros Hc Hid Hp. unfold update_post. rewrite Hp.
  destruct (consistent_get_post _ _ _ Hc Hp) as (Hk & _ & _).
  assert (Hid' : post_id (dict_update p updates) = pid).
  { unfold dict_update. cbn. by rewrite Hid. }
  cbn [fst snd]. split; [done|].
  destruct (String.eqb_spec (post_status p)
              (post_status (dict_update p updates))) as [E|E]; cbn [negb].
  - apply (overwrite_consistent st pid p); [done..|by rewrite E].
  - by apply (replace_consistent st pid p).
Qed.

Lemma remove_from_schedule_entries_self sch pid account_id :
  entries_of (remove_from_schedule sch pid) account_id pid = [].
Proof.
  unfold entries_of, remove_from_schedule. rewrite lookup_fmap.
  destruct (sch !! account_id) as [items|]; [|done]. cbn.
  induction items as [|e l IH]; [done|].
  rewrite (filter_cons _ e l). case_decide; [|done].
  by rewrite filter_cons, decide_False.
Qed.

Lemma editable_status p :
  post_status p = POST_STATUS_DRAFT ∨ post_status p = POST_STATUS_SCHEDULED →
  negb (String.eqb (post_status p) POST_STATUS_DRAFT
        || String.eqb (post_status p) POST_STATUS_SCHEDULED) = false.
Proof. by intros [->| ->]. Qed.

(** X20. The edit route on a draft or a scheduled post whose record, after
    the edit, has status [scheduled] and a time: the answer is 400 with the
    text of an [AttributeError] ([PostScheduler] has no [schedule_post]),
    yet the edit is in the store, which holds the merged record once; the
    schedule is as before. So every edit that leaves a scheduled post
    scheduled is answered as failed and is applied. *)
Theorem update_post_route_scheduled (w : World) (pid : string)
    (data : Updates) (p : Post)
    (Hc : consistent (posts w)) (Hid : upd_id data = None)
    (Hp : get_post (posts w) pid = Some p)
    (Heditable : post_status p = POST_STATUS_DRAFT
                 ∨ post_status p = POST_STATUS_SCHEDULED)
    (Hstatus : post_status (dict_update p data) = POST_STATUS_SCHEDULED)
    (Htime : truthy (post_scheduled_time (dict_update p data)) = true) :
  let r := update_post_route w pid data in
  r.2 = mk_response 400 false
          (body_exception (AttributeError "PostScheduler" "schedule_post"))
  ∧ held_once (posts r.1) pid (dict_update p data)
  ∧ consistent (posts r.1) ∧ others_kept pid (posts w) (posts r.1)
  ∧ schedule r.1 = schedule w.
Proof.
  intros r. subst r. unfold update_post_route.
  rewrite Hp, (editable_status p Heditable).
  destruct (update_post_found (posts w) pid data p Hc Hid Hp)
    as (E & Hc' & Hh & Hk).
  rewrite E, Hstatus, Htime. cbn [String.eqb andb fst snd posts schedule].
  rewrite String.eqb_refl. cbn [fst snd posts schedule]. done.
Qed.

Lemma update_post_route_scheduled_witness :
  let r := update_post_route (mk_world store_with_scheduled sample_schedule)
             "p1" (update_text "new caption") in
  status_code r.2 = 400
  ∧ (post_text <$> get_post (posts r.1) "p1") = Some "new caption".
Proof.
  destruct (update_post_route_scheduled
              (mk_world store_with_scheduled sample_schedule) "p1"
              (update_text "new caption") sample_scheduled
              consistent_store_with_scheduled eq_refl eq_refl
              (or_intror eq_refl) eq_refl eq_refl) as (H1 & [H2 _] & _).
  split; [by rewrite H1|by rewrite H2].
Defined.

(** X21. The edit route on a draft or a scheduled post whose record, after
    the edit, has status [draft]: the answer is 200 with the merged record,
    the store holds it once, in [drafts/], and no entry of the schedule
    names the post any more; the entries of the other posts are as
    before. *)
Theorem update_post_route_to_draft (w : World) (pid : string)
    (data : Updates) (p : Post)
    (Hc : consistent (posts w)) (Hid : upd_id data = None)
    (Hp : get_post (posts w) pid = Some p)
    (Heditable : post_status p = POST_STATUS_DRAFT
                 ∨ post_status p = POST_STATUS_SCHEDULED)
    (Hstatus : post_status (dict_update p data) = POST_STATUS_DRAFT) :
  let r := update_post_route w pid data in
  r.2 = mk_response 200 true (body_post (dict_update p data))
  ∧ held_once (posts r.1) pid (dict_update p data)
  ∧ partitions_holding (posts r.1) pid = [DRAFTS_DIR]
  ∧ consistent (posts r.1) ∧ others_kept pid (posts w) (posts r.1)
  ∧ (∀ account_id, entries_of (schedule r.1) account_id pid = [])
  ∧ (∀ account_id k, k ≠ pid →
       entries_of (schedule r.1) account_id k
       = entries_of (schedule w) account_id k).
Proof.
  intros r. subst r. unfold update_post_route.
  rewrite Hp, (editable_status p Heditable).
  destruct (update_post_found (posts w) pid data p Hc Hid Hp)
    as (E & Hc' & Hh & Hk).
  rewrite E, Hstatus. cbn [String.eqb Ascii.eqb Bool.eqb andb fst snd].
  cbn [posts schedule].
  split; [done|]. split; [done|]. split.
  { destruct Hh as [_ Hh']. rewrite Hstatus in Hh'. exact Hh'. }
  split; [done|]. split; [done|]. split.
  - intros account_id. apply remove_from_schedule_entries_self.
  - intros account_id k Hne.
    by apply remove_from_schedule_entries_other.
Qed.

Lemma update_post_route_to_draft_witness :
  let r := update_post_route (mk_world store_with_scheduled sample_schedule)
             "p1" update_to_draft in
  status_code r.2 = 200
  ∧ partitions_holding (posts r.1) "p1" = [DRAFTS_DIR]
  ∧ entries_of (schedule r.1) "acc1" "p1" = [].
Proof.
  destruct (update_post_route_to_draft
              (mk_world store_with_scheduled sample_schedule) "p1"
              update_to_draft sample_scheduled
              consistent_store_with_scheduled eq_refl eq_refl
              (or_intror eq_refl) eq_refl) as (H1 & _ & H2 & _ & _ & H3 & _).
  split; [by rewrite H1|]. split; [exact H2|]. exact (H3 "acc1").
Defined.

(** X22. The delete route on a consistent store answers 200 whether the
    post exists or not; afterwards [get_post] does not find the id, no
    directory holds it and no entry of the schedule names it; the store is
    consistent, and the files and the entries of the other posts are as
    before. *)
Theorem delete_post_route_spec (w : World) (pid : string)
    (Hc : consistent (posts w)) :
  let r := delete_post_route w pid in
  status_code r.2 = 200 ∧ success r.2 = true
  ∧ get_post (posts r.1) pid = None
  ∧ partitions_holding (posts r.1) pid = []
  ∧ (∀ account_id, entries_of (schedule r.1) account_id pid = [])
  ∧ consistent (posts r.1) ∧ others_kept pid (posts w) (posts r.1)
  ∧ (∀ account_id k, k ≠ pid →
       entries_of (schedule r.1) account_id k
       = entries_of (schedule w) account_id k).
Proof.
  intros r. subst r. unfold delete_post_route. cbn [fst snd posts schedule].
  split; [done|]. split; [done|].
  assert (Hdel : ∀ st, consistent st →
            get_post (delete_post st pid) pid = None
            ∧ consistent (delete_post st pid)
            ∧ others_kept pid st (delete_post st pid)).
  { intros st Hst. unfold delete_post.
    destruct (get_post st pid) as [p|] eqn:Hp.
    - destruct (consistent_get_post _ _ _ Hst Hp) as (_ & Hd & Hu).
      assert (Hnone : ∀ d,
                dir (_delete_post_file st pid (post_status p)) d !! pid
                = None).
      { intros d. rewrite dir_delete_post_file. case_decide as H; [done|].
        destruct (dir st d !! pid) eqn:E; [|done].
        exfalso. apply H. split; [|done]. apply Hu. by rewrite E. }
      split; [by apply get_post_None|]. split.
      + destruct Hst as (Hk & Hs & Huniq).
        split; [by apply keys_ok_delete_post_file|]. split.
        * intros d k q. rewrite dir_delete_post_file.
          case_decide; [done|]. apply Hs.
        * intros d d' k. rewrite !dir_delete_post_file.
          repeat case_decide; try (by intros ?%is_Some_None);
            try (by intros _ ?%is_Some_None). apply Huniq.
      + intros k Hne. by apply same_files_delete_post_file.
    - split; [done|]. split; [done|]. by intros k _ d. }
  destruct (Hdel (posts w) Hc) as (Hg & Hc' & Hk).
  split; [done|]. split.
  { rewrite get_post_None in Hg. unfold partitions_holding.
    rewrite !filter_cons, filter_nil.
    repeat case_decide; try done;
      match goal with H : is_Some _ |- _ =>
        rewrite Hg in H; by apply is_Some_None in H end. }
  split; [intros account_id; apply remove_from_schedule_entries_self|].
  split; [done|]. split; [done|].
  intros account_id k Hne. by apply remove_from_schedule_entries_other.
Qed.

Lemma delete_post_route_spec_witness :
  let r := delete_post_route (mk_world store_with_scheduled sample_schedule)
             "p1" in
  get_post (posts r.1) "p1" = None
  ∧ entries_of (schedule r.1) "acc1" "p1" = []
  ∧ entry_ids (get_scheduled_posts_for_account (schedule r.1) "acc1")
    = ["p2"].
Proof.
  destruct (delete_post_route_spec
              (mk_world store_with_scheduled sample_schedule) "p1"
              consistent_store_with_scheduled) as (_ & _ & H1 & _ & H2 & _).
  split; [exact H1|]. split; [exact (H2 "acc1")|reflexivity].
Defined.

(** X23. Publish-now on a post whose file is in [drafts/] (a draft, or a
    post in error), when the upload goes through: the answer is 200, but
    [publish_post] removes no file, so the post is held twice, in [drafts/]
    as before and in [published/]; [get_post] still returns the old record
    and a second publish-now is accepted and uploads again. *)
Theorem publish_now_draft_stays (isoformat : datetime -> string) (w : World)
    (now : datetime) (pid : string) (p : Post)
    (Hc : consistent (posts w)) (Hp : get_post (posts w) pid = Some p)
    (Hdir : _get_status_dir (post_status p) = DRAFTS_DIR) :
  let r := publish_now_route isoformat w now pid Uploaded in
  r.2 = mk_response 200 true (body_message "Пост успешно опубликован!")
  ∧ get_post (posts r.1) pid = Some p
  ∧ partitions_holding (posts r.1) pid = [DRAFTS_DIR; PUBLISHED_DIR]
  ∧ published_in (posts r.1) pid
  ∧ ¬ consistent (posts r.1)
  ∧ ∀ now' outcome,
      publish_now_route isoformat r.1 now' pid outcome
      = (_publish_post isoformat r.1 now' p outcome,
         mk_response 200 true (body_message "Пост успешно опубликован!")).
Proof.
  intros r.
  destruct (consistent_get_post _ _ _ Hc Hp) as (Hid & Hd & Hu).
  assert (Hnp : String.eqb (post_status p) POST_STATUS_PUBLISHED = false).
  { destruct (String.eqb_spec (post_status p) POST_STATUS_PUBLISHED) as [E|];
      [|done]. rewrite E in Hdir. discriminate Hdir. }
  assert (Hns : String.eqb (post_status p) POST_STATUS_SCHEDULED = false).
  { destruct (String.eqb_spec (post_status p) POST_STATUS_SCHEDULED) as [E|];
      [|done]. rewrite E in Hdir. discriminate Hdir. }
  set (p' := set_published_at (set_status p POST_STATUS_PUBLISHED)
               (Some (isoformat now))).
  assert (Er : r = (mk_world (_save_post (posts w) p')
                      (mark_as_published (schedule w) pid),
                    mk_response 200 true
                      (body_message "Пост успешно опубликован!"))).
  { subst r. unfold publish_now_route. rewrite Hp, Hnp.
    unfold _publish_post, publish_post. rewrite Hid, Hp, Hns. done. }
  rewrite Er. cbn [fst snd posts].
  assert (Hat : ∀ d, dir (_save_post (posts w) p') d !! pid
                     = if decide (d = PUBLISHED_DIR) then Some p'
                       else if decide (d = DRAFTS_DIR) then Some p
                       else None).
  { intros d. rewrite dir_save_post.
    change (_get_status_dir (post_status p')) with PUBLISHED_DIR.
    change (post_id p') with (post_id p). rewrite Hid.
    destruct (decide (d = PUBLISHED_DIR)) as [->|Hd1].
    - by rewrite decide_True.
    - rewrite decide_False by tauto.
      destruct (decide (d = DRAFTS_DIR)) as [->|Hd2].
      + by rewrite <- Hdir.
      + destruct (dir (posts w) d !! pid) eqn:E; [|done].
        exfalso. apply Hd2. rewrite <- Hdir. apply Hu. by rewrite E. }
  assert (Hg : get_post (_save_post (posts w) p') pid = Some p).
  { rewrite get_post_dirs, (Hat DRAFTS_DIR). done. }
  split; [done|]. split; [done|]. split.
  { unfold partitions_holding. rewrite !filter_cons, filter_nil, !Hat.
    cbn. done. }
  split.
  { exists p'. split; [|done].
    change (published ?s) with (dir s PUBLISHED_DIR). by rewrite Hat. }
  split.
  { intros (_ & _ & Huniq).
    assert (DRAFTS_DIR = PUBLISHED_DIR); [|done].
    apply (Huniq _ _ pid); by rewrite Hat. }
  intros now' outcome. unfold publish_now_route. cbn [posts].
  by rewrite Hg, Hnp.
Qed.

Lemma publish_now_draft_stays_witness :
  let r := publish_now_route Iso.isoformat (mk_world store_with_draft ∅)
             sample_now "p1" Uploaded in
  status_code r.2 = 200
  ∧ get_post (posts r.1) "p1" = Some sample_draft
  ∧ partitions_holding (posts r.1) "p1" = [DRAFTS_DIR; PUBLISHED_DIR].
Proof.
  destruct (publish_now_draft_stays Iso.isoformat
              (mk_world store_with_draft ∅) sample_now "p1" sample_draft
              consistent_store_with_draft eq_refl eq_refl)
    as (H1 & H2 & H3 & _).
  split; [by rewrite H1|]. split; [exact H2|exact H3].
Defined.

(** X24. Publish-now on a post that is not published answers 200 with the
    message of success whatever the attempt gave: [_publish_post] catches
    the failure. After a failure whose message holds no too-early marker
    the post read back has status [error] and carries the message; after
    one that holds such a marker nothing has changed. *)
Theorem publish_now_answers_success (isoformat : datetime -> string)
    (w : World) (now : datetime) (pid : string) (p : Post)
    (outcome : attempt)
    (Hkeys : keys_ok (posts w)) (Hp : get_post (posts w) pid = Some p)
    (Hstatus : post_status p ≠ POST_STATUS_PUBLISHED) :
  let r := publish_now_route isoformat w now pid outcome in
  r.2 = mk_response 200 true (body_message "Пост успешно опубликован!")
  ∧ (∀ error_msg, outcome = Failed error_msg → too_early error_msg = false →
       ∃ p', get_post (posts r.1) pid = Some p'
             ∧ post_status p' = POST_STATUS_ERROR
             ∧ post_error p' = Some error_msg
             ∧ post_published_at p' = post_published_at p)
  ∧ (∀ error_msg, outcome = Failed error_msg → too_early error_msg = true →
       r.1 = w).
Proof.
  intros r. pose proof (keys_ok_get_post _ _ _ Hkeys Hp) as Hid.
  assert (Er : r = (_publish_post isoformat w now p outcome,
                    mk_response 200 true
                      (body_message "Пост успешно опубликован!"))).
  { subst r. unfold publish_now_route. rewrite Hp.
    by destruct (String.eqb_spec (post_status p) POST_STATUS_PUBLISHED). }
  rewrite Er. cbn [fst snd]. split; [done|]. split.
  - intros msg -> Hno. unfold _publish_post. rewrite Hno, Hid.
    unfold mark_post_error. rewrite Hp. cbn [fst posts].
    eexists. split.
    + rewrite get_post_dirs, dir_save_post.
      rewrite decide_True; [done|]. by split.
    + done.
  - intros msg -> Hyes. unfold _publish_post. by rewrite Hyes.
Qed.

Lemma publish_now_answers_success_witness :
  let r := publish_now_route Iso.isoformat
             (mk_world store_with_scheduled ∅) sample_now "p1"
             (Failed "login_required") in
  success r.2 = true
  ∧ (post_status <$> get_post (posts r.1) "p1") = Some POST_STATUS_ERROR.
Proof.
  destruct (publish_now_answers_success Iso.isoformat
              (mk_world store_with_scheduled ∅) sample_now "p1"
              sample_scheduled (Failed "login_required")
              keys_ok_store_with_scheduled eq_refl ltac:(discriminate))
    as (H1 & H2 & _).
  split; [by rewrite H1|].
  destruct (H2 "login_required" eq_refl eq_refl) as (p' & -> & Hs & _).
  cbn. by rewrite Hs.
Defined.

(** ** The limits and the attempt of [_publish_post] *)

Section AttemptLemmas.

Variable isoformat : datetime -> string.
Variable fromisoformat : string -> option pydatetime.
Variable isoformat_error : string -> string.
Variable compare_error : string.
Variable subtract_error : string.
Variable format_0f : Q -> string.

Local Abbreviation limits :=
  (_check_instagram_limits fromisoformat isoformat_error compare_error
     subtract_error format_0f).
Local Abbreviation try_publish :=
  (publish_attempt fromisoformat isoformat_error compare_error
     subtract_error format_0f).

Lemma today_posts_filter today_start (l : list Post) :
  readable fromisoformat l →
  today_posts fromisoformat isoformat_error compare_error today_start l
  = inr (filter (fun p => published_today fromisoformat today_start p = true)
           l).
Proof.
  induction l as [|p l IH]; intros Hr; [done|].
  cbn [today_posts]. rewrite IH by (intros q Hq; apply Hr; by right).
  destruct (truthy (post_published_at p)) eqn:Ht.
  - destruct (Hr p ltac:(by left) Ht) as [d Hd]. rewrite Hd.
    destruct (leb today_start d) eqn:El.
    + rewrite filter_cons_True; [done|].
      unfold published_today. by rewrite Ht, Hd, El.
    + rewrite filter_cons_False; [done|].
      unfold published_today. rewrite Ht, Hd, El. discriminate.
  - rewrite filter_cons_False; [done|].
    unfold published_today. rewrite Ht. discriminate.
Qed.

Lemma publish_attempt_ready c st now now_at_interval post :
  client_ready c (post_account_id post) →
  try_publish c st now now_at_interval post
  = match limits st now now_at_interval (post_account_id post) with
    | Fails e => Failed e
    | Passes =>
        match post_media post with
        | [] => Failed "Нет медиафайлов для публикации"
        | media_files =>
            match find_media c media_files with
            | inl e => Failed e
            | inr media_paths =>
                match upload c (choose_upload c post media_paths) with
                | None => Uploaded
                | Some e => Failed e
                end
            end
        end
    end.
Proof.
  intros [[username Hu] Hclient]. unfold publish_attempt. rewrite Hu.
  destruct Hclient as [->|[Hl Hg]]; [done|].
  rewrite Hl, Hg. by destruct (get_client c _).
Qed.

Lemma _publish_post_failed w now post stored error_msg :
  keys_ok (posts w) → get_post (posts w) (post_id post) = Some stored →
  too_early error_msg = false →
  let w' := _publish_post isoformat w now post (Failed error_msg) in
  get_post (posts w') (post_id post)
  = Some (set_error (set_status stored POST_STATUS_ERROR) (Some error_msg))
  ∧ schedule w' = schedule w.
Proof.
  intros Hk Hp Hno w'. subst w'. unfold _publish_post. rewrite Hno.
  pose proof (keys_ok_get_post _ _ _ Hk Hp) as Hid.
  unfold mark_post_error. rewrite Hp. cbn [fst posts schedule].
  split; [|done]. rewrite get_post_dirs, dir_save_post.
  rewrite decide_True; [done|]. by split.
Qed.

End AttemptLemmas.

(** X25. When ten or more published posts of the account carry a time of
    publication of today, the attempt for a due post of that account fails
    with the message of the daily limit. The message holds no too-early
    marker, so the post is not put off to the next day: it is marked with
    status [error] and the message, and the schedule keeps its entry. *)
Theorem daily_limit_marks_error (isoformat : datetime -> string)
    (fromisoformat : string -> option pydatetime)
    (isoformat_error : string -> string)
    (compare_error subtract_error : string) (format_0f : Q -> string)
    (c : Collaborators) (w : World) (now now_at_interval now_at_publish
    : datetime) (post stored : Post)
    (Hkeys : keys_ok (posts w))
    (Hget : get_post (posts w) (post_id post) = Some stored)
    (Hclient : client_ready c (post_account_id post))
    (Hread : readable fromisoformat
               (get_posts_by_account (posts w) (post_account_id post)
                  (Some POST_STATUS_PUBLISHED)))
    (Hlimit : (10 ≤ length
                      (filter
                         (fun p => published_today fromisoformat
                                     (mk_datetime (ordinal now) 0 0 0 0) p
                                   = true)
                         (get_posts_by_account (posts w)
                            (post_account_id post)
                            (Some POST_STATUS_PUBLISHED))))%nat) :
  let outcome :=
    publish_attempt fromisoformat isoformat_error compare_error
      subtract_error format_0f c (posts w) now now_at_interval post in
  let w' := _publish_post isoformat w now_at_publish post outcome in
  outcome = Failed "Превышен лимит: максимум 10 постов в день"
  ∧ get_post (posts w') (post_id post)
    = Some (set_error (set_status stored POST_STATUS_ERROR)
              (Some "Превышен лимит: максимум 10 постов в день"))
  ∧ schedule w' = schedule w.
Proof.
  intros outcome w'.
  assert (E : outcome = Failed "Превышен лимит: максимум 10 постов в день").
  { subst outcome. rewrite publish_attempt_ready by done.
    unfold _check_instagram_limits. rewrite today_posts_filter by done.
    destruct (Z.leb_spec max_posts_per_day
                (Z.of_nat
                   (length
                      (filter
                         (fun p => published_today fromisoformat
                                     (mk_datetime (ordinal now) 0 0 0 0) p
                                   = true)
                         (get_posts_by_account (posts w)
                            (post_account_id post)
                            (Some POST_STATUS_PUBLISHED)))))); [done|].
    unfold max_posts_per_day in *. lia. }
  split; [done|]. subst w'. rewrite E.
  by apply _publish_post_failed.
Qed.

Lemma daily_limit_marks_error_witness :
  let w := mk_world store_at_limit sample_schedule in
  let w' := _publish_post Iso.isoformat w sample_now sample_scheduled
              (publish_attempt Iso.fromisoformat (fun s => s) "" ""
                 (fun _ => "") willing (posts w) sample_now sample_now
                 sample_scheduled) in
  get_post (posts w') "p1"
  = Some (set_error (set_status sample_scheduled POST_STATUS_ERROR)
            (Some "Превышен лимит: максимум 10 постов в день")).
Proof.
  assert (Hk : keys_ok store_at_limit).
  { intros d k p. destruct d; cbn.
    - by rewrite lookup_empty.
    - intros [<- <-]%lookup_singleton_Some. done.
    - intros H. apply elem_of_list_to_map_2 in H.
      apply list_elem_of_fmap in H as (i & [= -> ->] & _). done. }
  assert (Hget : get_post store_at_limit "p1" = Some sample_scheduled)
    by (vm_compute; reflexivity).
  assert (Hread : readable Iso.fromisoformat
                    (get_posts_by_account store_at_limit "acc1"
                       (Some POST_STATUS_PUBLISHED))).
  { intros p Hp _. revert p Hp. apply Forall_forall.
    let l := eval vm_compute in
      (get_posts_by_account store_at_limit "acc1"
         (Some POST_STATUS_PUBLISHED)) in
    change (get_posts_by_account store_at_limit "acc1"
              (Some POST_STATUS_PUBLISHED)) with l.
    repeat (constructor; [eexists; vm_compute; reflexivity|]). constructor. }
  assert (Hlimit : (10 ≤ length
                           (filter
                              (fun p => published_today Iso.fromisoformat
                                          (mk_datetime 739549 0 0 0 0) p
                                        = true)
                              (get_posts_by_account store_at_limit "acc1"
                                 (Some POST_STATUS_PUBLISHED))))%nat)
    by (vm_compute; lia).
  exact (proj1 (proj2 (daily_limit_marks_error Iso.isoformat
                         Iso.fromisoformat (fun s => s) "" "" (fun _ => "")
                         willing (mk_world store_at_limit sample_schedule)
                         sample_now sample_now sample_now sample_scheduled
                         sample_scheduled Hk Hget
                         (conj (ex_intro _ "user" eq_refl)
                            (or_introl eq_refl))
                         Hread Hlimit))).
Defined.

Lemma too_early_interval_message (tail : string) :
  too_early ("Слишком рано! Нужно подождать еще " ++ tail) = true.
Proof. reflexivity. Qed.

(** X26. When fewer than ten posts of the account were published today
    and the one with the greatest [published_at] was published less than
    thirty minutes before the clock reading, the attempt fails with a
    message that holds the too-early marker, whatever the number in it:
    [_publish_post] leaves the world as it is, the post stays scheduled
    and the next tick tries again. *)
Theorem min_interval_postpones (isoformat : datetime -> string)
    (fromisoformat : string -> option pydatetime)
    (isoformat_error : string -> string)
    (compare_error subtract_error : string) (format_0f : Q -> string)
    (c : Collaborators) (w : World) (now now_at_interval now_at_publish
    : datetime) (post best : Post) (rest : list Post) (last_time : datetime)
    (Hclient : client_ready c (post_account_id post))
    (Hread : readable fromisoformat
               (get_posts_by_account (posts w) (post_account_id post)
                  (Some POST_STATUS_PUBLISHED)))
    (Htoday : filter
                (fun p => published_today fromisoformat
                            (mk_datetime (ordinal now) 0 0 0 0) p = true)
                (get_posts_by_account (posts w) (post_account_id post)
                   (Some POST_STATUS_PUBLISHED))
              = best :: rest)
    (Hbelow : (length (best :: rest) < 10)%nat)
    (Hlast : fromisoformat
               (published_at_key (max_by_published_at best rest))
             = Some (Naive last_time))
    (Hrecent : to_us now_at_interval - to_us last_time
               < min_post_interval * US_PER_MINUTE) :
  let outcome :=
    publish_attempt fromisoformat isoformat_error compare_error
      subtract_error format_0f c (posts w) now now_at_interval post in
  (∃ error_msg, outcome = Failed error_msg ∧ too_early error_msg = true)
  ∧ _publish_post isoformat w now_at_publish post outcome = w.
Proof.
  intros outcome.
  assert (E : ∃ error_msg,
            outcome = Failed error_msg ∧ too_early error_msg = true).
  { subst outcome. rewrite publish_attempt_ready by done.
    unfold _check_instagram_limits. rewrite today_posts_filter by done.
    rewrite Htoday.
    destruct (Z.leb_spec max_posts_per_day
                (Z.of_nat (length (best :: rest)))) as [H|_].
    { unfold max_posts_per_day in H. lia. }
    rewrite Hlast.
    fold (minutes_between last_time now_at_interval).
    assert (Hlt : Qltb (minutes_between last_time now_at_interval)
                    (inject_Z min_post_interval) = true).
    { destruct (Qltb _ _) eqn:El; [done|].
      apply Qltb_ge, minutes_between_ge in El. lia. }
    rewrite Hlt. eexists. split; [done|].
    apply too_early_interval_message. }
  split; [done|]. destruct E as (msg & -> & Hearly).
  unfold _publish_post. by rewrite Hearly.
Qed.

Lemma min_interval_postpones_witness :
  let w := mk_world store_just_published sample_schedule in
  _publish_post Iso.isoformat w sample_now sample_scheduled
    (publish_attempt Iso.fromisoformat (fun s => s) "" "" (fun _ => "15")
       willing (posts w) sample_now sample_now sample_scheduled)
  = w.
Proof.
  refine (proj2 (min_interval_postpones Iso.isoformat Iso.fromisoformat
                   (fun s => s) "" "" (fun _ => "15") willing
                   (mk_world store_just_published sample_schedule)
                   sample_now sample_now sample_now sample_scheduled
                   _ [] (mk_datetime 739549 8 45 3 0)
                   (conj (ex_intro _ "user" eq_refl) (or_introl eq_refl))
                   _ _ _ _ _)).
  - intros p Hp _. revert p Hp. apply Forall_forall.
    let l := eval vm_compute in
      (get_posts_by_account store_just_published "acc1"
         (Some POST_STATUS_PUBLISHED)) in
    change (get_posts_by_account (posts (mk_world store_just_published
                                           sample_schedule))
              (post_account_id sample_scheduled)
              (Some POST_STATUS_PUBLISHED)) with l.
    repeat (constructor; [eexists; vm_compute; reflexivity|]). constructor.
  - vm_compute. reflexivity.
  - cbn. lia.
  - vm_compute. reflexivity.
  - vm_compute. reflexivity.
Defined.

(** X27. A post without media files cannot be published: when the account
    and its client are there and the limits pass, the attempt fails with
    the message that there are no media files, which holds no too-early
    marker; the post is marked with status [error] and the message. *)
Theorem no_media_marks_error (isoformat : datetime -> string)
    (fromisoformat : string -> option pydatetime)
    (isoformat_error : string -> string)
    (compare_error subtract_error : string) (format_0f : Q -> string)
    (c : Collaborators) (w : World) (now now_at_interval now_at_publish
    : datetime) (post stored : Post)
    (Hkeys : keys_ok (posts w))
    (Hget : get_post (posts w) (post_id post) = Some stored)
    (Hclient : client_ready c (post_account_id post))
    (Hlimits : _check_instagram_limits fromisoformat isoformat_error
                 compare_error subtract_error format_0f (posts w) now
                 now_at_interval (post_account_id post) = Passes)
    (Hmedia : post_media post = []) :
  let outcome :=
    publish_attempt fromisoformat isoformat_error compare_error
      subtract_error format_0f c (posts w) now now_at_interval post in
  let w' := _publish_post isoformat w now_at_publish post outcome in
  outcome = Failed "Нет медиафайлов для публикации"
  ∧ get_post (posts w') (post_id post)
    = Some (set_error (set_status stored POST_STATUS_ERROR)
              (Some "Нет медиафайлов для публикации"))
  ∧ schedule w' = schedule w.
Proof.
  intros outcome w'.
  assert (E : outcome = Failed "Нет медиафайлов для публикации").
  { subst outcome. rewrite publish_attempt_ready by done.
    by rewrite Hlimits, Hmedia. }
  split; [done|]. subst w'. rewrite E. by apply _publish_post_failed.
Qed.

Lemma no_media_marks_error_witness :
  let w := mk_world store_with_no_media sample_schedule in
  let w' := _publish_post Iso.isoformat w sample_now sample_no_media
              (publish_attempt Iso.fromisoformat (fun s => s) "" ""
                 (fun _ => "") willing (posts w) sample_now sample_now
                 sample_no_media) in
  get_post (posts w') "p1"
  = Some (set_error (set_status sample_no_media POST_STATUS_ERROR)
            (Some "Нет медиафайлов для публикации")).
Proof.
  assert (Hk : keys_ok store_with_no_media).
  { intros d k p. destruct d; cbn.
    - by rewrite lookup_empty.
    - intros [<- <-]%lookup_singleton_Some. done.
    - by rewrite lookup_empty. }
  refine (proj1 (proj2 (no_media_marks_error Iso.isoformat Iso.fromisoformat
                          (fun s => s) "" "" (fun _ => "") willing
                          (mk_world store_with_no_media sample_schedule)
                          sample_now sample_now sample_now sample_no_media
                          sample_no_media Hk _
                          (conj (ex_intro _ "user" eq_refl)
                             (or_introl eq_refl))
                          _ eq_refl))).
  - vm_compute. reflexivity.
  - vm_compute. reflexivity.
Defined.

(** ** After a recorded failure *)

Lemma dir_save_post_own st p d :
  dir (_save_post st p) d !! post_id p
  = if decide (d = _get_status_dir (post_status p)) then Some p
    else dir st d !! post_id p.
Proof.
  rewrite dir_save_post. destruct (decide (d = _ )) as [->|Hne].
  - by rewrite decide_True.
  - by rewrite decide_False by tauto.
Qed.

(** X28. A scheduled post of a consistent store whose attempt failed with
    a recorded failure keeps its file in [scheduled/]: it is listed again
    by [get_scheduled_posts]. When a later attempt uploads, [publish_post]
    reads the record in [drafts/], whose status is [error], and removes no
    file: the post is then held in the three directories, it is still
    listed as scheduled for the next tick, [get_post] still returns the
    record in error, and the published record carries the old message. *)
Theorem retry_after_failure_keeps_scheduled (isoformat : datetime -> string)
    (w : World) (now1 now2 : datetime) (post : Post) (error_msg : string)
    (Hc : consistent (posts w))
    (Hsched : scheduled (posts w) !! post_id post = Some post)
    (Hhard : too_early error_msg = false) :
  let failed := set_error (set_status post POST_STATUS_ERROR)
                  (Some error_msg) in
  let w1 := _publish_post isoformat w now1 post (Failed error_msg) in
  let w2 := _publish_post isoformat w1 now2 post Uploaded in
  partitions_holding (posts w1) (post_id post) = [DRAFTS_DIR; SCHEDULED_DIR]
  ∧ post ∈ get_scheduled_posts (posts w1)
  ∧ partitions_holding (posts w2) (post_id post)
    = [DRAFTS_DIR; SCHEDULED_DIR; PUBLISHED_DIR]
  ∧ post ∈ get_scheduled_posts (posts w2)
  ∧ get_post (posts w2) (post_id post) = Some failed
  ∧ published (posts w2) !! post_id post
    = Some (set_published_at (set_status failed POST_STATUS_PUBLISHED)
              (Some (isoformat now2))).
Proof.
  intros failed w1 w2.
  destruct (consistent_scheduled_ready _ _ _ Hc Hsched) as (p & Hp & Hs).
  destruct (consistent_get_post _ _ _ Hc Hp) as (Hid & Hd & Hu).
  assert (p = post) as ->.
  { rewrite Hs in Hd.
    change (dir (posts w) (_get_status_dir POST_STATUS_SCHEDULED))
      with (scheduled (posts w)) in Hd. congruence. }
  assert (Hd0 : dir (posts w) DRAFTS_DIR !! post_id post = None).
  { destruct (dir (posts w) DRAFTS_DIR !! post_id post) eqn:E; [|done].
    assert (DRAFTS_DIR = _get_status_dir (post_status post)) as H
      by (apply Hu; by rewrite E).
    rewrite Hs in H. discriminate H. }
  assert (Hp0 : dir (posts w) PUBLISHED_DIR !! post_id post = None).
  { destruct (dir (posts w) PUBLISHED_DIR !! post_id post) eqn:E; [|done].
    assert (PUBLISHED_DIR = _get_status_dir (post_status post)) as H
      by (apply Hu; by rewrite E).
    rewrite Hs in H. discriminate H. }
  assert (E1 : posts w1 = _save_post (posts w) failed).
  { subst w1. unfold _publish_post. rewrite Hhard.
    unfold mark_post_error. by rewrite Hp. }
  assert (Hat1 : ∀ d, dir (posts w1) d !! post_id post
                      = match d with
                        | DRAFTS_DIR => Some failed
                        | SCHEDULED_DIR => Some post
                        | PUBLISHED_DIR => None
                        end).
  { intros d. rewrite E1.
    change (post_id post) with (post_id failed) at 1.
    rewrite dir_save_post_own.
    change (_get_status_dir (post_status failed)) with DRAFTS_DIR.
    change (post_id failed) with (post_id post).
    destruct d; [done| |done]. by rewrite decide_False. }
  assert (Hg1 : get_post (posts w1) (post_id post) = Some failed).
  { by rewrite get_post_dirs, (Hat1 DRAFTS_DIR). }
  set (p' := set_published_at (set_status failed POST_STATUS_PUBLISHED)
               (Some (isoformat now2))).
  assert (E2 : posts w2 = _save_post (posts w1) p').
  { subst w2. unfold _publish_post, publish_post. by rewrite Hg1. }
  assert (Hat2 : ∀ d, dir (posts w2) d !! post_id post
                      = match d with
                        | DRAFTS_DIR => Some failed
                        | SCHEDULED_DIR => Some post
                        | PUBLISHED_DIR => Some p'
                        end).
  { intros d. rewrite E2.
    change (post_id post) with (post_id p') at 1.
    rewrite dir_save_post_own.
    change (_get_status_dir (post_status p')) with PUBLISHED_DIR.
    change (post_id p') with (post_id post). rewrite Hat1.
    destruct d; [by rewrite decide_False..|by rewrite decide_True]. }
  split.
  { unfold partitions_holding. rewrite !filter_cons, filter_nil, !Hat1.
    cbn. done. }
  split.
  { apply elem_of_get_scheduled_posts. exists (post_id post).
    apply (Hat1 SCHEDULED_DIR). }
  split.
  { unfold partitions_holding. rewrite !filter_cons, filter_nil, !Hat2.
    cbn. done. }
  split.
  { apply elem_of_get_scheduled_posts. exists (post_id post).
    apply (Hat2 SCHEDULED_DIR). }
  split; [by rewrite get_post_dirs, (Hat2 DRAFTS_DIR)|].
  apply (Hat2 PUBLISHED_DIR).
Qed.

Lemma retry_after_failure_keeps_scheduled_witness :
  let w := mk_world store_with_scheduled sample_schedule in
  let w1 := _publish_post Iso.isoformat w sample_now sample_scheduled
              (Failed "login_required") in
  let w2 := _publish_post Iso.isoformat w1 sample_now sample_scheduled
              Uploaded in
  partitions_holding (posts w2) "p1"
  = [DRAFTS_DIR; SCHEDULED_DIR; PUBLISHED_DIR]
  ∧ sample_scheduled ∈ get_scheduled_posts (posts w2).
Proof.
  destruct (retry_after_failure_keeps_scheduled Iso.isoformat
              (mk_world store_with_scheduled sample_schedule) sample_now
              sample_now sample_scheduled "login_required"
              consistent_store_with_scheduled eq_refl eq_refl)
    as (_ & _ & H1 & H2 & _).
  split; [exact H1|exact H2].
Defined.

(** X29. The demotion of a stale post heals what a recorded failure left:
    for a scheduled post of a consistent store that was marked in error by
    [_publish_post], the demotion removes the file in [scheduled/] and
    rewrites the one in [drafts/]; the store is consistent again and holds
    the post once, as a draft with no scheduled time, whose error is the
    note of the missed publication (the message of the failure is lost),
    and no entry of the schedule names it. *)
Theorem demotion_after_failure_heals (isoformat : datetime -> string)
    (w : World) (now : datetime) (post : Post) (error_msg : string)
    (Hc : consistent (posts w))
    (Hsched : scheduled (posts w) !! post_id post = Some post)
    (Hhard : too_early error_msg = false) :
  let w1 := _publish_post isoformat w now post (Failed error_msg) in
  let w2 := move_to_drafts w1 (post_id post) in
  ¬ consistent (posts w1)
  ∧ consistent (posts w2)
  ∧ partitions_holding (posts w2) (post_id post) = [DRAFTS_DIR]
  ∧ (∃ p, get_post (posts w2) (post_id post) = Some p ∧ is_demoted p
          ∧ post_text p = post_text post ∧ post_media p = post_media post)
  ∧ (∀ account_id, entries_of (schedule w2) account_id (post_id post) = [])
  ∧ others_kept (post_id post) (posts w) (posts w2).
Proof.
  intros w1 w2.
  destruct (consistent_scheduled_ready _ _ _ Hc Hsched) as (p & Hp & Hs).
  destruct (consistent_get_post _ _ _ Hc Hp) as (Hid & Hd & Hu).
  assert (p = post) as ->.
  { rewrite Hs in Hd.
    change (dir (posts w) (_get_status_dir POST_STATUS_SCHEDULED))
      with (scheduled (posts w)) in Hd. congruence. }
  set (failed := set_error (set_status post POST_STATUS_ERROR)
                   (Some error_msg)).
  assert (E1 : w1 = mk_world (_save_post (posts w) failed) (schedule w)).
  { subst w1. unfold _publish_post. rewrite Hhard.
    unfold mark_post_error. by rewrite Hp. }
  assert (Hbad : ¬ consistent (posts w1)).
  { rewrite E1. cbn [posts].
    apply (save_beside_inconsistent (posts w) (post_id post) post);
      [done..|]. rewrite Hs. discriminate. }
  split; [done|].
  assert (Hg1 : get_post (posts w1) (post_id post) = Some failed).
  { rewrite E1. cbn [posts]. rewrite get_post_dirs.
    change (post_id post) with (post_id failed) at 1.
    by rewrite dir_save_post_own. }
  set (d' := set_error
               (set_scheduled_time (set_status post POST_STATUS_DRAFT) None)
               (Some missed_note)).
  assert (E2 : posts w2
               = _save_post
                   (_delete_post_file (posts w) (post_id post)
                      (post_status post)) d').
  { subst w2. unfold move_to_drafts. rewrite Hg1, E1. cbn [posts].
    rewrite Hs. unfold _save_post, _delete_post_file.
    change (_get_status_dir (post_status failed)) with DRAFTS_DIR.
    change (_get_status_dir POST_STATUS_SCHEDULED) with SCHEDULED_DIR.
    change (_get_status_dir (post_status ?x)) with DRAFTS_DIR.
    change (post_id failed) with (post_id post).
    destruct (posts w) as [dr sc pu]. cbn. f_equal.
    by rewrite insert_insert_eq. }
  destruct (replace_consistent (posts w) (post_id post) post d' Hc Hp
              eq_refl) as (Hc2 & Hh2 & Hk2).
  rewrite <- E2 in Hc2, Hh2, Hk2.
  split; [done|]. split; [by destruct Hh2 as [_ ->]|]. split.
  { exists d'. split; [by destruct Hh2|]. done. }
  split; [|done].
  intros account_id. subst w2. unfold move_to_drafts. rewrite Hg1.
  cbn [schedule]. apply remove_from_schedule_entries_self.
Qed.

Lemma demotion_after_failure_heals_witness :
  let w := mk_world store_with_scheduled sample_schedule in
  let w1 := _publish_post Iso.isoformat w sample_now sample_scheduled
              (Failed "login_required") in
  let w2 := move_to_drafts w1 "p1" in
  consistent (posts w2) ∧ partitions_holding (posts w2) "p1" = [DRAFTS_DIR].
Proof.
  destruct (demotion_after_failure_heals Iso.isoformat
              (mk_world store_with_scheduled sample_schedule) sample_now
              sample_scheduled "login_required"
              consistent_store_with_scheduled eq_refl eq_refl)
    as (_ & H1 & H2 & _).
  split; [exact H1|exact H2].
Defined.

(** ** Messages that read as too early *)

Lemma contains_app_r (needle a b : string) :
  contains needle b = true → contains needle (a ++ b) = true.
Proof.
  intros H. induction a as [|x a IH]; [done|].
  rewrite app_cons. cbn [contains]. rewrite IH. apply orb_true_r.
Qed.

Lemma lower_app (a b : string) : lower (a ++ b) = (lower a ++ lower b)%string.
Proof.
  induction a as [|x a IH]; [done|].
  rewrite app_cons. cbn [lower]. by rewrite IH, app_cons.
Qed.

Lemma too_early_app_r (a b : string) :
  contains "wait" (lower b) = true → too_early (a ++ b) = true.
Proof.
  intros H. unfold too_early. rewrite lower_app.
  rewrite (contains_app_r "wait" (lower a) (lower b) H). apply orb_true_r.
Qed.

(** X30. The test for a too-early failure looks for [wait] anywhere in the
    message, in any letter case, and the message of a missing media file
    ends with the file name: when the first media file of a post is found
    neither among the photos nor among the videos and its name holds
    [wait], the failure is taken for a too-early one; the post is not
    marked in error, the world is as before and the attempt is repeated at
    the next tick. *)
Theorem missing_media_named_wait_postpones (isoformat : datetime -> string)
    (fromisoformat : string -> option pydatetime)
    (isoformat_error : string -> string)
    (compare_error subtract_error : string) (format_0f : Q -> string)
    (c : Collaborators) (w : World) (now now_at_interval now_at_publish
    : datetime) (post : Post) (filename : string) (rest : list string)
    (Hclient : client_ready c (post_account_id post))
    (Hlimits : _check_instagram_limits fromisoformat isoformat_error
                 compare_error subtract_error format_0f (posts w) now
                 now_at_interval (post_account_id post) = Passes)
    (Hmedia : post_media post = filename :: rest)
    (Hphoto : photo_exists c filename = false)
    (Hvideo : video_exists c filename = false)
    (Hname : contains "wait" (lower filename) = true) :
  let outcome :=
    publish_attempt fromisoformat isoformat_error compare_error
      subtract_error format_0f c (posts w) now now_at_interval post in
  outcome = Failed ("Медиафайл не найден: " ++ filename)
  ∧ too_early ("Медиафайл не найден: " ++ filename) = true
  ∧ _publish_post isoformat w now_at_publish post outcome = w.
Proof.
  intros outcome.
  assert (E : outcome = Failed ("Медиафайл не найден: " ++ filename)).
  { subst outcome.
    rewrite (publish_attempt_ready fromisoformat isoformat_error
               compare_error subtract_error format_0f) by done.
    rewrite Hlimits, Hmedia. cbn [find_media]. by rewrite Hphoto, Hvideo. }
  assert (Hearly : too_early ("Медиафайл не найден: " ++ filename) = true)
    by by apply too_early_app_r.
  split; [done|]. split; [done|].
  rewrite E. unfold _publish_post. by rewrite Hearly.
Qed.

Lemma missing_media_named_wait_postpones_witness :
  let w := mk_world store_with_await sample_schedule in
  _publish_post Iso.isoformat w sample_now sample_await
    (publish_attempt Iso.fromisoformat (fun s => s) "" "" (fun _ => "")
       nothing_found (posts w) sample_now sample_now sample_await)
  = w.
Proof.
  refine (proj2 (proj2 (missing_media_named_wait_postpones Iso.isoformat
                          Iso.fromisoformat (fun s => s) "" "" (fun _ => "")
                          nothing_found
                          (mk_world store_with_await sample_schedule)
                          sample_now sample_now sample_now sample_await
                          "Await.JPG" []
                          (conj (ex_intro _ "user" eq_refl)
                             (or_introl eq_refl))
                          _ eq_refl eq_refl eq_refl eq_refl))).
  vm_compute. reflexivity.
Defined.

(** ** The times of a day are in the future and spaced *)





(** ** The times a batch assigns, bucket by bucket *)

Section BatchTimes.

Variable isoformat : datetime -> string.



End BatchTimes.



(** The spacing holds inside a bucket, not from one bucket to the next. A
    batch of two posts, one a day, planned at 22:40: the first day has no
    room left and its bucket is moved to 08:00 of the next day, which is
    also where the bucket of the second day starts; the two posts are
    scheduled at the same time. *)
Lemma buckets_of_two_days_collide :
  let buckets :=
    day_buckets Iso.isoformat 3 (fun _ => late_evening) "acc1" ["p1"; "p2"] 1
      (campaign_start late_evening late_evening) 0
      (mk_assignment seven_drafts [] 0) in
  bucket_day <$> buckets = [0; 1]
  ∧ (fun b => (bucket_posts b).*2) <$> buckets
    = [[mk_datetime 739550 8 0 0 0]; [mk_datetime 739550 8 0 0 0]].
Proof. vm_compute. auto. Qed.
